(* ===== verification/_CoqProject ===== *)
-Q . S2P
Prelude.v
Utf8.v
JsString.v
JsNumber.v
SvgPath.v
Rings.v
Timers.v
ThemeStore.v
ThemeToggle.v
Projects.v
ProjectPage.v
Gallery.v
Brand.v
FaviconEffect.v
Contact.v
Site.v
Layout.v
