(* ===== verification/Prelude.v ===== *)
(** * A verification development of the pandeyg33/portfolio site

    The repository is a Next.js portfolio: one home page of sections
    (src/app/page.tsx), a page per project (src/app/projects/[slug]),
    and a root layout (src/app/layout.tsx) that adds to every page a
    random-colour favicon, a brand mark in the corner and a theme toggle.
    The only stateful logic is the theme toggle's ripple controller; the
    rest is randomised colour and icon choices, data, and markup whose
    links, keys and ids must fit together. This development models each
    part as executable Rocq definitions next to the TypeScript they
    translate, and proves what each part guarantees.

    ** Files, in dependency order

    - [Prelude] (this file): the notation scope [portfolio_scope] with the
      bind notation of a small state monad ([State], [st_bind],
      [st_replicate], [st_mapi_from]), the hint database [portfolio], the
      tactics [invc], [destruct_ands], [destruct_pair_let], and list
      lemmas shared by the components (filters, strictly increasing id
      lists).
    - [Utf8]: code points and their UTF-8 encoding (Unicode 3.9), the
      well-formedness check of table 3-7, and a generic trim of a set of
      code points on the bytes ([trim_bytes], lemmas in a Section over
      the set), proved equal to trimming the code points
      ([trim_bytes_utf8]): a code point's encoding is a lead byte
      announcing its length then continuation bytes, so a white-space
      sequence can only match at a code point boundary, reading forwards
      or backwards.
    - [JsString], [JsNumber]: the JavaScript built-ins the components call:
      [trim] over the full ECMAScript white-space set,
      [encodeURIComponent], [decodeURIComponent] (which throws on
      ill-formed UTF-8) and the data-URL percent-decoding, [includes];
      [Math.floor(Math.random() * n)], [Math.round], and double
      arithmetic as a rounding [fl] of the exact result with the laws of
      rounding to nearest ([RoundingLaws]), with the lemmas that bound
      them.
    - [SvgPath]: how the browser reads an SVG path's [d] attribute (SVG
      1.1, 8.3): a lexer and a fuel-bounded loop of commands M, L, H, V,
      A and Z, errors as values ([PathError] keeps the commands before
      the error), absolute segments from the current point, and the
      centre of an arc where SVG's conversion (F.6.5) gives a rational
      one. Lemmas: the fuel always suffices ([parse_path_total]), the data
      kept always starts with a moveto, and an arc whose radii just fit its
      chord is half a circle about that centre.
    - [Rings]: the four rotating text rings (IntroPill,
      ExperienceSequence, ProjectsGallery, ContactSection) and the
      hand-written icon paths (the contact arrow and send icon, the hero
      tiles' arrow and moon) as records of what the markup writes, with
      lemmas checking their path data through [SvgPath] (each ring is a
      circle centred on its viewBox, every drawn path stays in its
      viewBox, the intro ring's text is longer than its circle).
    - [Timers]: the browser's timer queue ([setTimeout], [clearTimeout],
      firing the earliest due timer), generic in the callback type.
    - [ThemeStore]: the [useTheme] interface as the type class
      [ThemeStore] with the law [ThemeStoreLaws], implemented by
      next-themes as the layout configures it ([NextThemes]): the script
      that applies the saved theme before the first paint ([nt_script]),
      [setTheme], the operating system's scheme listener and other tabs'
      [storage] events ([nt_event]), and what it writes on [<html>]
      ([nt_apply]: the class, or the attribute [attribute] names, and
      [color-scheme]). Claim C31: [<html>] always shows the resolved
      theme, and with this configuration the operating system's scheme
      never matters.
    - [ThemeToggle]: src/components/ThemeToggle.tsx. State [Toggle] and
      [World]; handlers [onClick], [run_callback] (the two timer
      closures), [mount], [unmount]; the event loop [advance]/[wait]; the
      rendering; the environment's step relation [step] and the invariant
      [inv]. Claims C1-C11: the activation lifecycle and its timing, the
      invariant, teardown safety, cleanup by id, quiescence, id
      disjointness, the double-click behaviour, the click before mount,
      the button's preview of the target theme, and the cover geometry;
      C32: another tab's toggle, arriving as a storage event, flips the
      shown theme at once with no ripple over the page. Lemmas: scripted runs of the event loop are sequences of steps
      ([run_refines_step]) and [wait] leaves no due timer
      ([wait_drains_due_timers]).
    - [Projects], [ProjectPage], [Gallery]: src/data/projects.ts, the page
      [/projects/[slug]] and src/components/ProjectsGallery.tsx. The page's
      icon memo runs in the state monad over the sequence of
      [Math.random()] results, its sizes and durations computed with a
      rounding [fl]. Claims C24-C28: the three distinct icons and their
      size and duration bounds, the page lookup, gallery links reaching
      their pages in the card's colours (the two copies of [toneStyle]
      agree), the odd last card, and the observer that rewrites
      [#projects] without adding history entries.
    - [Brand], [FaviconEffect]: src/lib/brandVariant.ts,
      src/components/BrandCorner.tsx and src/components/RandomFavicon.tsx
      on a shared [Page] record (the window slot, the dataset attribute,
      the CSS custom properties, the document's elements). Claims
      C12-C23: the memoised and uniform pick, the corner and favicon
      agreeing on variant and colours, [replaceAllIcons] (with the
      browser's case-insensitive matching of [rel]), the data-URL round
      trip, the SVG colours and the four distinct default favicons,
      [run], the hydration of the corner's style, [cssVar]'s trimming of
      custom properties, and the scheduling of [run] by the effect (once
      per effect invocation, twice in React's development mode, still
      one favicon).
    - [Contact]: src/components/ContactSection.tsx. Claims C29-C30: the
      send button's state machine over the Formspree hook state, and what
      the page shows when Formspree rejects a submission (the error path:
      only email and message errors are displayed, each field's messages
      joined after its prefix).
    - [Site]: the experience timeline, the skills marquees, the hero
      tiles, the header, the intro card, the home page's sections; the
      ids each section puts in the page are one definition per component
      ([hero_ids], [Gallery.gallery_ids], [Contact.contact_ids], ...).
      Lemmas: every in-page link, and every ring's [textPath], lands on
      exactly one element of the home page, and React keys are unique
      among siblings.
    - [Layout]: src/app/layout.tsx: the [metadata] and [viewport] objects
      as records, Next.js's resolution of a route's head (title template,
      [metadataBase]) and [RootLayout], with the lemma that every route
      gets the same head, titled by [title.default].

    ** How components interact

    [ThemeToggle] talks to the preference store only through the
    [ThemeStore] class, so its claims hold for every store; the one claim
    that needs the store to read back what was set (C8) assumes
    [ThemeStoreLaws], which [NextThemes] satisfies. [ThemeToggle] and
    [FaviconEffect] schedule work on [Timers]. The brand corner and the
    favicon share the window slot of [pickBrandVariant]; the gallery's
    links lead to [ProjectPage] through the router's reading of the path
    ([Gallery.route_slug]); [Rings] reads the rings' and icons' path data
    through [SvgPath], and gives [Gallery], [Contact] and [Site] the ids
    of the rings' paths, so that the sections' ids are built from the
    same records the ring lemmas are about; [Contact] adds the form
    fields' ids; [Site] collects the link targets of the other files and
    the ids of the home page.

    ** Bounds, fuel and numbers

    Times are integers in milliseconds ([Z]). The event loop [wait d] is
    a fixpoint with fuel [1 + queue_weight], where a reveal timer weighs
    2 (it schedules a cleanup) and a cleanup weighs 1: every firing lowers
    the weight, so that fuel always suffices, and [wait_drains_due_timers]
    proves the loop then leaves no due timer. [Math.random()] results are
    rationals in [[0, 1)] given as arguments or as a sequence [nat → Q].
    Double arithmetic is not exact: where its rounding matters (the icon
    sizes and jiggle durations of the project page) each operation's exact
    result goes through a rounding function [fl], and the bounds hold for
    every rounding with the laws of rounding to nearest, so they are
    closed ([3 + Math.random() * 1.5] can round to 4.5). Products by a
    power of two, and [Math.floor(Math.random() * n)] for the array
    lengths of the code, are kept exact (see JsNumber). Strings are byte
    strings: a JavaScript string is the UTF-8 encoding of its code
    points, and the string built-ins that depend on characters rather
    than bytes ([trim], [decodeURIComponent]) are proved or written to
    respect that encoding; code points and bytes are integers ([Z]). The
    byte-level trim's fuel is the length of the bytes: every round
    removes a non-empty encoding. SVG coordinates are rationals: every
    number the path data writes is a short decimal. The path reader's
    fuel is one more than the length of the data, and every round of its
    loop reads at least one character, so it never runs out
    ([SvgPath.parse_path_total]). The circumference 2π·48 of the rings is
    bounded with two terms of Leibniz's series for π on each side
    ([Rings.PI_bounds]).

    ** What is not modelled

    CSS class strings are kept only where the code computes them; the
    visual effect of CSS and of framer-motion animations is not modelled
    except the cover circle's geometry and the durations the code passes.
    next-themes, Formspree's [useForm] and [ValidationError], the
    browser's URL parser and selector matching, IEEE double rounding, the
    Unicode encoding and the Next.js router are libraries or standards:
    they are modelled from their documented behaviour, and so are the
    browser's reading of SVG path data and JSX's joining of text lines.
    The SVG reader covers the commands the components write; cubic and
    quadratic curves and numbers with exponents are not modelled, and an
    arc's centre only where it is rational. Glyph metrics are not
    modelled, so the rings' text is compared with the circle only where
    the code fixes its length ([textLength]). Next.js's metadata
    resolution is modelled for the fields the layout sets (title,
    description, keywords, Open Graph, manifest, theme colours); the tags
    Next.js adds on its own (charset, the viewport meta) are not. Font
    loading and image optimisation ([next/font], [next/image]) are
    library calls and not modelled. *)

From stdpp Require Import base list sets sorting strings.

(** ** Notation scope, hint database and tactics shared by every component *)

Declare Scope portfolio_scope.
Delimit Scope portfolio_scope with pf.

Create HintDb portfolio discriminated.

(** [invc H]: invert [H], substitute, and forget it. *)
Ltac invc H := inversion H; subst; clear H.

(** Split every conjunction and existential in the hypotheses. *)
Ltac destruct_ands :=
  repeat match goal with
         | H : _ ∧ _ |- _ => destruct H
         | H : ∃ _, _ |- _ => destruct H
         end.

(** Destruct the scrutinee of a [let '(a, b) := e in _] in the goal,
    remembering the equation as [E]. *)
Ltac destruct_pair_let E :=
  match goal with
  | |- context [match ?e with pair _ _ => _ end] =>
      let a := fresh "a" in let b := fresh "b" in destruct e as [a b] eqn:E
  end.

(** ** A state monad

    For code that threads a hidden state through a sequence of calls: the
    number of [Math.random()] draws made so far, and an array a closure
    mutates. *)
Definition State (St A : Type) : Type := St → A * St.

Definition st_ret {St A} (x : A) : State St A := λ s, (x, s).

Definition st_bind {St A B} (m : State St A) (f : A → State St B) : State St B :=
  λ s, let '(a, s') := m s in f a s'.

Notation "x <- m ;; k" := (st_bind m (λ x, k))
  (at level 100, m at next level, right associativity) : portfolio_scope.

(** [Array.from({ length: n }, () => m)]: run [m] [n] times in order. *)
Fixpoint st_replicate {St A} (n : nat) (m : State St A) : State St (list A) :=
  match n with
  | 0 => st_ret []
  | S n' => st_bind m (λ x, st_bind (st_replicate n' m) (λ xs, st_ret (x :: xs)))
  end.

(** [xs.map((x, i) => f x i)] with [f] effectful, from index [i]. *)
Fixpoint st_mapi_from {St A B} (f : A → nat → State St B) (i : nat) (xs : list A)
    : State St (list B) :=
  match xs with
  | [] => st_ret []
  | x :: xs' => st_bind (f x i) (λ y, st_bind (st_mapi_from f (S i) xs') (λ ys, st_ret (y :: ys)))
  end.

(** Strictly increasing key lists, as ids issued by a counter are. *)
Definition increasing (l : list nat) : Prop := StronglySorted lt l.

(** ** Generic lemmas on lists *)

Section ListFacts.
Context {A B : Type}.

Lemma filter_fmap_comm (f : A → B) (P : B → Prop) `{∀ y, Decision (P y)}
    (l : list A) :
  f <$> filter (λ x, P (f x)) l = filter P (f <$> l).
Proof.
  induction l as [|x l IH]; [done|].
  rewrite fmap_cons, !filter_cons. by case_decide; rewrite ?fmap_cons, IH.
Qed.

Lemma filter_all (P : A → Prop) `{∀ x, Decision (P x)} (l : list A) :
  (∀ x, x ∈ l → P x) → filter P l = l.
Proof.
  induction l as [|x l IH]; intros Hall; [done|]. rewrite filter_cons.
  rewrite decide_True by (apply Hall; set_solver). f_equal.
  apply IH. intros y Hy. apply Hall. set_solver.
Qed.

Lemma filter_none (P : A → Prop) `{∀ x, Decision (P x)} (l : list A) :
  (∀ x, x ∈ l → ¬ P x) → filter P l = [].
Proof.
  induction l as [|x l IH]; intros Hnone; [done|]. rewrite filter_cons.
  rewrite decide_False by (apply Hnone; set_solver).
  apply IH. intros y Hy. apply Hnone. set_solver.
Qed.

(** Filtering by a boolean test after filtering by its negation. *)
Lemma filter_true_false (f : A → bool) (l : list A) :
  filter (λ x, f x = true) (filter (λ x, f x = false) l) = [].
Proof.
  apply filter_none. intros x Hx%list_elem_of_filter. destruct Hx as [Hx _].
  by rewrite Hx.
Qed.

Lemma filter_false_idemp (f : A → bool) (l : list A) :
  filter (λ x, f x = false) (filter (λ x, f x = false) l) = filter (λ x, f x = false) l.
Proof.
  apply filter_all. intros x Hx%list_elem_of_filter. apply Hx.
Qed.
End ListFacts.

(** Removing two distinct keys [a] and [b] from a list whose keys are a
    permutation of [xs ++ a :: b :: ys] (all distinct) leaves exactly the
    keys [xs ++ ys]. This is the list reasoning behind the ripple cleanup. *)
Lemma fmap_filter_remove_pair {A} (f : A → nat) (l : list A)
    (xs ys : list nat) (a b : nat) :
  NoDup (xs ++ a :: b :: ys) →
  f <$> l ≡ₚ xs ++ a :: b :: ys →
  f <$> filter (λ r, f r ≠ a ∧ f r ≠ b) l ≡ₚ xs ++ ys.
Proof.
  intros Hnd Hperm.
  assert (f <$> filter (λ r, f r ≠ a ∧ f r ≠ b) l
          = filter (λ k, k ≠ a ∧ k ≠ b) (f <$> l)) as ->
    by exact (filter_fmap_comm f (λ k, k ≠ a ∧ k ≠ b) l).
  rewrite Hperm.
  apply NoDup_app in Hnd as (Hxs & Hdisj & Hab).
  apply NoDup_cons in Hab as [Ha Hb]. apply NoDup_cons in Hb as [Hb _].
  assert (∀ y, y ∈ xs → y ≠ a ∧ y ≠ b) as Hx.
  { intros y Hy. specialize (Hdisj y Hy). split; intros ->; set_solver. }
  assert (∀ y, y ∈ ys → y ≠ a ∧ y ≠ b) as Hy.
  { intros y Hy'. split; intros ->; set_solver. }
  rewrite filter_app, !filter_cons, decide_False, decide_False by naive_solver.
  by rewrite (filter_all _ xs Hx), (filter_all _ ys Hy).
Qed.

(** ** Strictly increasing key lists *)

Lemma increasing_snoc (l : list nat) (k : nat) :
  increasing l → (∀ x, x ∈ l → x < k) → increasing (l ++ [k]).
Proof.
  unfold increasing. induction l as [|x l IH]; intros Hs Hlt; simpl.
  - repeat constructor.
  - inversion Hs as [|? ? Hs' Hfa]; subst. constructor.
    + apply IH; [done|]. intros y Hy. apply Hlt. set_solver.
    + apply Forall_app. split; [done|]. constructor; [|done].
      apply Hlt. set_solver.
Qed.

Lemma increasing_NoDup (l : list nat) : increasing l → NoDup l.
Proof.
  unfold increasing. induction 1 as [|x l Hs IH Hfa]; constructor; [|done].
  intros Hin. rewrite Forall_forall in Hfa. specialize (Hfa x Hin). lia.
Qed.

Lemma increasing_filter (P : nat → Prop) `{∀ x, Decision (P x)} (l : list nat) :
  increasing l → increasing (filter P l).
Proof.
  unfold increasing. induction 1 as [|x l Hs IH Hfa]; [constructor|].
  rewrite filter_cons. case_decide; [|done]. constructor; [done|].
  rewrite Forall_forall in *. intros y Hy. apply Hfa.
  apply list_elem_of_filter in Hy. naive_solver.
Qed.

#[export] Hint Resolve increasing_NoDup increasing_snoc increasing_filter : portfolio.
