(* ===== verification/Utf8.v ===== *)
(** * Utf8: Unicode code points and their UTF-8 encoding

    The development represents a JavaScript string by the UTF-8 encoding
    of its code points, as a Rocq [string] of bytes. This file gives that
    encoding (Unicode 15, section 3.9, table 3-6), the well-formedness
    check of table 3-7 that [decodeURIComponent] applies to the bytes it
    decodes, and the structure of an encoded code point, a lead byte then
    continuation bytes, that lets a byte-level routine such as [trim]
    work on whole code points. Code points and bytes are integers ([Z]). *)

From Stdlib Require Import ZArith Ascii.
From stdpp Require Import base list strings.
From S2P Require Import Prelude.

Local Open Scope Z_scope.

(** Unicode scalar values: code points that are not surrogates. *)
Definition scalar_value (n : Z) : bool :=
  (0 <=? n) && (n <? 0x110000) && negb ((0xD800 <=? n) && (n <=? 0xDFFF)).

(** The bytes of one code point. *)
Definition utf8_cp (n : Z) : list Z :=
  if n <? 0x80 then [n]
  else if n <? 0x800 then [0xC0 + n / 64; 0x80 + n mod 64]
  else if n <? 0x10000 then [0xE0 + n / 4096; 0x80 + (n / 64) mod 64; 0x80 + n mod 64]
  else [0xF0 + n / 262144; 0x80 + (n / 4096) mod 64; 0x80 + (n / 64) mod 64; 0x80 + n mod 64].

Definition utf8 (cps : list Z) : list Z := cps ≫= utf8_cp.

Definition is_cont (b : Z) : bool := (0x80 <=? b) && (b <? 0xC0).

Definition in_range (lo hi b : Z) : bool := (lo <=? b) && (b <=? hi).

(** Well-formed UTF-8 byte sequences (table 3-7). *)
Fixpoint utf8_valid (l : list Z) : bool :=
  match l with
  | [] => true
  | b :: l1 =>
      if in_range 0 0x7F b then utf8_valid l1
      else match l1 with
        | [] => false
        | c1 :: l2 =>
            if in_range 0xC2 0xDF b then is_cont c1 && utf8_valid l2
            else match l2 with
              | [] => false
              | c2 :: l3 =>
                  if in_range 0xE0 0xEF b then
                    in_range (if b =? 0xE0 then 0xA0 else 0x80) (if b =? 0xED then 0x9F else 0xBF) c1
                    && is_cont c2 && utf8_valid l3
                  else match l3 with
                    | [] => false
                    | c3 :: l4 =>
                        in_range 0xF0 0xF4 b &&
                        in_range (if b =? 0xF0 then 0x90 else 0x80) (if b =? 0xF4 then 0x8F else 0xBF) c1
                        && is_cont c2 && is_cont c3 && utf8_valid l4
                    end
              end
        end
  end.

(** The number of bytes a lead byte announces. *)
Definition lead_len (b : Z) : nat :=
  if b <? 0x80 then 1 else if b <? 0xE0 then 2 else if b <? 0xF0 then 3 else 4.

(** ** Trimming a set of code points *)

(** [String.prototype.trim] with white space [ws] (code points), on code
    points: drop the leading ones of [ws]. *)
Fixpoint drop_ws (ws : list Z) (cps : list Z) : list Z :=
  match cps with
  | [] => []
  | c :: cs => if bool_decide (c ∈ ws) then drop_ws ws cs else cps
  end.

Definition trim_cps (ws cps : list Z) : list Z := reverse (drop_ws ws (reverse (drop_ws ws cps))).

(** On bytes: drop leading byte sequences of [seqs], with one step of
    fuel per byte. *)
Fixpoint drop_seqs (fuel : nat) (seqs : list (list Z)) (l : list Z) : list Z :=
  match fuel with
  | O => l
  | S f =>
      match list_find (λ q, q `prefix_of` l) seqs with
      | Some (_, q) => drop_seqs f seqs (drop (length q) l)
      | None => l
      end
  end.

(** The sequences are the encodings of [ws]; the trailing ones are
    matched on the reversed bytes. *)
Definition trim_bytes (ws l : list Z) : list Z :=
  let seqs := utf8_cp <$> ws in
  reverse (drop_seqs (length l) (reverse <$> seqs)
             (reverse (drop_seqs (length l) seqs l))).

(** Between bytes and Rocq strings. *)
Definition bytes_of (s : string) : list Z :=
  (λ c, Z.of_N (Ascii.N_of_ascii c)) <$> String.list_ascii_of_string s.

Definition string_of_bytes (l : list Z) : string :=
  String.string_of_list_ascii ((λ b, Ascii.ascii_of_N (Z.to_N b)) <$> l).

(** ** Lemmas *)

(** Decide the comparisons of a goal on encoded bytes by arithmetic. *)
Ltac zcmp :=
  repeat match goal with
  | |- context [?a <? ?b] =>
      first [ rewrite (proj2 (Z.ltb_lt a b)) by (Z.div_mod_to_equations; lia)
            | rewrite (proj2 (Z.ltb_ge a b)) by (Z.div_mod_to_equations; lia) ]
  | |- context [?a <=? ?b] =>
      first [ rewrite (proj2 (Z.leb_le a b)) by (Z.div_mod_to_equations; lia)
            | rewrite (proj2 (Z.leb_gt a b)) by (Z.div_mod_to_equations; lia) ]
  | |- context [?a =? ?b] =>
      first [ rewrite (proj2 (Z.eqb_eq a b)) by (Z.div_mod_to_equations; lia)
            | rewrite (proj2 (Z.eqb_neq a b)) by (Z.div_mod_to_equations; lia) ]
  end; simpl.

Lemma scalar_value_spec n :
  scalar_value n = true ↔ 0 ≤ n < 0x110000 ∧ ¬ (0xD800 ≤ n ≤ 0xDFFF).
Proof.
  unfold scalar_value. rewrite !andb_true_iff, negb_true_iff, andb_false_iff,
    Z.leb_le, Z.ltb_lt, !Z.leb_gt. lia.
Qed.

(** Split on the three ranges [utf8_cp] distinguishes. *)
Ltac cp_cases n :=
  unfold utf8_cp;
  destruct (Z.ltb_spec n 0x80); [|destruct (Z.ltb_spec n 0x800); [|destruct (Z.ltb_spec n 0x10000)]].

(** An encoded code point is a lead byte, which is not a continuation
    byte and announces the length, then continuation bytes. *)
Lemma utf8_cp_shape n :
  scalar_value n = true →
  ∃ b cs, utf8_cp n = b :: cs ∧ is_cont b = false ∧
          Forall (λ c, is_cont c = true) cs ∧ lead_len b = S (length cs).
Proof.
  intros [? ?]%scalar_value_spec. unfold is_cont, lead_len.
  cp_cases n; eexists _, _; (split; [reflexivity|]); zcmp;
    repeat constructor; zcmp; reflexivity.
Qed.

Lemma utf8_cp_length n : scalar_value n = true → (1 ≤ length (utf8_cp n))%nat.
Proof. intros (b & cs & -> & _)%utf8_cp_shape. simpl. lia. Qed.

Lemma utf8_cp_inj a b :
  scalar_value a = true → scalar_value b = true → utf8_cp a = utf8_cp b → a = b.
Proof.
  intros [? ?]%scalar_value_spec [? ?]%scalar_value_spec.
  cp_cases a; cp_cases b; intros Heq; simplify_eq;
    Z.div_mod_to_equations; lia.
Qed.

(** The encoding of a code point is well-formed UTF-8. *)
Lemma utf8_valid_cp n l :
  scalar_value n = true → utf8_valid (utf8_cp n ++ l) = utf8_valid l.
Proof.
  intros [? ?]%scalar_value_spec. unfold is_cont, in_range.
  cp_cases n; cbn [utf8_valid app]; unfold in_range, is_cont; zcmp; try reflexivity;
    repeat match goal with |- context [?a =? ?b] => destruct (Z.eqb_spec a b) end; zcmp; reflexivity.
Qed.

Lemma utf8_cons c cps : utf8 (c :: cps) = utf8_cp c ++ utf8 cps.
Proof. reflexivity. Qed.

(** Encoding scalar values gives well-formed UTF-8. *)
Lemma utf8_valid_utf8 cps :
  Forall (λ c, scalar_value c = true) cps → utf8_valid (utf8 cps) = true.
Proof. induction 1; [done|]. by rewrite utf8_cons, utf8_valid_cp. Qed.

(** A code point's encoding can only start where that code point's does. *)
Lemma utf8_cp_prefix_unique a c s r :
  scalar_value a = true → scalar_value c = true →
  utf8_cp a ++ s = utf8_cp c ++ r → a = c.
Proof.
  intros Ha Hc.
  destruct (utf8_cp_shape a Ha) as (ba & ca & Ea & _ & _ & La).
  destruct (utf8_cp_shape c Hc) as (bc & cc & Ec & _ & _ & Lc).
  rewrite Ea, Ec. intros [= <- Heq]. apply app_inj_1 in Heq as [Heq _]; [|lia].
  apply utf8_cp_inj; [done..|]. by rewrite Ea, Ec, Heq.
Qed.

(** Read backwards, a lead byte cannot fall among continuation bytes. *)
Lemma cont_before_lead (cw cc s r : list Z) bw bc :
  Forall (λ x, is_cont x = true) cc → is_cont bw = false →
  cw ++ bw :: s = cc ++ bc :: r → ¬ (length cw < length cc)%nat.
Proof.
  intros Hc Hb Heq Hlt.
  assert ((cc ++ bc :: r) !! length cw = Some bw) as Hl.
  { by rewrite <-Heq, lookup_app_r, Nat.sub_diag by lia. }
  rewrite lookup_app_l in Hl by lia.
  pose proof (Forall_lookup_1 _ _ _ _ Hc Hl). congruence.
Qed.

(** Read backwards, a code point's encoding can only end where that code
    point's does. *)
Lemma utf8_cp_suffix_unique a c s r :
  scalar_value a = true → scalar_value c = true →
  reverse (utf8_cp a) ++ s = reverse (utf8_cp c) ++ r → a = c.
Proof.
  intros Ha Hc.
  destruct (utf8_cp_shape a Ha) as (ba & ca & Ea & Ba & Ca & _).
  destruct (utf8_cp_shape c Hc) as (bc & cc & Ec & Bc & Cc & _).
  rewrite Ea, Ec, !reverse_cons, <-!(assoc_L (++)). simpl. intros Heq.
  assert (length (reverse ca) = length (reverse cc)) as Hlen.
  { pose proof (cont_before_lead _ _ _ _ _ _ (proj2 (Forall_reverse _ _) Cc) Ba Heq).
    pose proof (cont_before_lead _ _ _ _ _ _ (proj2 (Forall_reverse _ _) Ca) Bc (eq_sym Heq)).
    lia. }
  apply app_inj_1 in Heq as [Heq [= <- _]]; [|done].
  apply utf8_cp_inj; [done..|]. rewrite Ea, Ec.
  by rewrite <-(reverse_involutive ca), Heq, reverse_involutive.
Qed.

Lemma utf8_cp_nonempty c : scalar_value c = true → utf8_cp c ≠ [].
Proof. intros (b & cs & -> & _)%utf8_cp_shape. done. Qed.

Lemma reverse_bind {A B} (f : A → list B) (l : list A) :
  reverse (l ≫= f) = reverse l ≫= (reverse ∘ f).
Proof.
  induction l as [|x l IH]; [done|]. csimpl.
  rewrite reverse_app, IH, reverse_cons, bind_app. csimpl. by rewrite (right_id_L [] (++)).
Qed.

(** ** Trimming a set of code points on the bytes *)

Section Trim.
(** The code points to trim, all scalar values. *)
Variable ws : list Z.
Hypothesis ws_scalar : Forall (λ w, scalar_value w = true) ws.

Lemma drop_ws_spec cps :
  ∃ p, cps = p ++ drop_ws ws cps ∧ Forall (.∈ ws) p ∧ ∀ c, head (drop_ws ws cps) = Some c → c ∉ ws.
Proof.
  induction cps as [|c cs (p & Hp & Hw & Hh)]; [by exists []|]. simpl.
  case_bool_decide as Hc.
  - exists (c :: p). split_and!; [simpl; by f_equal|by constructor|done].
  - exists []. split_and!; [done|done|]. by intros ? [= <-].
Qed.

Lemma drop_ws_app cps : ∃ p, cps = p ++ drop_ws ws cps.
Proof. destruct (drop_ws_spec cps) as (p & ? & _). eauto. Qed.

(** [trim_cps] cuts a string into leading white space, the result and
    trailing white space, and the result neither starts nor ends with
    white space. *)
Lemma trim_cps_spec cps :
  ∃ p q, cps = p ++ trim_cps ws cps ++ q ∧ Forall (.∈ ws) p ∧ Forall (.∈ ws) q ∧
    (∀ c, head (trim_cps ws cps) = Some c → c ∉ ws) ∧
    (∀ c, head (reverse (trim_cps ws cps)) = Some c → c ∉ ws).
Proof.
  destruct (drop_ws_spec cps) as (p & Hp & Hpw & Hh).
  destruct (drop_ws_spec (reverse (drop_ws ws cps))) as (q & Hq & Hqw & Hh').
  unfold trim_cps. set (t := drop_ws ws (reverse (drop_ws ws cps))) in *.
  assert (drop_ws ws cps = reverse t ++ reverse q) as Hd.
  { by rewrite <-reverse_app, <-Hq, reverse_involutive. }
  exists p, (reverse q). split_and!.
  - by rewrite <-Hd.
  - done.
  - by apply Forall_reverse.
  - intros c Hc. apply Hh. rewrite Hd. destruct (reverse t); [done|exact Hc].
  - by rewrite reverse_involutive.
Qed.

Lemma ws_scalar_of w : w ∈ ws → scalar_value w = true.
Proof. intros Hw. by eapply Forall_forall in Hw; [|apply ws_scalar]. Qed.

Section Drop.
(** An encoding [e] of code points in which a sequence of [ws] can
    only start where that code point is. *)
Variable e : Z → list Z.
Hypothesis e_nonempty : ∀ c, scalar_value c = true → e c ≠ [].
Hypothesis e_unique : ∀ w c s r,
  w ∈ ws → scalar_value c = true → e w ++ s = e c ++ r → w = c.

Lemma enc_prefix q c r :
  q ∈ e <$> ws → scalar_value c = true → q `prefix_of` e c ++ r → c ∈ ws ∧ q = e c.
Proof.
  intros (w & -> & Hw)%list_elem_of_fmap Hc [s Hs].
  by rewrite <-(e_unique w c s r Hw Hc (eq_sym Hs)).
Qed.

Lemma drop_seqs_enc fuel cps :
  Forall (λ c, scalar_value c = true) cps → (length (cps ≫= e) ≤ fuel)%nat →
  drop_seqs fuel (e <$> ws) (cps ≫= e) = drop_ws ws cps ≫= e.
Proof.
  intros Hs. revert fuel. induction Hs as [|c cs Hc Hs IH]; intros fuel Hf.
  - destruct fuel as [|f]; [done|]. simpl.
    destruct (list_find _ _) as [[i q]|] eqn:Hq; [|done].
    apply list_find_Some in Hq as (Hq & [s Hpre] & _).
    apply list_elem_of_lookup_2, list_elem_of_fmap in Hq as (w & -> & Hw).
    symmetry in Hpre. apply app_nil in Hpre as [Hn _].
    destruct (e_nonempty w); [by apply ws_scalar_of|done].
  - assert (length (e c) ≠ 0)%nat as Hne.
    { rewrite length_zero_iff_nil. by apply e_nonempty. }
    csimpl in Hf. rewrite length_app in Hf.
    destruct fuel as [|f]; [lia|].
    cbn [drop_seqs drop_ws]. csimpl.
    destruct (list_find _ _) as [[i q]|] eqn:Hq.
    + apply list_find_Some in Hq as (Hq & Hpre & _).
      destruct (enc_prefix q c (cs ≫= e)) as [Hin ->]; [by eapply list_elem_of_lookup_2|done..|].
      rewrite bool_decide_eq_true_2, drop_app_length by done. apply IH.
      lia.
    + apply list_find_None in Hq. case_bool_decide as Hin; [|done].
      exfalso. apply (proj1 (Forall_forall _ _) Hq (e c)); [|by eexists].
      apply list_elem_of_fmap. eauto.
Qed.
End Drop.

(** Trimming the encodings of [ws] from the bytes of a string is
    trimming [ws] from its code points. *)
Lemma trim_bytes_utf8 cps :
  Forall (λ c, scalar_value c = true) cps → trim_bytes ws (utf8 cps) = utf8 (trim_cps ws cps).
Proof.
  intros Hs. unfold trim_bytes, trim_cps, utf8.
  destruct (drop_ws_app cps) as [p Hp].
  assert (Forall (λ c, scalar_value c = true) (drop_ws ws cps)) as Hd.
  { rewrite Hp in Hs. by apply Forall_app in Hs as [_ ?]. }
  assert (length (drop_ws ws cps ≫= utf8_cp) ≤ length (cps ≫= utf8_cp))%nat as Hl.
  { rewrite Hp at 2. rewrite bind_app, length_app. lia. }
  rewrite (drop_seqs_enc utf8_cp utf8_cp_nonempty
    (λ w c s r Hw, utf8_cp_prefix_unique w c s r (ws_scalar_of w Hw))) by (done || lia).
  rewrite reverse_bind, <-list_fmap_compose.
  rewrite (drop_seqs_enc (reverse ∘ utf8_cp)).
  - rewrite reverse_bind. apply list_bind_ext; [|done].
    intros x. apply reverse_involutive.
  - intros c Hc. cbn. rewrite <-length_zero_iff_nil, length_reverse, length_zero_iff_nil.
    by apply utf8_cp_nonempty.
  - intros w c s r Hw. apply utf8_cp_suffix_unique. by apply ws_scalar_of.
  - by apply Forall_reverse.
  - rewrite <-reverse_bind, length_reverse. lia.
Qed.
End Trim.

(** ** Bytes and strings *)

Lemma utf8_cp_bytes n : scalar_value n = true → Forall (λ b, 0 ≤ b < 256) (utf8_cp n).
Proof.
  intros [? ?]%scalar_value_spec.
  cp_cases n; repeat constructor; Z.div_mod_to_equations; lia.
Qed.

Lemma utf8_bytes cps :
  Forall (λ c, scalar_value c = true) cps → Forall (λ b, 0 ≤ b < 256) (utf8 cps).
Proof. induction 1; [done|]. rewrite utf8_cons. apply Forall_app. auto using utf8_cp_bytes. Qed.

Lemma bytes_of_string_of_bytes l :
  Forall (λ b, 0 ≤ b < 256) l → bytes_of (string_of_bytes l) = l.
Proof.
  unfold bytes_of, string_of_bytes. rewrite String.list_ascii_of_string_of_list_ascii.
  induction 1 as [|b l Hb _ IH]; [done|]. csimpl. rewrite IH, N_ascii_embedding by lia.
  f_equal. lia.
Qed.

Lemma string_of_bytes_of s : string_of_bytes (bytes_of s) = s.
Proof.
  induction s as [|c s IH]; [done|]. unfold string_of_bytes, bytes_of in *. csimpl.
  by rewrite N2Z.id, ascii_N_embedding, IH.
Qed.

(** The encoding of a string of scalar values is the empty string only
    for the empty string. *)
Lemma string_of_utf8_empty cps :
  Forall (λ c, scalar_value c = true) cps →
  String.eqb (string_of_bytes (utf8 cps)) "" = bool_decide (cps = []).
Proof.
  intros Hs. destruct Hs as [|c cs Hc _]; [done|].
  rewrite bool_decide_eq_false_2 by done. apply String.eqb_neq.
  rewrite utf8_cons. destruct (utf8_cp_shape c Hc) as (b & bs & -> & _). done.
Qed.
