(* ===== verification/JsString.v ===== *)
(** * JsString: the JavaScript string operations the components rely on

    Strings are Rocq [string]s, byte sequences: a JavaScript string is
    represented by the UTF-8 encoding of its code points ([Utf8]).
    [js_trim] is [String.prototype.trim] on that representation: it
    removes the encodings of the ECMAScript white space and line
    terminators ([js_white_space]) at both ends, and [js_trim_unicode]
    proves it removes exactly the leading and trailing white-space code
    points (the components' [cssVar] rely on it, Brand.v).
    [encodeURIComponent] percent-encodes every byte outside the unreserved
    set [A-Z a-z 0-9 - _ . ! ~ * ' ( )] as [%XX] with upper-case hex
    digits, which is what JavaScript produces from the UTF-8 encoding of
    its argument. [percent_decode] is the URL standard's percent-decoding
    of a [data:] URL's bytes; [decodeURIComponent] also checks that the
    decoded bytes are well-formed UTF-8 and fails with [URIError]
    otherwise. [split_fragment] is how a URL parser separates the fragment
    after the first [#]. *)

From Stdlib Require Import Ascii ZArith.
From stdpp Require Import base list strings.
From S2P Require Import Prelude Utf8.

(** The code points [trim] removes: the WhiteSpace of the ECMAScript
    grammar (TAB, VT, FF, ZWNBSP and the space separators of category Zs:
    SP, NBSP, U+1680, U+2000 to U+200A, U+202F, U+205F, U+3000) and its
    LineTerminators (LF, CR, LS, PS). *)
Definition js_white_space : list Z :=
  [9; 10; 11; 12; 13; 32; 0xA0; 0x1680; 0x2000; 0x2001; 0x2002; 0x2003; 0x2004; 0x2005;
   0x2006; 0x2007; 0x2008; 0x2009; 0x200A; 0x2028; 0x2029; 0x202F; 0x205F; 0x3000; 0xFEFF]%Z.

(** [s.trim()], on the bytes of [s]. *)
Definition js_trim (s : string) : string :=
  string_of_bytes (trim_bytes js_white_space (bytes_of s)).

(** Whether character [c] occurs in [s]. *)
Fixpoint str_has (c : Ascii.ascii) (s : string) : bool :=
  match s with
  | EmptyString => false
  | String c' s' => bool_decide (c = c') || str_has c s'
  end.

(** The characters [encodeURIComponent] leaves alone. *)
Definition is_unreserved (c : Ascii.ascii) : bool :=
  let n := Ascii.nat_of_ascii c in
  (65 <=? n) && (n <=? 90) || (97 <=? n) && (n <=? 122) || (48 <=? n) && (n <=? 57) ||
  bool_decide (n ∈ [45; 95; 46; 33; 126; 42; 39; 40; 41]).

Definition hex_digit (n : nat) : Ascii.ascii :=
  if n <? 10 then Ascii.ascii_of_nat (48 + n) else Ascii.ascii_of_nat (55 + n).

Definition hex_value (c : Ascii.ascii) : option nat :=
  let n := Ascii.nat_of_ascii c in
  if (48 <=? n) && (n <=? 57) then Some (n - 48)
  else if (65 <=? n) && (n <=? 70) then Some (n - 55)
  else if (97 <=? n) && (n <=? 102) then Some (n - 87)
  else None.

(** [encodeURIComponent(s)] *)
Fixpoint encodeURIComponent (s : string) : string :=
  match s with
  | EmptyString => EmptyString
  | String c s' =>
      let n := Ascii.nat_of_ascii c in
      if is_unreserved c then String c (encodeURIComponent s')
      else String "%"%char (String (hex_digit (n / 16))
                         (String (hex_digit (n mod 16)) (encodeURIComponent s')))
  end.

(** The percent-decoding of a URL's bytes: each [%XX] is the byte [XX];
    [None] is a malformed escape. *)
Fixpoint percent_decode (s : string) : option string :=
  match s with
  | EmptyString => Some EmptyString
  | String c s' =>
      if Ascii.ascii_dec c "%"%char then
        match s' with
        | String h (String l r) =>
            match hex_value h, hex_value l, percent_decode r with
            | Some a, Some b, Some r' => Some (String (Ascii.ascii_of_nat (16 * a + b)) r')
            | _, _, _ => None
            end
        | _ => None
        end
      else String c <$> percent_decode s'
  end.

(** [decodeURIComponent(s)]: the decoded bytes must be well-formed UTF-8;
    [None] is the [URIError] it throws otherwise. *)
Definition decodeURIComponent (s : string) : option string :=
  percent_decode s ≫= λ d, if utf8_valid (bytes_of d) then Some d else None.

(** [hay.includes(needle)] *)
Fixpoint str_contains (hay needle : string) : bool :=
  String.prefix needle hay ||
  match hay with EmptyString => false | String _ hay' => str_contains hay' needle end.

(** A URL up to its first [#], and the fragment after it. *)
Fixpoint split_fragment (s : string) : string * option string :=
  match s with
  | EmptyString => (EmptyString, None)
  | String c s' =>
      if Ascii.ascii_dec c "#"%char then (EmptyString, Some s')
      else let '(a, f) := split_fragment s' in (String c a, f)
  end.

(** ** Lemmas *)

Lemma hex_value_digit k : k < 16 → hex_value (hex_digit k) = Some k.
Proof. intros Hk. do 16 (destruct k as [|k]; [reflexivity|]). lia. Qed.

Lemma hex_digit_not_hash k : k < 16 → hex_digit k ≠ "#"%char.
Proof. intros Hk. do 16 (destruct k as [|k]; [discriminate|]). lia. Qed.

Lemma nat_of_ascii_lt (c : Ascii.ascii) : Ascii.nat_of_ascii c < 256.
Proof. destruct c as [[] [] [] [] [] [] [] []]; vm_compute; lia. Qed.

(** Percent-decoding undoes [encodeURIComponent]. *)
Lemma percent_decode_encode (s : string) : percent_decode (encodeURIComponent s) = Some s.
Proof.
  induction s as [|c s IH]; [done|].
  pose proof (nat_of_ascii_lt c) as Hc.
  assert (nat_of_ascii c / 16 < 16) as Hq by (apply Nat.Div0.div_lt_upper_bound; lia).
  assert (nat_of_ascii c mod 16 < 16) as Hr by (apply Nat.mod_upper_bound; lia).
  cbn -[Nat.div Nat.modulo is_unreserved hex_digit hex_value].
  destruct (is_unreserved c) eqn:Hu.
  - cbn -[Nat.div Nat.modulo is_unreserved hex_digit hex_value].
    destruct (Ascii.ascii_dec c "%"%char) as [->|Hne]; [discriminate|]. by rewrite IH.
  - cbn -[Nat.div Nat.modulo is_unreserved hex_digit hex_value].
    rewrite !hex_value_digit, IH by done. do 2 f_equal.
    transitivity (ascii_of_nat (nat_of_ascii c)); [|apply ascii_nat_embedding].
    f_equal. pose proof (Nat.div_mod_eq (nat_of_ascii c) 16). lia.
Qed.

(** [decodeURIComponent] undoes [encodeURIComponent] on the encoding of a
    JavaScript string, which is well-formed UTF-8. *)
Lemma decode_encode (s : string) :
  utf8_valid (bytes_of s) = true → decodeURIComponent (encodeURIComponent s) = Some s.
Proof. intros Hv. unfold decodeURIComponent. by rewrite percent_decode_encode; simpl; rewrite Hv. Qed.

(** [decodeURIComponent(encodeURIComponent(s)) === s] for every string
    of Unicode scalar values. *)
Lemma uri_roundtrip_utf8 (cps : list Z) :
  Forall (λ c, scalar_value c = true) cps →
  decodeURIComponent (encodeURIComponent (string_of_bytes (utf8 cps))) = Some (string_of_bytes (utf8 cps)).
Proof.
  intros Hs. apply decode_encode.
  rewrite bytes_of_string_of_bytes by by apply utf8_bytes. by apply utf8_valid_utf8.
Qed.

Lemma encode_length (s : string) : (String.length s ≤ String.length (encodeURIComponent s))%nat.
Proof. induction s as [|c s IH]; simpl; [lia|]. destruct (is_unreserved c); simpl; lia. Qed.

(** A string [encodeURIComponent] leaves alone is ASCII, so well-formed. *)
Lemma encode_fixed_valid (s : string) :
  encodeURIComponent s = s → utf8_valid (bytes_of s) = true.
Proof.
  induction s as [|c s IH]; [done|]. simpl.
  destruct (is_unreserved c) eqn:Hu; intros Heq.
  - injection Heq as Heq. simpl. unfold in_range.
    assert (Z.of_N (N_of_ascii c) < 128)%Z.
    { revert Hu. destruct c as [[] [] [] [] [] [] [] []]; vm_compute; done. }
    rewrite (proj2 (Z.leb_le _ _)), (proj2 (Z.leb_le _ _)) by lia. by apply IH.
  - injection Heq as _ Heq. pose proof (encode_length s). rewrite <-Heq in H at 1. simpl in H. lia.
Qed.

(** An encoded string never contains [#]: it cannot open a fragment. *)
Lemma encode_no_hash (s : string) : str_has "#"%char (encodeURIComponent s) = false.
Proof.
  induction s as [|c s IH]; [done|].
  pose proof (nat_of_ascii_lt c) as Hc.
  assert (nat_of_ascii c / 16 < 16) as Hq by (apply Nat.Div0.div_lt_upper_bound; lia).
  assert (nat_of_ascii c mod 16 < 16) as Hr by (apply Nat.mod_upper_bound; lia).
  cbn -[Nat.div Nat.modulo is_unreserved hex_digit].
  destruct (is_unreserved c) eqn:Hu; cbn -[Nat.div Nat.modulo is_unreserved hex_digit].
  - rewrite IH, orb_false_r. apply bool_decide_eq_false. intros <-. discriminate.
  - rewrite IH, (bool_decide_eq_false_2 _ (not_eq_sym (hex_digit_not_hash _ Hq))),
      (bool_decide_eq_false_2 _ (not_eq_sym (hex_digit_not_hash _ Hr))).
    done.
Qed.

Lemma split_fragment_app (a f : string) :
  str_has "#"%char a = false → split_fragment (a +:+ String "#"%char f) = (a, Some f).
Proof.
  induction a as [|c a IH]; simpl; intros Ha; [done|].
  apply orb_false_iff in Ha as [Hc Ha]. apply bool_decide_eq_false in Hc.
  destruct (Ascii.ascii_dec c "#"%char) as [->|_]; [done|]. by rewrite IH.
Qed.

Lemma str_app_assoc (a b c : string) : (a +:+ b) +:+ c = a +:+ b +:+ c.
Proof.
  induction a as [|x a IH]; [done|].
  change (String x ((a +:+ b) +:+ c) = String x (a +:+ b +:+ c)). by rewrite IH.
Qed.

Lemma str_has_app c (a b : string) : str_has c (a +:+ b) = str_has c a || str_has c b.
Proof. induction a as [|c' a IH]; simpl; [done|]. by rewrite IH, orb_assoc. Qed.

Lemma prefix_app (b c : string) : String.prefix b (b +:+ c) = true.
Proof.
  induction b as [|a b IH]; [by destruct c|]. simpl.
  destruct (Ascii.ascii_dec a a) as [_|[]]; [done|done].
Qed.

(** [includes] finds a needle that starts the string or occurs after a
    prefix. *)
Lemma str_contains_here (b c : string) : str_contains (b +:+ c) b = true.
Proof.
  pose proof (prefix_app b c) as H.
  destruct (b +:+ c); cbn [str_contains]; by rewrite H.
Qed.

Lemma str_contains_app_r (a c b : string) :
  str_contains c b = true → str_contains (a +:+ c) b = true.
Proof.
  induction a as [|x a IH]; intros H; [done|].
  simpl. rewrite (IH H). apply orb_true_r.
Qed.

Lemma prefix_app_cong (x a b : string) :
  String.prefix a b = true → String.prefix (x +:+ a) (x +:+ b) = true.
Proof.
  intros H. induction x as [|c x IH]; [done|]. simpl.
  destruct (Ascii.ascii_dec c c) as [_|[]]; [done|done].
Qed.

Lemma str_contains_prefix (hay needle : string) :
  String.prefix needle hay = true → str_contains hay needle = true.
Proof. intros H. destruct hay; cbn [str_contains]; by rewrite H. Qed.

#[export] Hint Resolve str_contains_here str_contains_app_r : portfolio.
#[export] Hint Resolve prefix_app prefix_app_cong str_contains_prefix : portfolio.

Lemma js_white_space_scalar : Forall (λ c, scalar_value c = true) js_white_space.
Proof. repeat constructor. Qed.

(** [decodeURIComponent] rejects an escaped byte that does not continue a
    well-formed sequence: a lone continuation byte, a truncated sequence, an
    encoded surrogate. *)
Lemma decode_rejects_ill_formed :
  decodeURIComponent "%80" = None ∧ decodeURIComponent "%E2%82" = None ∧
  decodeURIComponent "%ED%A0%80" = None ∧ decodeURIComponent "%E2%82%AC" = Some (string_of_bytes [0xE2; 0x82; 0xAC]%Z).
Proof. vm_compute. done. Qed.

(** [trim] removes a no-break space and an ideographic space around "A",
    and keeps the white space inside a string. *)
Lemma js_trim_examples :
  js_trim (string_of_bytes (utf8 [0xA0; 0x41; 0x3000]%Z)) = "A" ∧
  js_trim (String "009"%char (" a b" +:+ String "010"%char "")) = "a b".
Proof. vm_compute. done. Qed.

(** [s.trim()] removes exactly the JavaScript white space at both ends
    of a string, non-ASCII white space included: for a string whose code
    points are [cps], the result is the encoding of the part [t] of [cps]
    left between leading and trailing white space, and [t] neither starts
    nor ends with white space. *)
Lemma js_trim_unicode (cps : list Z) :
  Forall (λ c, scalar_value c = true) cps →
  ∃ p t q, cps = p ++ t ++ q ∧ Forall (.∈ js_white_space) p ∧ Forall (.∈ js_white_space) q ∧
    (∀ c, head t = Some c → c ∉ js_white_space) ∧
    (∀ c, head (reverse t) = Some c → c ∉ js_white_space) ∧
    js_trim (string_of_bytes (utf8 cps)) = string_of_bytes (utf8 t).
Proof.
  intros Hs. destruct (trim_cps_spec js_white_space cps) as (p & q & Hcps & Hp & Hq & Hh & Hl).
  exists p, (trim_cps js_white_space cps), q. split_and!; try done.
  unfold js_trim. rewrite bytes_of_string_of_bytes by by apply utf8_bytes.
  by rewrite trim_bytes_utf8 by (apply js_white_space_scalar || done).
Qed.
