(* ===== verification/JsNumber.v ===== *)
(** * JsNumber: the JavaScript number operations the components rely on

    [Math.random()] is an argument in [[0, 1)]: a rational, since every
    double is one. [Math.floor] is [Qfloor]; [Math.round] rounds half up,
    [floor(x + 1/2)]. A double operation returns the double nearest to
    its exact result: where that rounding matters the model applies a
    rounding function [fl] to the exact result, and the lemmas use only
    the two laws of rounding to nearest stated by [RoundingLaws] (it is
    monotone, and it leaves alone the halves [m/2], [|m| <= 2^53], which
    are doubles). [Math.floor(Math.random() * n)] is kept exact: a power
    of two times a double is exact, and for the array lengths 6 to 8 of
    the components the product of a double below 1 by [n] rounds below
    [n] ((1 - 2^-53)·n is more than half a unit in the last place below
    [n]), so the floor is the same. The lemmas bound the index
    [Math.floor(Math.random() * n)] and the results of
    [Math.round(min + Math.random() * (max - min))] and
    [c + Math.random() * w] under rounding. *)

From Stdlib Require Import QArith Qround Lqa.
From stdpp Require Import base tactics.
From S2P Require Import Prelude.

(** [Math.round(x)] *)
Definition js_round (x : Q) : Z := Qfloor (x + (1#2)).

(** The laws of a rounding to nearest that the bounds use. *)
Record RoundingLaws (fl : Q → Q) : Prop := {
  fl_mono x y : (x <= y)%Q → (fl x <= fl y)%Q;
  fl_half (m : Z) : (Z.abs m <= 2 ^ 53)%Z → (fl (inject_Z m / 2) == inject_Z m / 2)%Q;
}.

(** Rounding to the nearest multiple of [2^-k], half up: for [k = 50]
    the rounding of doubles between 4 and 8. *)
Definition fl_grid (k : positive) (x : Q) : Q :=
  inject_Z (js_round (x * inject_Z (2 ^ Zpos k))) / inject_Z (2 ^ Zpos k).

(** [Math.floor(r * n)] for an array of length [n]. *)
Definition scaled_index (r : Q) (n : nat) : Z := Qfloor (r * inject_Z (Z.of_nat n)).

Local Open Scope Q_scope.

(** [Math.floor] on an interval between two consecutive integers. *)
Lemma Qfloor_between (x : Q) (i : Z) :
  inject_Z i <= x < inject_Z (i + 1) → Qfloor x = i.
Proof.
  intros [Hlo Hhi].
  assert (Qfloor x < i + 1)%Z.
  { rewrite Zlt_Qlt. eapply Qle_lt_trans; [apply Qfloor_le|done]. }
  assert (i < Qfloor x + 1)%Z.
  { rewrite Zlt_Qlt. eapply Qle_lt_trans; [done|apply Qlt_floor]. }
  lia.
Qed.

(** [Math.floor] is bounded by the integers around its argument. *)
Lemma Qfloor_bounds (x : Q) (lo hi : Z) :
  inject_Z lo <= x → x < inject_Z hi → (lo <= Qfloor x < hi)%Z.
Proof.
  intros Hlo Hhi. split.
  - assert (lo < Qfloor x + 1)%Z; [|lia].
    rewrite Zlt_Qlt. eapply Qle_lt_trans; [exact Hlo|apply Qlt_floor].
  - rewrite Zlt_Qlt. eapply Qle_lt_trans; [apply Qfloor_le|done].
Qed.

(** [Math.floor(Math.random() * n)] is an index of a non-empty array. *)
Lemma scaled_index_range (r : Q) (n : nat) :
  0 <= r < 1 → (0 < n)%nat → (0 <= scaled_index r n < Z.of_nat n)%Z.
Proof.
  intros [H0 H1] Hn. unfold scaled_index. apply Qfloor_bounds.
  - change (inject_Z 0) with 0. apply Qmult_le_0_compat; [done|].
    change 0 with (inject_Z 0). rewrite <- Zle_Qle. lia.
  - assert (0 < inject_Z (Z.of_nat n)).
    { change 0 with (inject_Z 0). rewrite <- Zlt_Qlt. lia. }
    rewrite <- (Qmult_1_l (inject_Z (Z.of_nat n))) at 2. by apply Qmult_lt_r.
Qed.

(** [Math.round(min + Math.random() * (max - min))] lies in [[min, max]]. *)
Lemma js_round_range (lo hi : Z) (r : Q) :
  (lo <= hi)%Z → 0 <= r < 1 →
  (lo <= js_round (inject_Z lo + r * inject_Z (hi - lo)) <= hi)%Z.
Proof.
  intros Hle [H0 H1]. unfold js_round.
  assert (hi = lo + (hi - lo))%Z as Ehi by lia.
  remember (hi - lo)%Z as d eqn:Ed. rewrite Ehi.
  assert (0 <= inject_Z d) as Hd.
  { change 0 with (inject_Z 0). rewrite <- Zle_Qle. lia. }
  assert (0 <= r * inject_Z d) by (by apply Qmult_le_0_compat).
  assert (r * inject_Z d <= inject_Z d).
  { rewrite <- (Qmult_1_l (inject_Z d)) at 2. apply Qmult_le_compat_r; lra. }
  assert (lo <= Qfloor (inject_Z lo + r * inject_Z d + (1#2)) < lo + d + 1)%Z; [|lia].
  apply Qfloor_bounds; rewrite ?inject_Z_plus; change (inject_Z 1) with 1; lra.
Qed.

(** [Math.round] of a number between two integers lies between them. *)
Lemma js_round_bounds (lo hi : Z) (x : Q) :
  inject_Z lo <= x <= inject_Z hi → (lo <= js_round x <= hi)%Z.
Proof.
  intros [Hlo Hhi]. unfold js_round.
  assert (lo <= Qfloor (x + (1#2)) < hi + 1)%Z; [|lia].
  apply Qfloor_bounds; rewrite ?inject_Z_plus; change (inject_Z 1) with 1; lra.
Qed.

Section Rounding.
Variable fl : Q → Q.
Hypothesis Hfl : RoundingLaws fl.

(** A rounding that fixes both ends of an interval keeps it. *)
Lemma fl_within (lo hi x : Q) :
  fl lo == lo → fl hi == hi → lo <= x <= hi → lo <= fl x <= hi.
Proof.
  intros Hl Hh [H1 H2]. split.
  - rewrite <- Hl. by apply fl_mono.
  - rewrite <- Hh. by apply fl_mono.
Qed.

Lemma fl_eq (x y : Q) : x == y → fl x == fl y.
Proof. intros E. apply Qle_antisym; apply (fl_mono _ Hfl); rewrite E; apply Qle_refl. Qed.

Lemma fl_int (z : Z) : (Z.abs z <= 2 ^ 52)%Z → fl (inject_Z z) == inject_Z z.
Proof.
  intros Hz. assert (inject_Z z == inject_Z (2 * z) / 2) as E.
  { rewrite inject_Z_mult. field. }
  rewrite (fl_eq _ _ E), E at 1. rewrite (fl_half _ Hfl); [reflexivity|lia].
Qed.

(** [Math.round(min + Math.random() * (max - min))], each operation
    rounded, lies in [[min, max]]. *)
Lemma js_round_fl_range (lo hi : Z) (r : Q) :
  (0 <= lo <= hi)%Z → (hi <= 2 ^ 52)%Z → 0 <= r < 1 →
  (lo <= js_round (fl (inject_Z lo + fl (r * inject_Z (hi - lo)))) <= hi)%Z.
Proof.
  intros Hle Hhi [H0 H1]. apply js_round_bounds.
  assert (0 <= inject_Z (hi - lo)) as Hd by (change 0 with (inject_Z 0); rewrite <- Zle_Qle; lia).
  assert (0 <= fl (r * inject_Z (hi - lo)) <= inject_Z (hi - lo)) as Hm.
  { apply fl_within; [apply (fl_int 0); lia|apply fl_int; lia|]. split; [by apply Qmult_le_0_compat|].
    rewrite <- (Qmult_1_l (inject_Z (hi - lo))) at 2. apply Qmult_le_compat_r; lra. }
  apply fl_within; [apply fl_int; lia|apply fl_int; lia|].
  assert (inject_Z (hi - lo) == inject_Z hi - inject_Z lo) as Ed.
  { unfold Z.sub. rewrite inject_Z_plus, inject_Z_opp. reflexivity. }
  lra.
Qed.

(** A number [m/2] is left alone by the rounding. *)
Lemma fl_half_q (q : Q) (m : Z) : q == inject_Z m / 2 → (Z.abs m <= 2 ^ 53)%Z → fl q == q.
Proof. intros E Hm. rewrite (fl_eq _ _ E), E. by apply (fl_half _ Hfl). Qed.

(** [c + Math.random() * w], each operation rounded, lies in the closed
    interval [[c, c + w]] when [0], [w], [c] and [c + w] are doubles:
    the rounding can reach the upper end. *)
Lemma fl_affine_range (c w r : Q) :
  0 <= c → 0 <= w → fl 0 == 0 → fl w == w → fl c == c → fl (c + w) == c + w →
  0 <= r < 1 → c <= fl (c + fl (r * w)) <= c + w.
Proof.
  intros Hc Hw H0 Hfw Hfc Hfcw [Hr0 Hr1].
  assert (0 <= fl (r * w) <= w) as Hm.
  { apply fl_within; [done|done|]. split; [by apply Qmult_le_0_compat|].
    rewrite <- (Qmult_1_l w) at 2. apply Qmult_le_compat_r; lra. }
  apply fl_within; [done|done|lra].
Qed.
End Rounding.

Lemma js_round_int (z : Z) : js_round (inject_Z z) = z.
Proof. apply Qfloor_between. rewrite inject_Z_plus. change (inject_Z 1) with 1. lra. Qed.

(** Rounding to a grid of step [2^-k] has the laws. *)
Lemma fl_grid_laws (k : positive) : RoundingLaws (fl_grid k).
Proof.
  assert (0 < inject_Z (2 ^ Zpos k)) as Hp.
  { change 0 with (inject_Z 0). rewrite <- Zlt_Qlt. lia. }
  split.
  - intros x y Hxy. unfold fl_grid. apply Qmult_le_compat_r; [|apply Qlt_le_weak, Qinv_lt_0_compat, Hp].
    rewrite <- Zle_Qle. unfold js_round. apply Qfloor_resp_le.
    apply Qplus_le_compat; [apply Qmult_le_compat_r; [done|lra]|apply Qle_refl].
  - intros m _. unfold fl_grid.
    assert (2 ^ Zpos k = 2 * 2 ^ (Zpos k - 1))%Z as E.
    { rewrite <- Z.pow_succ_r by lia. f_equal. lia. }
    assert (inject_Z m / 2 * inject_Z (2 ^ Zpos k) == inject_Z (m * 2 ^ (Zpos k - 1))) as E2.
    { rewrite E, !inject_Z_mult. field. }
    assert (js_round (inject_Z m / 2 * inject_Z (2 ^ Zpos k)) = (m * 2 ^ (Zpos k - 1))%Z) as E3.
    { rewrite <- (js_round_int (m * 2 ^ (Zpos k - 1))). unfold js_round.
      apply Qfloor_comp. rewrite E2. reflexivity. }
    rewrite E3, E, !inject_Z_mult. field.
    unfold Qeq; simpl.
    assert (0 < 2 ^ (Zpos k - 1))%Z by (apply Z.pow_pos_nonneg; lia). lia.
Qed.

#[export] Hint Resolve scaled_index_range js_round_range : portfolio.
