(* ===== verification/SvgPath.v ===== *)
(** * SvgPath: how the browser reads the [d] attribute of an SVG [<path>]

    The components draw their rotating text rings and their small icons
    as SVG paths (IntroPill, ExperienceSequence, ProjectsGallery and
    ContactSection each carry a ring; ContactSection and HeroTiles carry
    hand-written icons). The path data is read by the browser, following
    the path grammar of SVG 1.1 (section 8.3): this file models that
    reading for the commands the components use, moveto, lineto,
    horizontal and vertical lineto, elliptical arc and closepath, each
    absolute or relative. Numbers are decimal literals with an optional
    sign and fraction (no exponent), read as rationals; a flag is one
    character, [0] or [1], so "1111.21" is two flags and the number 11.21.
    A path must start with a moveto; at the first error the browser keeps
    the commands read so far ([PathError]). The parser is a loop with fuel
    one more than the length of the string; [parse_path_total] shows it
    never runs out.

    [path_segments] turns the commands into absolute segments from the
    current point and the start of the subpath, as SVG's rendering rules
    say. [arc_center] is the centre of an elliptical arc by SVG's
    endpoint-to-centre conversion (appendix F.6.5) in the case where it
    is rational: no rotation and radii no larger than half the chord, so
    that the radii are scaled up until the chord is a diameter and the
    centre is the chord's midpoint. Other arcs have a centre involving a
    square root and are left as [None]. *)

From Stdlib Require Import QArith Ascii.
From stdpp Require Import base list strings tactics.
From S2P Require Import Prelude.

(** ** Lexing *)

(** SVG's white space: space, tab, line feed, form feed, carriage return. *)
Definition is_wsp (c : ascii) : bool :=
  let n := Ascii.nat_of_ascii c in
  (n =? 32) || (n =? 9) || (n =? 10) || (n =? 12) || (n =? 13).

Definition digit_of (c : ascii) : option nat :=
  let n := Ascii.nat_of_ascii c in
  if (48 <=? n) && (n <=? 57) then Some (n - 48) else None.

Fixpoint skip_wsp (s : string) : string :=
  match s with
  | String c s' => if is_wsp c then skip_wsp s' else s
  | EmptyString => s
  end.

(** [comma-wsp]: white space with at most one comma in it. *)
Definition skip_comma_wsp (s : string) : string :=
  match skip_wsp s with
  | String c s' => if Ascii.eqb c "," then skip_wsp s' else String c s'
  | EmptyString => EmptyString
  end.

(** The longest run of digits at the start of [s]. *)
Fixpoint digits (s : string) : list nat * string :=
  match s with
  | String c s' =>
      match digit_of c with
      | Some d => let '(ds, r) := digits s' in (d :: ds, r)
      | None => ([], s)
      end
  | EmptyString => ([], s)
  end.

Definition digits_Z (ds : list nat) : Z :=
  foldl (λ acc d, 10 * acc + Z.of_nat d)%Z 0%Z ds.

Definition sign_of (s : string) : bool * string :=
  match s with
  | String c s' =>
      if Ascii.eqb c "-" then (true, s') else if Ascii.eqb c "+" then (false, s') else (false, s)
  | EmptyString => (false, s)
  end.

Definition fraction (s : string) : list nat * string :=
  match s with
  | String c s' => if Ascii.eqb c "." then digits s' else ([], s)
  | EmptyString => ([], s)
  end.

(** [number ::= sign? (digits ("." digits?)? | "." digits)]: the value
    is the digits read as one integer over a power of ten. *)
Definition parse_number (s : string) : option (Q * string) :=
  let '(neg, s1) := sign_of s in
  let '(ip, s2) := digits s1 in
  let '(fp, s3) := fraction s2 in
  match ip, fp with
  | [], [] => None
  | _, _ =>
      let m := digits_Z (ip ++ fp) in
      Some (Qmake (if neg then - m else m)%Z (Pos.of_nat (10 ^ length fp)), s3)
  end.

Definition parse_flag (s : string) : option (bool * string) :=
  match s with
  | String c s' =>
      if Ascii.eqb c "0" then Some (false, s') else if Ascii.eqb c "1" then Some (true, s') else None
  | EmptyString => None
  end.

(** Can an argument group start here? *)
Definition starts_number (s : string) : bool :=
  match s with
  | String c _ =>
      bool_decide (is_Some (digit_of c)) || Ascii.eqb c "-" || Ascii.eqb c "+" || Ascii.eqb c "."
  | EmptyString => false
  end.

(** ** Commands *)

Inductive PathCmd :=
  | MoveTo (rel : bool) (x y : Q)
  | LineTo (rel : bool) (x y : Q)
  | HLineTo (rel : bool) (x : Q)
  | VLineTo (rel : bool) (y : Q)
  | ArcTo (rel : bool) (rx ry angle : Q) (large sweep : bool) (x y : Q)
  | ClosePath.

Inductive CmdKind := KMove | KLine | KHLine | KVLine | KArc | KClose.

(** The command letters, with whether they are relative (lower case). *)
Definition cmd_letter (c : ascii) : option (CmdKind * bool) :=
  if Ascii.eqb c "M" then Some (KMove, false) else if Ascii.eqb c "m" then Some (KMove, true)
  else if Ascii.eqb c "L" then Some (KLine, false) else if Ascii.eqb c "l" then Some (KLine, true)
  else if Ascii.eqb c "H" then Some (KHLine, false) else if Ascii.eqb c "h" then Some (KHLine, true)
  else if Ascii.eqb c "V" then Some (KVLine, false) else if Ascii.eqb c "v" then Some (KVLine, true)
  else if Ascii.eqb c "A" then Some (KArc, false) else if Ascii.eqb c "a" then Some (KArc, true)
  else if Ascii.eqb c "Z" then Some (KClose, false) else if Ascii.eqb c "z" then Some (KClose, true)
  else None.

(** A pair [x comma-wsp? y]. *)
Definition parse_pair (s : string) : option (Q * Q * string) :=
  '(x, s) ← parse_number s;
  '(y, s) ← parse_number (skip_comma_wsp s);
  Some (x, y, s).

(** One argument group of a command. *)
Definition parse_group (k : CmdKind) (rel : bool) (s : string) : option (PathCmd * string) :=
  match k with
  | KMove => '(x, y, s) ← parse_pair s; Some (MoveTo rel x y, s)
  | KLine => '(x, y, s) ← parse_pair s; Some (LineTo rel x y, s)
  | KHLine => '(x, s) ← parse_number s; Some (HLineTo rel x, s)
  | KVLine => '(y, s) ← parse_number s; Some (VLineTo rel y, s)
  | KArc =>
      '(rx, ry, s) ← parse_pair s;
      '(a, s) ← parse_number (skip_comma_wsp s);
      '(large, s) ← parse_flag (skip_comma_wsp s);
      '(sweep, s) ← parse_flag (skip_comma_wsp s);
      '(x, y, s) ← parse_pair (skip_comma_wsp s);
      Some (ArcTo rel rx ry a large sweep x y, s)
  | KClose => None
  end.

(** After a moveto's first pair, further pairs are implicit linetos. *)
Definition next_kind (k : CmdKind) : CmdKind := match k with KMove => KLine | _ => k end.

(** What the browser makes of the attribute: every command up to the end,
    or the commands before the first error and the unread rest. *)
Inductive PathResult :=
  | PathOk (cmds : list PathCmd)
  | PathError (cmds : list PathCmd) (rest : string).

(** The data must start with a moveto. *)
Definition first_not_move (acc : list PathCmd) (kd : CmdKind) : bool :=
  match acc, kd with [], KMove => false | [], _ => true | _, _ => false end.

(** A command letter, or the end of the data; [k] reads on with the
    command whose argument groups may repeat. *)
Definition parse_letter (k : option (CmdKind * bool) → string → list PathCmd → option PathResult)
    (s : string) (acc : list PathCmd) : option PathResult :=
  match s with
  | EmptyString => Some (PathOk (rev acc))
  | String c s' =>
      match cmd_letter c with
      | None => Some (PathError (rev acc) s)
      | Some (kd, rel) =>
          if first_not_move acc kd then Some (PathError [] s)
          else match kd with
               | KClose => k None s' (ClosePath :: acc)
               | _ =>
                   match parse_group kd rel (skip_wsp s') with
                   | Some (c', r) => k (Some (next_kind kd, rel)) r (c' :: acc)
                   | None => Some (PathError (rev acc) s)
                   end
               end
      end
  end.

(** The reading loop. [cur] is the command whose argument groups may
    repeat; [acc] holds the commands read so far, last first. *)
Fixpoint parse_cmds (fuel : nat) (cur : option (CmdKind * bool)) (s : string)
    (acc : list PathCmd) : option PathResult :=
  match fuel with
  | O => None
  | S fuel =>
      let s1 := skip_comma_wsp s in
      match cur with
      | Some (kd, rel) =>
          if starts_number s1 then
            match parse_group kd rel s1 with
            | Some (c, r) => parse_cmds fuel (Some (next_kind kd, rel)) r (c :: acc)
            | None => Some (PathError (rev acc) s1)
            end
          else parse_letter (parse_cmds fuel) (skip_wsp s) acc
      | None => parse_letter (parse_cmds fuel) (skip_wsp s) acc
      end
  end.

Definition parse_path (d : string) : option PathResult :=
  parse_cmds (S (String.length d)) None d [].

Definition result_cmds (r : PathResult) : list PathCmd :=
  match r with PathOk cs => cs | PathError cs _ => cs end.

(** The first command of well-formed path data is a moveto. *)
Definition starts_with_move (cs : list PathCmd) : Prop :=
  match cs with [] => True | MoveTo _ _ _ :: _ => True | _ => False end.

(** ** Absolute segments *)

Local Open Scope Q_scope.

Definition Pt : Type := Q * Q.

Inductive Seg :=
  | SMove (p : Pt)
  | SLine (p q : Pt)
  | SArc (p : Pt) (rx ry angle : Q) (large sweep : bool) (q : Pt)
  | SClose (p q : Pt).

Definition target (rel : bool) (cur : Pt) (x y : Q) : Pt :=
  if rel then (cur.1 + x, cur.2 + y) else (x, y).

(** Each command from the current point [cur]; [start] is where the
    current subpath began, to which a closepath returns. *)
Fixpoint segments_from (cur start : Pt) (cmds : list PathCmd) : list Seg :=
  match cmds with
  | [] => []
  | MoveTo rel x y :: cs => let p := target rel cur x y in SMove p :: segments_from p p cs
  | LineTo rel x y :: cs => let p := target rel cur x y in SLine cur p :: segments_from p start cs
  | HLineTo rel x :: cs =>
      let p := (if rel then cur.1 + x else x, cur.2) in SLine cur p :: segments_from p start cs
  | VLineTo rel y :: cs =>
      let p := (cur.1, if rel then cur.2 + y else y) in SLine cur p :: segments_from p start cs
  | ArcTo rel rx ry a l sw x y :: cs =>
      let p := target rel cur x y in SArc cur rx ry a l sw p :: segments_from p start cs
  | ClosePath :: cs => SClose cur start :: segments_from start start cs
  end.

(** A path starts at the origin. *)
Definition path_segments (cmds : list PathCmd) : list Seg := segments_from (0, 0) (0, 0) cmds.

Definition seg_end (sg : Seg) : Pt :=
  match sg with SMove p => p | SLine _ q | SArc _ _ _ _ _ _ q | SClose _ q => q end.

(** The points a segment is drawn between. *)
Definition seg_points (sg : Seg) : list Pt :=
  match sg with SMove p => [p] | SLine p q | SArc p _ _ _ _ _ q | SClose p q => [p; q] end.

Definition midpoint (p q : Pt) : Pt := ((p.1 + q.1) / 2, (p.2 + q.2) / 2).

Definition dist2 (p q : Pt) : Q := (p.1 - q.1) * (p.1 - q.1) + (p.2 - q.2) * (p.2 - q.2).

(** [Λ] of F.6.6: above 1, the radii are too small for the chord. *)
Definition arc_lambda (p q : Pt) (rx ry : Q) : Q :=
  let x1 := (p.1 - q.1) / 2 in let y1 := (p.2 - q.2) / 2 in
  x1 * x1 / (rx * rx) + y1 * y1 / (ry * ry).

(** The centre, where F.6.5 gives a rational one: no rotation, non-zero
    radii and [Λ ≥ 1], when the (scaled) chord is a diameter. *)
Definition arc_center (sg : Seg) : option Pt :=
  match sg with
  | SArc p rx ry a _ _ q =>
      if Qeq_bool a 0 && negb (Qeq_bool rx 0) && negb (Qeq_bool ry 0)
         && Qle_bool 1 (arc_lambda p q rx ry)
      then Some (midpoint p q) else None
  | _ => None
  end.

(** The viewport a [viewBox="x y w h"] maps onto the element's box. *)
Record ViewBox := mkViewBox { vb_x : Q; vb_y : Q; vb_w : Q; vb_h : Q }.

Definition vb_center (vb : ViewBox) : Pt := (vb_x vb + vb_w vb / 2, vb_y vb + vb_h vb / 2).

Definition in_viewbox (vb : ViewBox) (p : Pt) : bool :=
  Qle_bool (vb_x vb) p.1 && Qle_bool p.1 (vb_x vb + vb_w vb) &&
  Qle_bool (vb_y vb) p.2 && Qle_bool p.2 (vb_y vb + vb_h vb).

Definition pt_eq (p q : Pt) : Prop := p.1 == q.1 ∧ p.2 == q.2.

Definition is_move (sg : Seg) : Prop := ∃ p, sg = SMove p.

(** [sg] is half of the circle of centre [c] and radius [rad], drawn in
    the direction [sweep]: an unrotated circular arc whose radii exactly
    fit its chord, so that SVG puts its centre at the chord's midpoint. *)
Definition half_circle (c : Pt) (rad : Q) (sweep : bool) (sg : Seg) : Prop :=
  ∃ p q large c', sg = SArc p rad rad 0 large sweep q ∧ arc_center sg = Some c' ∧
    pt_eq c' c ∧ arc_lambda p q rad rad == 1.

(** The segments draw the circle of centre [c] and radius [rad] once:
    after some moves, two half circles in the same direction, the second
    ending where the first began. *)
Definition draws_circle (c : Pt) (rad : Q) (segs : list Seg) : Prop :=
  ∃ ms a s1 s2 sweep, segs = ms ++ [SMove a; s1; s2] ∧ Forall is_move ms ∧
    half_circle c rad sweep s1 ∧ half_circle c rad sweep s2 ∧ pt_eq (seg_end s2) a.

(** The disc of centre [c] and radius [rad] lies in the viewBox. *)
Definition disc_in_viewbox (vb : ViewBox) (c : Pt) (rad : Q) : bool :=
  in_viewbox vb (c.1 - rad, c.2) && in_viewbox vb (c.1 + rad, c.2) &&
  in_viewbox vb (c.1, c.2 - rad) && in_viewbox vb (c.1, c.2 + rad).

(** ** Lemmas *)

Local Close Scope Q_scope.

(** Each reader returns a suffix of its input; those that succeed on an
    argument consume at least one character. *)
Lemma skip_wsp_len s : String.length (skip_wsp s) ≤ String.length s.
Proof. induction s as [|c s IH]; simpl; [done|]. destruct (is_wsp c); simpl; lia. Qed.

Lemma skip_comma_wsp_len s : String.length (skip_comma_wsp s) ≤ String.length s.
Proof.
  unfold skip_comma_wsp. pose proof (skip_wsp_len s).
  destruct (skip_wsp s) as [|c s'] eqn:E; simpl in *; [lia|].
  destruct (Ascii.eqb c ","); simpl; [pose proof (skip_wsp_len s')|]; lia.
Qed.

Lemma digits_len s : String.length (digits s).2 + length (digits s).1 = String.length s.
Proof.
  induction s as [|c s IH]; simpl; [done|].
  destruct (digit_of c); [|done]. destruct (digits s) eqn:E; simpl in *; lia.
Qed.

Lemma sign_of_len s : String.length (sign_of s).2 ≤ String.length s.
Proof.
  destruct s as [|c s]; simpl; [done|].
  destruct (Ascii.eqb c "-"), (Ascii.eqb c "+"); simpl; lia.
Qed.

Lemma fraction_len s : String.length (fraction s).2 + length (fraction s).1 ≤ String.length s.
Proof.
  destruct s as [|c s]; simpl; [done|].
  destruct (Ascii.eqb c "."); simpl; [pose proof (digits_len s)|]; lia.
Qed.

Lemma parse_number_len s q r : parse_number s = Some (q, r) → String.length r < String.length s.
Proof.
  unfold parse_number. intros H.
  pose proof (sign_of_len s). destruct (sign_of s) as [neg s1].
  pose proof (digits_len s1). destruct (digits s1) as [ip s2].
  pose proof (fraction_len s2). destruct (fraction s2) as [fp s3]. simpl in *.
  destruct ip, fp; simplify_eq/=; lia.
Qed.

Lemma parse_flag_len s b r : parse_flag s = Some (b, r) → String.length r < String.length s.
Proof.
  destruct s as [|c s]; simpl; [done|].
  destruct (Ascii.eqb c "0"), (Ascii.eqb c "1"); intros; simplify_eq/=; lia.
Qed.

Lemma parse_number_len_scw s q r :
  parse_number (skip_comma_wsp s) = Some (q, r) → String.length r < String.length s.
Proof. intros H%parse_number_len. pose proof (skip_comma_wsp_len s). lia. Qed.

Lemma parse_flag_len_scw s b r :
  parse_flag (skip_comma_wsp s) = Some (b, r) → String.length r < String.length s.
Proof. intros H%parse_flag_len. pose proof (skip_comma_wsp_len s). lia. Qed.

(** Invert a chain of option binds in [H], one equation per step. *)
Ltac bind_inv H :=
  repeat match type of H with
  | context [mbind _ ?m] =>
      let E := fresh "E" in destruct m as [?p|] eqn:E; simpl in H; [|discriminate];
      repeat match goal with pr : (_ * _)%type |- _ => destruct pr end; simpl in H
  end.

(** Turn every successful read in the context into a length fact. *)
Ltac len_facts :=
  repeat match goal with
  | H : parse_number (skip_comma_wsp _) = Some _ |- _ => apply parse_number_len_scw in H
  | H : parse_number _ = Some _ |- _ => apply parse_number_len in H
  | H : parse_flag (skip_comma_wsp _) = Some _ |- _ => apply parse_flag_len_scw in H
  | H : parse_flag _ = Some _ |- _ => apply parse_flag_len in H
  end.

Lemma parse_pair_len s x y r : parse_pair s = Some (x, y, r) → String.length r < String.length s.
Proof. unfold parse_pair. intros H. bind_inv H. simplify_eq. len_facts. lia. Qed.

Lemma parse_pair_len_scw s x y r :
  parse_pair (skip_comma_wsp s) = Some (x, y, r) → String.length r < String.length s.
Proof. intros H%parse_pair_len. pose proof (skip_comma_wsp_len s). lia. Qed.

Lemma parse_group_len k rel s c r :
  parse_group k rel s = Some (c, r) → String.length r < String.length s.
Proof.
  destruct k; simpl; intros H; bind_inv H; simplify_eq; len_facts;
    repeat match goal with
    | H : parse_pair (skip_comma_wsp _) = Some _ |- _ => apply parse_pair_len_scw in H
    | H : parse_pair _ = Some _ |- _ => apply parse_pair_len in H
    end; lia.
Qed.

(** With fuel above the length of the data, the loop finishes: every
    round reads a command letter or an argument group. *)
Lemma parse_cmds_total fuel cur s acc :
  String.length s < fuel → is_Some (parse_cmds fuel cur s acc).
Proof.
  revert cur s acc. induction fuel as [|fuel IH]; intros cur s acc Hlt; [lia|]. simpl.
  assert (Hletter : ∀ acc', is_Some (parse_letter (parse_cmds fuel) (skip_wsp s) acc')).
  { intros acc'. pose proof (skip_wsp_len s). unfold parse_letter.
    destruct (skip_wsp s) as [|c s'] eqn:E; [by eexists|]. simpl in *.
    destruct (cmd_letter c) as [[kd rel]|]; [|by eexists].
    destruct (first_not_move acc' kd); [by eexists|].
    destruct kd; try (apply IH; lia);
      (destruct (parse_group _ rel (skip_wsp s')) as [[c' r]|] eqn:G; [|by eexists]);
      apply IH; apply parse_group_len in G; pose proof (skip_wsp_len s'); lia. }
  destruct cur as [[kd rel]|]; [|done].
  destruct (starts_number _); [|done].
  destruct (parse_group kd rel (skip_comma_wsp s)) as [[c r]|] eqn:G; [|by eexists].
  apply IH. apply parse_group_len in G. pose proof (skip_comma_wsp_len s). lia.
Qed.

Lemma parse_group_move rel s c r :
  parse_group KMove rel s = Some (c, r) → starts_with_move [c].
Proof. simpl. intros H. bind_inv H. by simplify_eq. Qed.

Lemma starts_with_move_app l c : l ≠ [] → starts_with_move l → starts_with_move (l ++ [c]).
Proof. by destruct l. Qed.

(** Adding a command after the first keeps the first. *)
Lemma starts_with_move_cons acc c :
  acc ≠ [] → starts_with_move (rev acc) → starts_with_move (rev (c :: acc)).
Proof.
  destruct acc as [|a acc]; intros Hne Hst; [done|].
  cbn [rev]. apply starts_with_move_app; [|done].
  intros E%(f_equal length). rewrite length_app in E. simpl in E. lia.
Qed.

(** The first command read passes the moveto check. *)
Lemma starts_with_move_push acc kd c :
  first_not_move acc kd = false → (kd = KMove → starts_with_move [c]) →
  starts_with_move (rev acc) → starts_with_move (rev (c :: acc)).
Proof.
  destruct acc as [|a acc]; intros F Hc Hst.
  - destruct kd; try discriminate. by apply Hc.
  - by apply starts_with_move_cons.
Qed.

(** The reading loop only ever starts the data with a moveto. *)
Lemma parse_cmds_moves fuel cur s acc r :
  parse_cmds fuel cur s acc = Some r → (acc = [] → cur = None) →
  starts_with_move (rev acc) → starts_with_move (result_cmds r).
Proof.
  revert cur s acc. induction fuel as [|fuel IH]; intros cur s acc H Hcur Hst; [done|].
  simpl in H.
  assert (Hl : ∀ s', parse_letter (parse_cmds fuel) s' acc = Some r →
                     starts_with_move (result_cmds r)).
  { intros s' Hs. unfold parse_letter in Hs. destruct s' as [|c s'']; [by simplify_eq/=|].
    destruct (cmd_letter c) as [[kd rel]|]; [|by simplify_eq/=].
    destruct (first_not_move acc kd) eqn:F; [by simplify_eq/=|].
    destruct kd;
      first
        [ eapply IH; [exact Hs|done|];
          eapply starts_with_move_push; [exact F|discriminate|exact Hst]
        | destruct (parse_group _ rel (skip_wsp s'')) as [[c' r']|] eqn:G; [|by simplify_eq/=];
          eapply IH; [exact Hs|done|];
          eapply starts_with_move_push; [exact F| |exact Hst];
          intros E; (discriminate E || (eapply parse_group_move; exact G)) ]. }
  destruct cur as [[kd rel]|]; [|exact (Hl _ H)].
  destruct (starts_number _); [|exact (Hl _ H)].
  destruct (parse_group kd rel _) as [[c r']|] eqn:G; [|by simplify_eq/=].
  eapply IH; [exact H|done|]. apply starts_with_move_cons; [|done].
  intros ->. by specialize (Hcur eq_refl).
Qed.

(** Reading any attribute finishes: the fuel is enough. *)
Lemma parse_path_total d : is_Some (parse_path d).
Proof. apply parse_cmds_total. simpl. lia. Qed.

(** What the browser keeps of any attribute, all of it or the commands
    before the first error, begins with a moveto. *)
Lemma parse_path_moveto_first d r : parse_path d = Some r → starts_with_move (result_cmds r).
Proof. intros H. by eapply parse_cmds_moves. Qed.

Local Open Scope Q_scope.

(** SVG's centre is equidistant from the two ends: an arc whose radii
    just fit its chord ([Λ = 1]) is half a circle of that radius. *)
Lemma arc_center_radius p q r l sw c :
  arc_center (SArc p r r 0 l sw q) = Some c → arc_lambda p q r r == 1 →
  dist2 c p == r * r ∧ dist2 c q == r * r.
Proof.
  unfold arc_center. intros H Hl.
  destruct (Qeq_bool 0 0 && _ && _ && _) eqn:E; [|done]. simplify_eq.
  rewrite !andb_true_iff in E. destruct E as [[[_ E] _] _]. apply negb_true_iff, Qeq_bool_neq in E.
  destruct p as [a b], q as [c d]. unfold dist2, midpoint, arc_lambda in *; simpl in *.
  split.
  - transitivity (((a - c) / 2 * ((a - c) / 2) / (r * r) + (b - d) / 2 * ((b - d) / 2) / (r * r))
                  * (r * r)); [field; exact E|]. rewrite Hl. ring.
  - transitivity (((a - c) / 2 * ((a - c) / 2) / (r * r) + (b - d) / 2 * ((b - d) / 2) / (r * r))
                  * (r * r)); [field; exact E|]. rewrite Hl. ring.
Qed.
