(* ===== verification/Rings.v ===== *)
(** * Rings: the rotating text rings and the hand-drawn icons

    Four sections end their heading with a ring of text turning around
    an arrow: IntroPill ("WHAT I DO"), ExperienceSequence ("EXPERIENCE"),
    ProjectsGallery ("PROJECTS") and ContactSection ("WHERE TO FIND ME").
    Each is a [motion.svg] with [viewBox="0 0 120 120"] animated to
    [rotate: 360] forever, a [<path>] with an [id] in its [<defs>], and
    one or more [<textPath>]s that refer to it by [href]. The four copies
    share the path data "M60,60 m-48,0 a48,48 0 1,1 96,0 a48,48 0 1,1
    -96,0"; the intro ring also sets [pathLength="360"] and
    [textLength="360"]. The record [Ring] holds what the code writes;
    [SvgPath] reads the path data as the browser does.

    The hand-drawn icons are the contact ring's down arrow and the send
    button's paper plane (ContactSection), and the hero tiles' arrow and
    moon (HeroTiles); each is an [SvgGraphic]: a viewBox and its paths.

    Text children of JSX elements follow JSX's white-space rule: the
    spaces around each line break are dropped, empty lines are dropped,
    and the remaining lines are joined by one space ([jsx_text]). *)

From Stdlib Require Import QArith Qreals Reals Ratan Lra Ascii.
From stdpp Require Import base list strings tactics.
From S2P Require Import Prelude JsString SvgPath.

Local Open Scope Q_scope.

(** ** Data *)

(** JSX's white-space rule for a text child spread over several source
    lines (Babel's [cleanJSXElementLiteralChild]): tabs become spaces,
    spaces are dropped at the start of every line but the first and at
    the end of every line but the last, empty lines are dropped and the
    others joined by one space. *)
Fixpoint drop_jsx_spaces (l : list Ascii.ascii) : list Ascii.ascii :=
  match l with
  | [] => []
  | c :: l' => if Ascii.ascii_dec c " "%char then drop_jsx_spaces l' else l
  end.

Definition jsx_line (first last : bool) (s : string) : string :=
  let l := (λ c, if Ascii.ascii_dec c "009"%char then " "%char else c) <$> String.list_ascii_of_string s in
  let l := if first then l else drop_jsx_spaces l in
  let l := if last then l else reverse (drop_jsx_spaces (reverse l)) in
  String.string_of_list_ascii l.

(** The lines run from the end of the opening tag to the start of the
    closing one, so the first and the last are the white space around
    the text; the others are written here without their indentation,
    which the rule drops. *)
Definition jsx_text (lines : list string) : string :=
  String.concat " " (filter (λ l, l ≠ "")
    (imap (λ i l, jsx_line (bool_decide (i = 0%nat)) (bool_decide (S i = length lines)) l) lines)).

(** A [<textPath>]: its [href], its [startOffset] as written, its
    [textLength] when set, and its text. *)
Record TextPathEl := mkTextPath {
  txp_href : string; txp_startOffset : string; txp_textLength : option Q; txp_text : string;
}.

(** The icon in the middle of a ring. *)
Inductive RingIcon := HeroArrowDown | DrawnArrow.

Record Ring := mkRing {
  rg_box_px : Z * Z;          (** the square's side, below and from [md] *)
  rg_viewBox : ViewBox;
  rg_rotate : Q;              (** [animate={{ rotate: 360 }}] *)
  rg_duration : Q;            (** seconds per turn, [repeat: Infinity], linear *)
  rg_color : string;
  rg_path_id : string;
  rg_d : string;
  rg_pathLength : option Q;
  rg_text : list TextPathEl;
  rg_icon : RingIcon;
}.

Definition ring_viewBox : ViewBox := mkViewBox 0 0 120 120.

Definition ring_d : string := "M60,60 m-48,0 a48,48 0 1,1 96,0 a48,48 0 1,1 -96,0".

(** IntroPill.tsx: the "WHAT I DO" ring. *)
Definition intro_ring : Ring :=
  mkRing (120, 150)%Z ring_viewBox 360 16 "var(--accent)" "ringPath" ring_d (Some 360)
    [mkTextPath "#ringPath" "0" (Some 360)
       (jsx_text [""; "WHAT I DO • WHAT I DO • WHAT I DO • WHAT I DO • WHAT I";
                  "DO • WHAT I DO •"; ""])]
    HeroArrowDown.

(** ExperienceSequence.tsx: three copies of "EXPERIENCE •" a third of
    the ring apart. *)
Definition experience_ring : Ring :=
  mkRing (110, 140)%Z ring_viewBox 360 18 "var(--accent-cyan)" "expPath" ring_d None
    [mkTextPath "#expPath" "0%" None "EXPERIENCE •";
     mkTextPath "#expPath" "33.33%" None "EXPERIENCE •";
     mkTextPath "#expPath" "66.66%" None "EXPERIENCE •"]
    HeroArrowDown.

(** ProjectsGallery.tsx: the "PROJECTS" ring. *)
Definition projects_ring : Ring :=
  mkRing (110, 140)%Z ring_viewBox 360 18 "var(--accent-cyan)" "projPath" ring_d None
    [mkTextPath "#projPath" "0" None "PROJECTS • PROJECTS • PROJECTS •"]
    HeroArrowDown.

(** ContactSection.tsx: the "WHERE TO FIND ME" ring, around a drawn arrow. *)
Definition contact_ring : Ring :=
  mkRing (110, 140)%Z ring_viewBox 360 18 "var(--pill-banana)" "contactPath" ring_d None
    [mkTextPath "#contactPath" "0" None
       "WHERE TO FIND ME • WHERE TO FIND ME • WHERE TO FIND ME •"]
    DrawnArrow.

Definition rings : list Ring := [intro_ring; experience_ring; projects_ring; contact_ring].

(** An [<svg>] of icon size: its viewBox and the [d] of each path. *)
Record SvgGraphic := mkSvg { sv_viewBox : ViewBox; sv_paths : list string }.

Definition icon_viewBox : ViewBox := mkViewBox 0 0 24 24.

(** ContactSection.tsx: the arrow in the middle of the contact ring. *)
Definition contact_arrow : SvgGraphic := mkSvg icon_viewBox ["M12 5v14m0 0l-6-6m6 6l6-6"].

(** ContactSection.tsx: the paper plane of the send button. *)
Definition send_icon : SvgGraphic :=
  mkSvg icon_viewBox ["M22 2L11 13"; "M22 2l-7 20-4-9-9-4 20-7z"].

(** HeroTiles.tsx: [ArrowIcon] and [MoonIcon]. *)
Definition tile_arrow_icon : SvgGraphic := mkSvg icon_viewBox ["M7 17L17 7M17 7H9M17 7V15"].
Definition tile_moon_icon : SvgGraphic :=
  mkSvg icon_viewBox ["M21 12.79A9 9 0 1111.21 3 7 7 0 0021 12.79z"].

Definition ring_graphic (r : Ring) : SvgGraphic := mkSvg (rg_viewBox r) [rg_d r].

(** Every SVG the components draw by hand. *)
Definition graphics : list SvgGraphic :=
  (ring_graphic <$> rings) ++ [contact_arrow; send_icon; tile_arrow_icon; tile_moon_icon].

(** A [startOffset]: a length in user units or a percentage of the path. *)
Inductive SvgLength := LUser (q : Q) | LPct (q : Q).

Definition parse_length (s : string) : option SvgLength :=
  '(q, r) ← parse_number s;
  if String.eqb r "" then Some (LUser q) else if String.eqb r "%" then Some (LPct q) else None.

(** The gaps between consecutive [startOffset] percentages around the
    ring, the last one wrapping to 100%. *)
Fixpoint pct_gaps (first : Q) (ps : list Q) : list Q :=
  match ps with
  | [] => []
  | [p] => [100 + first - p]
  | p :: (q :: _) as ps' => (q - p) :: pct_gaps first ps'
  end.

Definition offset_pcts (r : Ring) : option (list Q) :=
  mapM (λ t, match parse_length (txp_startOffset t) with Some (LPct q) => Some q | _ => None end)
    (rg_text r).

(** Each path of a graphic is read without error and stays in the
    viewBox: the check behind [graphics_wellformed]. *)
Definition path_in_box (vb : ViewBox) (d : string) : bool :=
  match parse_path d with
  | Some (PathOk cmds) => forallb (λ sg, forallb (in_viewbox vb) (seg_points sg)) (path_segments cmds)
  | _ => false
  end.

Definition graphic_ok (g : SvgGraphic) : bool := forallb (path_in_box (sv_viewBox g)) (sv_paths g).

(** The length in user units of the circle of radius [rad]: the length
    of a ring's path, which [textLength] is measured against. *)
Definition circle_length (rad : Q) : R := (2 * PI * Q2R rad)%R.

(** ** Lemmas *)

(** Close a [half_circle] goal on concrete segments by computation. *)
Ltac solve_half_circle :=
  eexists _, _, _, _; split; [reflexivity|]; split; [reflexivity|];
  split; [split; vm_compute; reflexivity|vm_compute; reflexivity].

Lemma ring_d_circle :
  ∃ cmds, parse_path ring_d = Some (PathOk cmds) ∧
    draws_circle (vb_center ring_viewBox) 48 (path_segments cmds).
Proof.
  eexists; split; [vm_compute; reflexivity|].
  eexists [_], _, _, _, true; split; [vm_compute; reflexivity|].
  split; [repeat constructor; eexists; reflexivity|]. split; [solve_half_circle|]. split; [solve_half_circle|].
  split; vm_compute; reflexivity.
Qed.

Lemma path_in_box_sound vb d :
  path_in_box vb d = true →
  ∃ cmds, parse_path d = Some (PathOk cmds) ∧ starts_with_move cmds ∧
    Forall (λ sg, Forall (λ p, in_viewbox vb p = true) (seg_points sg)) (path_segments cmds).
Proof.
  unfold path_in_box. destruct (parse_path d) as [[cmds|]|] eqn:E; [|done|done]. intros H.
  exists cmds. split_and!; [done| |].
  - by apply (parse_path_moveto_first d (PathOk cmds)).
  - apply Forall_forall. intros sg Hsg.
    rewrite forallb_forall in H. specialize (H sg Hsg).
    rewrite forallb_forall in H.
    apply Forall_forall. intros p Hp. exact (H p Hp).
Qed.

Lemma rings_share_path r : r ∈ rings →
  rg_d r = ring_d ∧ rg_viewBox r = ring_viewBox ∧ rg_rotate r = 360.
Proof. intros Hr. unfold rings in Hr. rewrite !elem_of_cons, elem_of_nil in Hr. destruct_or! Hr; subst; done. Qed.

(** Two terms of Leibniz's series on each side. *)
Lemma PI_bounds : (2.89 < PI < 3.47)%R.
Proof.
  destruct (PI_ineq 1) as [Hlo Hhi].
  unfold tg_alt, PI_tg in Hlo, Hhi. simpl in Hlo, Hhi. lra.
Qed.

(** The only circle the ring path draws has radius 48. *)
Lemma ring_d_radius cmds c rad :
  parse_path ring_d = Some (PathOk cmds) → draws_circle c rad (path_segments cmds) → rad = 48.
Proof.
  intros Hp (ms & a & s1 & s2 & sw & Hs & _ & (p & q & l & c' & -> & _) & _).
  vm_compute in Hp. injection Hp as <-. vm_compute in Hs.
  assert (length ms = 1)%nat as Hl.
  { apply (f_equal length) in Hs. rewrite length_app in Hs. simpl in Hs. lia. }
  destruct ms as [|m1 [|? ?]]; simpl in Hl; try lia.
  injection Hs as _ _ _ E; done.
Qed.

(** ** Properties *)

(** Each of the four rings draws one circle, of radius 48 about
    the centre (60, 60) of its 120 by 120 viewBox: the browser reads its
    path data without error into a moveto and two arcs in the same
    direction whose radii exactly fit their chord, so that each is half
    the circle, the second ending where the first began. The disc stays
    inside the viewBox, and the centre of the rotation [rotate: 360]
    applies to the svg is the circle's centre, so the turning ring keeps
    its place. The three "EXPERIENCE •" labels start at 0%, 33.33% and
    66.66% of the path: every gap around the ring is a third of it to
    within 0.01%. *)
Lemma ring_is_centered_circle :
  (∀ r, r ∈ rings →
    ∃ cmds, parse_path (rg_d r) = Some (PathOk cmds) ∧
      draws_circle (vb_center (rg_viewBox r)) 48 (path_segments cmds) ∧
      disc_in_viewbox (rg_viewBox r) (vb_center (rg_viewBox r)) 48 = true ∧
      rg_rotate r = 360) ∧
  (∃ ps, offset_pcts experience_ring = Some ps ∧ length ps = 3%nat ∧ head ps = Some 0 ∧
     Forall (λ g, 100 / 3 - 1 / 100 < g < 100 / 3 + 1 / 100) (pct_gaps 0 ps)).
Proof.
  split.
  - intros r (-> & -> & ->)%rings_share_path. destruct ring_d_circle as (cmds & H1 & H2).
    exists cmds. split_and!; [done|done|by vm_compute|done].
  - eexists; split; [vm_compute; reflexivity|]. split_and!; [done|done|].
    repeat constructor; vm_compute; reflexivity.
Qed.

(** Every path the components draw by hand (the four rings, the
    contact arrow, the paper plane of the send button, the hero tiles'
    arrow and moon) is well-formed path data: the browser reads all of
    it without error, it begins with a moveto, and every point it is
    drawn through lies inside its viewBox. *)
Lemma graphics_wellformed :
  Forall (λ g, Forall (λ d,
    ∃ cmds, parse_path d = Some (PathOk cmds) ∧ starts_with_move cmds ∧
      Forall (λ sg, Forall (λ p, in_viewbox (sv_viewBox g) p = true) (seg_points sg))
        (path_segments cmds)) (sv_paths g)) graphics.
Proof.
  assert (H : forallb graphic_ok graphics = true) by (vm_compute; reflexivity).
  rewrite forallb_forall in H. apply Forall_forall. intros g Hg.
  specialize (H g Hg). unfold graphic_ok in H. rewrite forallb_forall in H.
  apply Forall_forall. intros d Hd. by apply path_in_box_sound, H.
Qed.

(** The intro ring sets [pathLength="360"] and gives its text
    [textLength="360"], the comment saying this makes the text wrap the
    circle exactly. [pathLength] only rescales distances along the path
    such as [startOffset]; [textLength] is a length in user units, and
    whatever circle the path is read as, its circumference in user units
    is 2π·48, between 277 and 334: the text is longer than the ring. *)
Lemma intro_text_overruns_ring cmds c rad :
  parse_path (rg_d intro_ring) = Some (PathOk cmds) →
  draws_circle c rad (path_segments cmds) →
  rg_pathLength intro_ring = Some 360 ∧
  Forall (λ t, txp_textLength t = Some 360) (rg_text intro_ring) ∧
  (277 < circle_length rad < 334)%R ∧ (circle_length rad < Q2R 360)%R.
Proof.
  intros Hp Hc. pose proof (ring_d_radius cmds c rad Hp Hc) as ->.
  split_and!; [done|by repeat constructor| | |];
    unfold circle_length, Q2R; simpl; pose proof PI_bounds; lra.
Qed.

