(* ===== verification/Timers.v ===== *)
(** * Timers: the browser's timer queue ([window.setTimeout] / [clearTimeout])

    The event loop the components run in: a clock in milliseconds, the
    list of pending timers in the order they were scheduled, and the last
    handle returned. [setTimeout] appends a timer due at [now + delay] and
    returns a fresh positive handle; [clearTimeout] drops the timer with
    that handle (a handle that already fired or was never issued is
    ignored, as in the browser); [pop_due lim] fires the pending timer
    with the smallest due time, the earliest scheduled among equal due
    times, provided it is due by [lim], and moves the clock to its due
    time. The queue is generic in the callback type: each component
    supplies its own closures as an inductive type. *)

From stdpp Require Import base list sets numbers.
From S2P Require Import Prelude.

Local Open Scope Z_scope.

Section Timers.
Context {C : Type}.

Record Timer := mkTimer {
  tm_handle : nat;
  tm_due : Z;
  tm_cb : C;
}.

Record Timers := mkTimers {
  tq_now : Z;
  tq_pending : list Timer;
  tq_last : nat;
}.

Definition timers_init (now : Z) : Timers := mkTimers now [] 0.

(** [const t = window.setTimeout(cb, delay)] *)
Definition setTimeout (cb : C) (delay : Z) (q : Timers) : nat * Timers :=
  let h := S (tq_last q) in
  (h, mkTimers (tq_now q) (tq_pending q ++ [mkTimer h (tq_now q + delay) cb]) h).

(** [window.clearTimeout(h)] *)
Definition clearTimeout (h : nat) (q : Timers) : Timers :=
  mkTimers (tq_now q) (filter (λ t, tm_handle t ≠ h) (tq_pending q)) (tq_last q).

(** The smallest due time of the pending timers. *)
Definition min_due (l : list Timer) : option Z :=
  foldr (λ t acc, match acc with
                  | Some m => Some (Z.min (tm_due t) m)
                  | None => Some (tm_due t)
                  end) None l.

(** The first-scheduled timer among those with the smallest due time. *)
Definition earliest (l : list Timer) : option (nat * Timer) :=
  match min_due l with
  | Some m => list_find (λ t, tm_due t = m) l
  | None => None
  end.

(** Fire the next timer if it is due by [lim]: remove it, advance the
    clock to its due time, and hand its callback back to the caller. *)
Definition pop_due (lim : Z) (q : Timers) : option (Timer * Timers) :=
  match earliest (tq_pending q) with
  | Some (i, t) =>
      if decide (tm_due t ≤ lim)
      then Some (t, mkTimers (tm_due t) (delete i (tq_pending q)) (tq_last q))
      else None
  | None => None
  end.

(** Move the clock forward to [lim] once nothing more is due. *)
Definition set_now (lim : Z) (q : Timers) : Timers :=
  mkTimers (Z.max (tq_now q) lim) (tq_pending q) (tq_last q).

(** ** Lemmas *)

Lemma min_due_spec (l : list Timer) :
  match min_due l with
  | Some m => (∃ t, t ∈ l ∧ tm_due t = m) ∧ ∀ t, t ∈ l → m ≤ tm_due t
  | None => l = []
  end.
Proof.
  induction l as [|t l IH]; simpl; [done|].
  destruct (min_due l) as [m|] eqn:E; simpl.
  - destruct IH as [(t' & Hin & Hd) Hle]. split.
    + destruct (Z.min_spec (tm_due t) m) as [[_ ->]|[_ ->]].
      * exists t. set_solver.
      * exists t'. set_solver.
    + intros u Hu. apply elem_of_cons in Hu as [->|Hu]; [lia|].
      specialize (Hle u Hu). lia.
  - subst. split; [exists t; set_solver|]. intros u Hu.
    apply elem_of_cons in Hu as [->|Hu]; [lia|set_solver].
Qed.

Lemma earliest_Some (l : list Timer) i t :
  earliest l = Some (i, t) →
  l !! i = Some t ∧ (∀ u, u ∈ l → tm_due t ≤ tm_due u) ∧
  (∀ j u, l !! j = Some u → (j < i)%nat → tm_due t < tm_due u).
Proof.
  unfold earliest. pose proof (min_due_spec l) as Hm.
  destruct (min_due l) as [m|]; [|done].
  intros (Hl & Hd & Hfirst)%list_find_Some. destruct Hm as [_ Hle].
  split; [done|]. split.
  - intros u Hu. rewrite Hd. by apply Hle.
  - intros j u Hj Hji. specialize (Hfirst j u Hj Hji).
    assert (m ≤ tm_due u) by (apply Hle; by eapply list_elem_of_lookup_2).
    lia.
Qed.

Lemma earliest_None (l : list Timer) : earliest l = None → l = [].
Proof.
  unfold earliest. pose proof (min_due_spec l) as Hm.
  destruct (min_due l) as [m|]; [|done].
  intros Hf. destruct Hm as [(t & Hin & Hd) _].
  apply list_find_None in Hf. rewrite list.Forall_forall in Hf.
  by destruct (Hf t Hin).
Qed.

Lemma pop_due_Some lim q t q' :
  pop_due lim q = Some (t, q') →
  tq_pending q ≡ₚ t :: tq_pending q' ∧ tq_now q' = tm_due t ∧
  tm_due t ≤ lim ∧ tq_last q' = tq_last q ∧
  (∀ u, u ∈ tq_pending q → tm_due t ≤ tm_due u).
Proof.
  unfold pop_due. destruct (earliest _) as [[i u]|] eqn:E; [|done].
  apply earliest_Some in E as (Hl & Hmin & _).
  case_decide; [|done]. intros [= <- <-]; simpl.
  repeat split; [by apply delete_Permutation|done|done].
Qed.

Lemma pop_due_None lim q :
  pop_due lim q = None → ∀ u, u ∈ tq_pending q → lim < tm_due u.
Proof.
  unfold pop_due. destruct (earliest _) as [[i t]|] eqn:E.
  - apply earliest_Some in E as (Hl & Hmin & _).
    case_decide; [done|]. intros _ u Hu. specialize (Hmin u Hu). lia.
  - apply earliest_None in E. rewrite E. set_solver.
Qed.

Lemma setTimeout_spec cb delay q h q' :
  setTimeout cb delay q = (h, q') →
  h = S (tq_last q) ∧ tq_last q' = h ∧ tq_now q' = tq_now q ∧
  tq_pending q' = tq_pending q ++ [mkTimer h (tq_now q + delay) cb].
Proof. unfold setTimeout. by intros [= <- <-]. Qed.

Lemma clearTimeout_pending h q :
  tq_pending (clearTimeout h q) = filter (λ t, tm_handle t ≠ h) (tq_pending q).
Proof. done. Qed.
Lemma pop_due_all_later lim q :
  (∀ u, u ∈ tq_pending q → lim < tm_due u) → pop_due lim q = None.
Proof.
  intros Hlater. unfold pop_due. destruct (earliest _) as [[i t]|] eqn:E; [|done].
  apply earliest_Some in E as (Hl & _).
  rewrite decide_False; [done|]. specialize (Hlater t (list_elem_of_lookup_2 _ _ _ Hl)). lia.
Qed.

Lemma pop_due_single lim n t l :
  tm_due t ≤ lim → pop_due lim (mkTimers n [t] l) = Some (t, mkTimers (tm_due t) [] l).
Proof.
  intros Hle. unfold pop_due, earliest. simpl.
  rewrite decide_True by done. simpl. by rewrite decide_True.
Qed.

(** [timers.forEach(clearTimeout)] removes exactly the listed handles. *)
Lemma clearTimeouts_pending (hs : list nat) q :
  tq_pending (foldl (λ q h, clearTimeout h q) q hs) =
  filter (λ t, tm_handle t ∉ hs) (tq_pending q).
Proof.
  revert q. induction hs as [|h hs IH]; intros q; simpl.
  - symmetry. apply filter_all. set_solver.
  - rewrite IH, clearTimeout_pending, list_filter_filter.
    apply list_filter_iff. intros t. set_solver.
Qed.

Lemma clearTimeouts_now (hs : list nat) q :
  tq_now (foldl (λ q h, clearTimeout h q) q hs) = tq_now q.
Proof. revert q. induction hs; intros q; simpl; [done|]. by rewrite IHhs. Qed.
(** Two pending timers: the earlier one (the first on a tie) runs. *)
Lemma pop_due_pair lim n (t1 t2 : Timer) l :
  pop_due lim (mkTimers n [t1; t2] l) =
  if decide (tm_due t1 ≤ tm_due t2)
  then (if decide (tm_due t1 ≤ lim) then Some (t1, mkTimers (tm_due t1) [t2] l) else None)
  else (if decide (tm_due t2 ≤ lim) then Some (t2, mkTimers (tm_due t2) [t1] l) else None).
Proof.
  unfold pop_due, earliest. simpl.
  destruct (decide (tm_due t1 ≤ tm_due t2)).
  - rewrite Z.min_l by done. simpl. by rewrite decide_True.
  - rewrite Z.min_r by lia. simpl. rewrite decide_False by lia. simpl.
    by rewrite decide_True.
Qed.

End Timers.

Arguments Timer : clear implicits.
Arguments Timers : clear implicits.
