(* ===== verification/ThemeStore.v ===== *)
(** * ThemeStore: the persisted theme preference

    The toggle reads the theme through [useTheme()] (next-themes) and
    writes it with [setTheme]. This file states what the toggle relies on
    as a type class, [ThemeStore] with its law [ThemeStoreLaws], and gives
    one implementation, [NextThemes], configured as [ThemeProvider] is in
    src/app/layout.tsx ([attribute="class"], [defaultTheme="dark"],
    [enableSystem]). Its state is the saved theme, the operating system's
    scheme and what it writes on [<html>]; its operations are the script
    run before the first paint ([nt_script]), [setTheme], the
    [prefers-color-scheme] listener and the [storage] event another tab
    causes ([nt_event]), each applying the resolved theme ([nt_apply]).
    The library itself is not part of the repository: [NextThemes]
    follows its documented behaviour, not its source. C31: [<html>] shows
    the resolved theme after any sequence of events, and the values this
    site writes make the operating system's scheme irrelevant. *)

From stdpp Require Import base list strings.
From S2P Require Import Prelude.

(** [type ThemeName = "dark" | "light"] (ThemeToggle.tsx) *)
Inductive ThemeName := Dark | Light.

#[export] Instance ThemeName_eq_dec : EqDecision ThemeName.
Proof. solve_decision. Defined.

Definition theme_str (t : ThemeName) : string :=
  match t with Dark => "dark" | Light => "light" end.

(** What [useTheme()] gives a component: [theme], [resolvedTheme] and
    [setTheme]. *)
Class ThemeStore (S : Type) := {
  store_theme : S → option string;
  store_resolved : S → option string;
  store_set : string → S → S;
}.

(** The one law the toggle needs: after [setTheme("dark")] or
    [setTheme("light")] the store reports that theme. *)
Class ThemeStoreLaws (S : Type) `{!ThemeStore S} := {
  store_resolved_set (t : ThemeName) (s : S) :
    store_resolved (store_set (theme_str t) s) = Some (theme_str t);
}.

(** ** next-themes as configured by the root layout *)

(** [<ThemeProvider attribute="class" defaultTheme="dark" enableSystem ...>] *)
Definition provider_defaultTheme : string := "dark".
Definition provider_enableSystem : bool := true.

(** [attribute="class"] makes next-themes write the resolved theme as a
    class of [<html>] (another attribute would get it as its value);
    [themes] is left at its default. *)
Definition provider_attribute : string := "class".
Definition provider_themes : list string := ["light"; "dark"].

(** The provider's state: the theme (its React state, which is also what
    localStorage holds under the key "theme"), the operating system's
    colour-scheme preference (once known), and what it writes on
    [<html>]: its class list, its [style.colorScheme] and its other
    attributes. *)
Record NextThemes := mkNextThemes {
  nt_stored : option string;
  nt_system : option ThemeName;
  nt_html_class : list string;
  nt_color_scheme : option string;
  nt_html_attrs : list (string * string);
}.

Definition nt_theme (s : NextThemes) : string :=
  match nt_stored s with Some v => v | None => provider_defaultTheme end.

Definition nt_resolved (s : NextThemes) : option string :=
  if bool_decide (nt_theme s = "system") && provider_enableSystem
  then theme_str <$> nt_system s
  else Some (nt_theme s).

(** [classList.add]: a class already present is not added again. *)
Definition class_add (c : string) (l : list string) : list string :=
  if bool_decide (c ∈ l) then l else l ++ [c].

(** next-themes' [applyTheme]: with [attribute="class"], remove the
    theme classes and add the resolved theme, otherwise set the attribute
    to it; then set [color-scheme] to it when it is light or dark (else
    to the default theme). *)
Definition nt_apply (s : NextThemes) : NextThemes :=
  match nt_resolved s with
  | None => s
  | Some r =>
      let by_class := String.eqb provider_attribute "class" in
      mkNextThemes (nt_stored s) (nt_system s)
        (if by_class then class_add r (filter (λ c, c ∉ provider_themes) (nt_html_class s))
         else nt_html_class s)
        (Some (if bool_decide (r ∈ provider_themes) then r else provider_defaultTheme))
        (if by_class then nt_html_attrs s
         else (provider_attribute, r) :: filter (λ kv, kv.1 ≠ provider_attribute) (nt_html_attrs s))
  end.

(** The blocking script next-themes puts before the page: it reads
    localStorage and the [prefers-color-scheme] query and applies the
    theme before the first paint. *)
Definition nt_script (stored : option string) (sys : ThemeName) (cls : list string) : NextThemes :=
  nt_apply (mkNextThemes stored (Some sys) cls None []).

(** What changes the provider's state after the script: [setTheme] (which
    also writes localStorage), a change of the operating system's scheme
    (the [matchMedia] listener, which re-applies only when the theme is
    "system"), and a [storage] event, another tab writing the key
    ([e.newValue || defaultTheme]). *)
Inductive NtEvent := NtSetTheme (v : string) | NtMediaChange (t : ThemeName) | NtStorage (v : option string).

Definition nt_event (e : NtEvent) (s : NextThemes) : NextThemes :=
  match e with
  | NtSetTheme v => nt_apply (mkNextThemes (Some v) (nt_system s) (nt_html_class s) (nt_color_scheme s) (nt_html_attrs s))
  | NtMediaChange t =>
      let s' := mkNextThemes (nt_stored s) (Some t) (nt_html_class s) (nt_color_scheme s) (nt_html_attrs s) in
      if bool_decide (nt_theme s = "system") then nt_apply s' else s'
  | NtStorage v => nt_apply (mkNextThemes v (nt_system s) (nt_html_class s) (nt_color_scheme s) (nt_html_attrs s))
  end.

Definition nt_run (es : list NtEvent) (s : NextThemes) : NextThemes :=
  fold_left (λ s e, nt_event e s) es s.

(** [<html>] shows the resolved theme: among the theme classes exactly
    that one, and [color-scheme] set to it. *)
Definition nt_synced (s : NextThemes) : Prop :=
  ∀ r, nt_resolved s = Some r → r ∈ provider_themes →
    filter (λ c, c ∈ provider_themes) (nt_html_class s) = [r] ∧ nt_color_scheme s = Some r.

(** [viewport.themeColor]: the colour mobile browsers give their
    address bar, chosen by the media query [prefers-color-scheme], that
    is by the operating system's scheme. *)
Definition viewport_themeColor (scheme : ThemeName) : string :=
  match scheme with Light => "#f7f8fb" | Dark => "#0b0b0e" end.

Definition address_bar_color (s : NextThemes) : option string := viewport_themeColor <$> nt_system s.

#[export] Instance NextThemes_store : ThemeStore NextThemes := {
  store_theme s := Some (nt_theme s);
  store_resolved := nt_resolved;
  store_set v s := nt_event (NtSetTheme v) s;
}.

Lemma theme_str_inj t1 t2 : theme_str t1 = theme_str t2 → t1 = t2.
Proof. by destruct t1, t2. Qed.

Lemma nt_apply_stored s : nt_stored (nt_apply s) = nt_stored s.
Proof. unfold nt_apply. by destruct (nt_resolved s). Qed.

Lemma nt_apply_system s : nt_system (nt_apply s) = nt_system s.
Proof. unfold nt_apply. by destruct (nt_resolved s). Qed.

Lemma nt_apply_resolved s : nt_resolved (nt_apply s) = nt_resolved s.
Proof. unfold nt_resolved, nt_theme. by rewrite nt_apply_stored, nt_apply_system. Qed.

#[export] Instance NextThemes_laws : ThemeStoreLaws NextThemes.
Proof. constructor. intros t s. cbn. rewrite nt_apply_resolved. by destruct t. Qed.

(** ** [<html>] follows the theme *)

Lemma filter_not_themes_none (l : list string) :
  filter (λ c, c ∈ provider_themes) (filter (λ c, c ∉ provider_themes) l) = [].
Proof. induction l as [|c l IH]; [done|]. rewrite filter_cons. case_decide; [|done]. by rewrite filter_cons_False. Qed.

Lemma nt_resolved_not_system s : nt_theme s ≠ "system" → nt_resolved s = Some (nt_theme s).
Proof. intros H. unfold nt_resolved. by rewrite bool_decide_eq_false_2. Qed.

Lemma nt_apply_synced s : nt_synced (nt_apply s).
Proof.
  intros r. rewrite nt_apply_resolved. unfold nt_apply. intros -> Hr. simpl.
  unfold class_add. rewrite bool_decide_eq_false_2, bool_decide_eq_true_2 by
    (done || (intros (Hn & _)%list_elem_of_filter; by apply Hn)).
  by rewrite filter_app, filter_not_themes_none, filter_cons_True, filter_nil by done.
Qed.

Lemma nt_event_synced e s : nt_synced s → nt_synced (nt_event e s).
Proof.
  intros Hs. destruct e as [v|t|v]; simpl; try apply nt_apply_synced.
  case_bool_decide as Hsys; [apply nt_apply_synced|].
  intros r Hr Hin. apply (Hs r); [|done].
  rewrite nt_resolved_not_system in Hr |- * by done. exact Hr.
Qed.

Lemma nt_run_synced es s : nt_synced s → nt_synced (nt_run es s).
Proof. revert s. induction es; intros s Hs; simpl; [done|]. by apply IHes, nt_event_synced. Qed.

(** The values this site writes under the key: the toggle's "light" and
    "dark", or nothing. *)
Definition site_value (v : option string) : bool := bool_decide (v ∈ [None; Some "light"; Some "dark"]).

Definition site_event (e : NtEvent) : bool :=
  match e with
  | NtSetTheme v => site_value (Some v)
  | NtMediaChange _ => true
  | NtStorage v => site_value v
  end.

(** Two provider states that differ at most in the operating system's
    scheme, with a theme the site writes. *)
Definition nt_same_but_system (s1 s2 : NextThemes) : Prop :=
  nt_stored s1 = nt_stored s2 ∧ nt_html_class s1 = nt_html_class s2 ∧
  nt_color_scheme s1 = nt_color_scheme s2 ∧ nt_html_attrs s1 = nt_html_attrs s2 ∧
  site_value (nt_stored s1) = true.

Lemma nt_theme_site s : site_value (nt_stored s) = true → nt_theme s ≠ "system".
Proof.
  unfold site_value, nt_theme. destruct (nt_stored s) as [v|]; [|done].
  intros H ->. vm_compute in H. discriminate.
Qed.

Lemma nt_same_resolved s1 s2 : nt_same_but_system s1 s2 → nt_resolved s1 = nt_resolved s2.
Proof.
  intros (Hst & _ & _ & _ & Hv). rewrite !nt_resolved_not_system; [by unfold nt_theme; rewrite Hst| |];
    apply nt_theme_site; congruence.
Qed.

Lemma nt_apply_same s1 s2 : nt_same_but_system s1 s2 → nt_same_but_system (nt_apply s1) (nt_apply s2).
Proof.
  intros Hs. pose proof (nt_same_resolved _ _ Hs) as Hr. destruct Hs as (Hst & Hc & Hcs & Ha & Hv).
  unfold nt_apply. rewrite <-Hr. destruct (nt_resolved s1); [|done].
  split_and!; simpl; congruence.
Qed.

Lemma nt_event_same e s1 s2 :
  site_event e = true → nt_same_but_system s1 s2 → nt_same_but_system (nt_event e s1) (nt_event e s2).
Proof.
  intros He Hs. pose proof Hs as (Hst & Hc & Hcs & Ha & Hv).
  destruct e as [v|t|v]; simpl in *; try (apply nt_apply_same; split_and!; simpl; congruence).
  rewrite !bool_decide_eq_false_2 by (apply nt_theme_site; congruence).
  split_and!; simpl; congruence.
Qed.

Lemma nt_run_same es s1 s2 :
  Forall (λ e, site_event e = true) es → nt_same_but_system s1 s2 →
  nt_same_but_system (nt_run es s1) (nt_run es s2).
Proof. intros Hes. revert s1 s2. induction Hes; intros s1 s2 Hs; simpl; [done|]. by apply IHHes, nt_event_same. Qed.

(** ** Properties *)

(** C31: next-themes, as the layout configures it, keeps [<html>] in step
    with the theme: after its script and any sequence of [setTheme]
    calls, changes of the operating system's scheme and writes by other
    tabs, the theme class on [<html>] is exactly the resolved theme and
    [color-scheme] is set to it. With the values this site writes,
    [enableSystem] has no effect: the class and the resolved theme are the
    same whatever the operating system's scheme, and a visitor with
    nothing saved gets [defaultTheme] "dark". *)
Theorem next_themes_html (stored : option string) (sys sys' : ThemeName) (cls : list string)
    (es : list NtEvent) :
  site_value stored = true → Forall (λ e, site_event e = true) es →
  nt_synced (nt_run es (nt_script stored sys cls)) ∧
  nt_html_class (nt_run es (nt_script stored sys cls)) = nt_html_class (nt_run es (nt_script stored sys' cls)) ∧
  nt_resolved (nt_run es (nt_script stored sys cls)) = nt_resolved (nt_run es (nt_script stored sys' cls)) ∧
  nt_resolved (nt_script None sys cls) = Some "dark".
Proof.
  intros Hv Hes.
  assert (nt_same_but_system (nt_run es (nt_script stored sys cls)) (nt_run es (nt_script stored sys' cls)))
    as Hs by (apply nt_run_same, nt_apply_same; [done|]; by split_and!).
  split_and!; [apply nt_run_synced, nt_apply_synced|apply Hs|by apply nt_same_resolved|done].
Qed.

(** ** Witnesses *)

Lemma next_themes_html_witness :
  let es := [NtSetTheme "light"; NtMediaChange Dark; NtStorage None; NtSetTheme "light"] in
  nt_synced (nt_run es (nt_script None Light [])) ∧
  nt_html_class (nt_run es (nt_script None Light [])) =
    nt_html_class (nt_run es (nt_script None Dark [])) ∧
  nt_resolved (nt_run es (nt_script None Light [])) =
    nt_resolved (nt_run es (nt_script None Dark [])) ∧
  nt_resolved (nt_script None Light []) = Some "dark".
Proof. apply next_themes_html; [reflexivity|repeat constructor]. Defined.
