(* ===== verification/ThemeToggle.v ===== *)
(** * ThemeToggle: the theme-ripple controller (src/components/ThemeToggle.tsx)

    The component's React state ([mounted], [ripples]) and refs ([seq],
    [timers]) form the record [Toggle]; together with the theme store, the
    "still in the tree" flag and the browser's timer queue it forms the
    [World] the handlers transform. [onClick] is the click handler,
    [run_callback] runs the bodies of the two nested [setTimeout]
    closures, [mount] is the [setMounted(true)] effect and [unmount] the
    effect cleanup that clears every recorded timer. [advance] is the
    event loop firing due timers in order; [run] plays a script of user
    and clock events. The rendering ([render_button], [render_overlay])
    is kept as the values the JSX passes to the DOM and to framer-motion.

    The second half of the file proves what the controller guarantees.
    The environment's choices (mount, click, let a due timer fire, let
    time pass, unmount) form the step relation [step]; [reachable] worlds
    are those a fresh component reaches. The invariant [inv] holds in
    every reachable world, the scripted executions of [run] are
    reachable, and from these follow the lifecycle and non-interference
    properties of spec section 8. *)

From stdpp Require Import base list sets strings numbers relations.
From S2P Require Import Prelude Timers ThemeStore.

Local Open Scope Z_scope.



(** [const PAGE_COLOR = { dark: "#000000", light: "#ffffff" }] *)
Definition PAGE_COLOR (t : ThemeName) : string :=
  match t with Dark => "#000000" | Light => "#ffffff" end.

Inductive Phase := Cover | Reveal.

#[export] Instance Phase_eq_dec : EqDecision Phase.
Proof. solve_decision. Defined.

(** [type Ripple = { id; phase; color; cx; cy }] *)
Record Ripple := mkRipple {
  rp_id : nat;
  rp_phase : Phase;
  rp_color : string;
  rp_cx : string;
  rp_cy : string;
}.

(** Durations in milliseconds: [COVER_DURATION = 0.65] s,
    [REVEAL_DURATION = 0] s, [BETWEEN_DELAY_MS = 500], and the cleanup
    delay [REVEAL_DURATION * 1000 + 60]. *)
Definition COVER_DURATION_MS : Z := 650.
Definition REVEAL_DURATION_MS : Z := 0.
Definition BETWEEN_DELAY_MS : Z := 500.
Definition CLEANUP_DELAY_MS : Z := REVEAL_DURATION_MS + 60.

(** Expose the values of the delays to arithmetic. *)
Ltac unfold_delays :=
  unfold BETWEEN_DELAY_MS, CLEANUP_DELAY_MS, REVEAL_DURATION_MS, COVER_DURATION_MS in *.

(** The ripple origin, "top-right corner like a peel". *)
Definition RIPPLE_CX : string := "100%".
Definition RIPPLE_CY : string := "0%".

(** [function Dot({ color }: { color: "black" | "white" })] *)
Inductive Dot := DotBlack | DotWhite.

#[export] Instance Dot_eq_dec : EqDecision Dot.
Proof. solve_decision. Defined.

(** JavaScript's [a ?? b] on optional strings. *)
Definition js_nullish (a b : option string) : option string :=
  match a with Some x => Some x | None => b end.

(** The [useMemo] computing [current]: ["dark"] until mounted, then
    [(resolvedTheme ?? theme) === "light" ? "light" : "dark"]. *)
Definition current_of (mounted : bool) (theme resolved : option string) : ThemeName :=
  if mounted
  then if decide (js_nullish resolved theme = Some "light") then Light else Dark
  else Dark.

(** [const next = current === "dark" ? "light" : "dark"] *)
Definition next_of (current : ThemeName) : ThemeName :=
  match current with Dark => Light | Light => Dark end.

(** [const targetDot = next === "dark" ? <Dot black/> : <Dot white/>] *)
Definition targetDot (next : ThemeName) : Dot :=
  match next with Dark => DotBlack | Light => DotWhite end.

(** The two closures passed to [window.setTimeout] in [onClick]: the
    outer one (flip the theme, add the reveal ripple, schedule the
    cleanup) captures [idA], [next] and [color]; the inner one captures
    [idA] and [idB]. *)
Inductive Callback :=
| CbReveal (idA : nat) (next : ThemeName) (color : string)
| CbCleanup (idA idB : nat).

(** The component instance: [mounted] ([useState(false)]), [ripples]
    ([useState<Ripple[]>([])]), [seq] ([useRef(0)]) and [timers]
    ([useRef<number[]>([])]). *)
Record Toggle := mkToggle {
  tg_mounted : bool;
  tg_ripples : list Ripple;
  tg_seq : nat;
  tg_timers : list nat;
}.

Definition toggle_init : Toggle := mkToggle false [] 0 [].

Section Component.
Context {St : Type} `{!ThemeStore St}.

(** Everything the component's code reads or writes. *)
Record World := mkWorld {
  w_store : St;
  w_alive : bool;
  w_tg : Toggle;
  w_timers : Timers Callback;
}.

Definition world_init (s : St) (now : Z) : World :=
  mkWorld s true toggle_init (timers_init now).

Definition current (w : World) : ThemeName :=
  current_of (tg_mounted (w_tg w)) (store_theme (w_store w))
             (store_resolved (w_store w)).

Definition now (w : World) : Z := tq_now (w_timers w).
Definition pending (w : World) : list (Timer Callback) := tq_pending (w_timers w).

Definition set_timers (q : Timers Callback) (w : World) : World :=
  mkWorld (w_store w) (w_alive w) (w_tg w) q.

(** [useEffect(() => setMounted(true), [])] *)
Definition mount (w : World) : World :=
  let tg := w_tg w in
  mkWorld (w_store w) (w_alive w)
    (mkToggle true (tg_ripples tg) (tg_seq tg) (tg_timers tg)) (w_timers w).

(** [function onClick()] *)
Definition onClick (w : World) : World :=
  let tg := w_tg w in
  let next := next_of (current w) in
  let color := PAGE_COLOR next in
  let idA := S (tg_seq tg) in
  let rs := tg_ripples tg ++ [mkRipple idA Cover color RIPPLE_CX RIPPLE_CY] in
  let '(t1, q) := setTimeout (CbReveal idA next color) BETWEEN_DELAY_MS (w_timers w) in
  mkWorld (w_store w) (w_alive w)
    (mkToggle (tg_mounted tg) rs idA (tg_timers tg ++ [t1])) q.

(** The bodies of the two timer closures. *)
Definition run_callback (cb : Callback) (w : World) : World :=
  let tg := w_tg w in
  match cb with
  | CbReveal idA next color =>
      let st := store_set (theme_str next) (w_store w) in
      let idB := S (tg_seq tg) in
      let rs := tg_ripples tg ++ [mkRipple idB Reveal color RIPPLE_CX RIPPLE_CY] in
      let '(t2, q) := setTimeout (CbCleanup idA idB) CLEANUP_DELAY_MS (w_timers w) in
      mkWorld st (w_alive w)
        (mkToggle (tg_mounted tg) rs idB (tg_timers tg ++ [t2])) q
  | CbCleanup idA idB =>
      let rs := filter (λ r, rp_id r ≠ idA ∧ rp_id r ≠ idB) (tg_ripples tg) in
      mkWorld (w_store w) (w_alive w)
        (mkToggle (tg_mounted tg) rs (tg_seq tg) (tg_timers tg)) (w_timers w)
  end.

(** The effect cleanup: [timers.current.forEach(clearTimeout);
    timers.current = []], after which the component is gone. *)
Definition unmount (w : World) : World :=
  let tg := w_tg w in
  mkWorld (w_store w) false
    (mkToggle (tg_mounted tg) (tg_ripples tg) (tg_seq tg) [])
    (foldl (λ q h, clearTimeout h q) (w_timers w) (tg_timers tg)).

(** ** The event loop *)

(** Fire one due timer: take it off the queue, then run its body. *)
Definition fire (t : Timer Callback) (q : Timers Callback) (w : World) : World :=
  run_callback (tm_cb t) (set_timers q w).

(** Run every timer due by [lim], in due order, then move the clock
    to [lim]. The fuel is a bound on the number of timers fired;
    [cb_weight] below shows how much is enough. *)
Fixpoint advance (fuel : nat) (lim : Z) (w : World) : World :=
  match fuel with
  | O => w
  | Datatypes.S fuel' =>
      match pop_due lim (w_timers w) with
      | Some (t, q) => advance fuel' lim (fire t q w)
      | None => set_timers (set_now lim (w_timers w)) w
      end
  end.

(** A [CbReveal] fires and schedules one [CbCleanup]; a [CbCleanup]
    schedules nothing: the weight of the queue bounds the number of
    timers that can still fire. *)
Definition cb_weight (cb : Callback) : nat :=
  match cb with CbReveal _ _ _ => 2 | CbCleanup _ _ => 1 end%nat.

Definition queue_weight (l : list (Timer Callback)) : nat :=
  sum_list_with (λ t, cb_weight (tm_cb t)) l.

(** Let [d] milliseconds pass. *)
Definition wait (d : Z) (w : World) : World :=
  advance (S (queue_weight (pending w))) (now w + d) w.

Inductive Event := EvMount | EvClick | EvWait (d : Z) | EvUnmount.

(** Clicks, the mount effect and the unmount only reach a component
    that is still in the tree. *)
Definition handle_event (w : World) (e : Event) : World :=
  match e with
  | EvMount => if w_alive w then mount w else w
  | EvClick => if w_alive w then onClick w else w
  | EvWait d => wait d w
  | EvUnmount => if w_alive w then unmount w else w
  end.

Definition run (w : World) (es : list Event) : World := foldl handle_event w es.
End Component.

Arguments World St : clear implicits.

(** ** Rendering *)

(** The trigger button: [aria-label], the dot inside it, its z-index. *)
Record ButtonView := mkButtonView {
  bv_label : string;
  bv_dot : Dot;
  bv_z : Z;
}.

Definition render_button (mounted : bool) (cur : ThemeName) : ButtonView :=
  let next := next_of cur in
  mkButtonView
    (if mounted then "Switch to " +:+ theme_str next +:+ " theme" else "Switch theme")
    (if mounted then targetDot next else DotWhite)
    50.




(** ** Geometry of the cover animation *)

(** Linear easing from radius 0 to 150vmax over [COVER_DURATION_MS]:
    the radius [elapsed] ms after the overlay appeared, in vmax, scaled
    by [COVER_DURATION_MS] to stay in integers. *)
Definition cover_radius_scaled (elapsed : Z) : Z :=
  150 * Z.max 0 (Z.min elapsed COVER_DURATION_MS).

(** A circle centred on the top-right corner covers a viewport [vw]
    by [vh] (in vmax) when it reaches the bottom-left corner. *)
Definition covers_viewport (elapsed vw vh : Z) : bool :=
  bool_decide ((vw * vw + vh * vh) * (COVER_DURATION_MS * COVER_DURATION_MS)
               ≤ cover_radius_scaled elapsed * cover_radius_scaled elapsed).

(** ** Example components, used by the witnesses below *)

Definition ex_dark : NextThemes := mkNextThemes (Some "dark") None [] None [].
Definition ex_light : NextThemes := mkNextThemes (Some "light") None [] None [].
Definition ex_mounted : World NextThemes := mount (world_init ex_dark 0).
Definition ex_torn_down : World NextThemes :=
    run (world_init ex_dark 0) [EvMount; EvClick; EvWait 100; EvUnmount].
Definition ex_revealed : World NextThemes :=
    run (world_init ex_dark 0) [EvMount; EvClick; EvWait 500].
Definition ex_settled : World NextThemes :=
    run (world_init ex_dark 0) [EvMount; EvClick; EvWait 1000].
Definition ex_overlapping : World NextThemes :=
    run (world_init ex_dark 0) [EvMount; EvClick; EvWait 100; EvClick].

Section Proofs.
Context {St : Type} `{!ThemeStore St}.

Implicit Types (w : World St).

(** ** The environment's choices *)

Inductive step : World St → World St → Prop :=
| step_mount w : w_alive w = true → step w (mount w)
| step_click w : w_alive w = true → step w (onClick w)
| step_fire w lim t q : pop_due lim (w_timers w) = Some (t, q) → step w (fire t q w)
| step_tick w lim :
    (∀ u, u ∈ pending w → lim < tm_due u) →
    step w (set_timers (set_now lim (w_timers w)) w)
| step_unmount w : w_alive w = true → step w (unmount w).

Definition reachable (w : World St) : Prop :=
  ∃ s t0, rtc step (world_init s t0) w.

(** The ids a pending timer's closure refers to. *)
Definition cb_ids (cb : Callback) : list nat :=
  match cb with CbReveal a _ _ => [a] | CbCleanup a b => [a; b] end.

Definition pending_ids (l : list (Timer Callback)) : list nat :=
  concat ((λ t, cb_ids (tm_cb t)) <$> l).

Definition ripple_ids (w : World St) : list nat := rp_id <$> tg_ripples (w_tg w).

(** ** The invariant *)

Record inv (w : World St) : Prop := {
  (** after the unmount no timer is left to fire *)
  inv_dead : w_alive w = false → pending w = [];
  (** every pending timer's handle was recorded in [timers.current] *)
  inv_tracked : ∀ u, u ∈ pending w → tm_handle u ∈ tg_timers (w_tg w);
  (** ripples are ordered by id, ids strictly increasing *)
  inv_sorted : increasing (ripple_ids w);
  (** every id was issued by [seq] *)
  inv_seq : ∀ i, i ∈ ripple_ids w → (i ≤ tg_seq (w_tg w))%nat;
  (** while mounted, the live ripples are exactly the ones the pending
      timers still have to act on *)
  inv_pairs : w_alive w = true → ripple_ids w ≡ₚ pending_ids (pending w);
  (** no timer is due in the past *)
  inv_future : ∀ u, u ∈ pending w → now w ≤ tm_due u;
}.

Lemma pending_ids_app l1 l2 :
  pending_ids (l1 ++ l2) = pending_ids l1 ++ pending_ids l2.
Proof. unfold pending_ids. by rewrite fmap_app, concat_app. Qed.

Lemma pending_ids_cons t l : pending_ids (t :: l) = cb_ids (tm_cb t) ++ pending_ids l.
Proof. done. Qed.

Lemma inv_init s t0 : inv (world_init s t0).
Proof.
  constructor; unfold pending, ripple_ids; simpl;
    solve [done | constructor | intros; set_solver].
Qed.

Lemma inv_mount w : inv w → inv (mount w).
Proof. intros []; by constructor. Qed.

(** A new ripple with a fresh id keeps the id list increasing. *)
Lemma ripple_ids_snoc (tg : Toggle) r :
  increasing (rp_id <$> tg_ripples tg) →
  (∀ i, i ∈ rp_id <$> tg_ripples tg → (i ≤ tg_seq tg)%nat) →
  rp_id r = S (tg_seq tg) →
  increasing (rp_id <$> tg_ripples tg ++ [r]) ∧
  (∀ i, i ∈ rp_id <$> tg_ripples tg ++ [r] → (i ≤ rp_id r)%nat).
Proof.
  intros Hs Hseq Hr. rewrite fmap_app. simpl. split.
  - apply increasing_snoc; [done|]. intros i Hi. specialize (Hseq i Hi). lia.
  - intros i [Hi|Hi]%elem_of_app.
    + specialize (Hseq i Hi). lia.
    + apply list_elem_of_singleton in Hi as ->. done.
Qed.

Lemma ripple_ids_filter a b (rs : list Ripple) :
  rp_id <$> filter (λ r, rp_id r ≠ a ∧ rp_id r ≠ b) rs =
  filter (λ k, k ≠ a ∧ k ≠ b) (rp_id <$> rs).
Proof. exact (filter_fmap_comm rp_id (λ k, k ≠ a ∧ k ≠ b) rs). Qed.

Lemma pending_ids_perm l1 l2 : l1 ≡ₚ l2 → pending_ids l1 ≡ₚ pending_ids l2.
Proof. intros Hp. unfold pending_ids. by rewrite Hp. Qed.

Lemma inv_click w : w_alive w = true → inv w → inv (onClick w).
Proof.
  intros Halive Hinv. pose proof Hinv as [Hd Htr Hs Hseq Hp Hf].
  unfold onClick. destruct_pair_let E.
  apply setTimeout_spec in E as (-> & Hlast & Hnow & Hpend).
  match goal with
  | |- context [tg_ripples (w_tg w) ++ [?r]] =>
      destruct (ripple_ids_snoc (w_tg w) r Hs Hseq eq_refl) as [Hs' Hseq']
  end.
  constructor; simpl; unfold pending, now, ripple_ids in *; simpl; rewrite ?Hpend, ?Hnow.
  - by rewrite Halive.
  - intros u [Hu|Hu]%elem_of_app; [set_solver|]. apply list_elem_of_singleton in Hu. set_solver.
  - done.
  - done.
  - intros Ha. rewrite fmap_app, pending_ids_app, (Hp Ha). done.
  - intros u [Hu|Hu]%elem_of_app; [by apply Hf|].
    apply list_elem_of_singleton in Hu as ->. simpl. unfold_delays. lia.
Qed.
(** Firing a timer: the reveal step and the cleanup step. *)
Lemma inv_fire w lim t q :
  inv w → pop_due lim (w_timers w) = Some (t, q) → inv (fire t q w).
Proof.
  intros Hinv Hpop. pose proof Hinv as [Hd Htr Hs Hseq Hp Hf].
  apply pop_due_Some in Hpop as (Hperm & Hnow & _ & _ & Hmin).
  destruct (w_alive w) eqn:Halive.
  2:{ specialize (Hd eq_refl). unfold pending in Hd. rewrite Hd in Hperm.
      by apply Permutation_nil_cons in Hperm. }
  specialize (Hp eq_refl). unfold pending, ripple_ids, now in *.
  assert (∀ u, u ∈ tq_pending q → u ∈ tq_pending (w_timers w)) as Hsub.
  { intros u Hu. rewrite Hperm. set_solver. }
  unfold fire, run_callback. destruct (tm_cb t) as [a next color|a b] eqn:Hcb.
  - destruct_pair_let E. apply setTimeout_spec in E as (-> & Hlast & Hnow' & Hpend).
    simpl in Hlast, Hnow', Hpend.
    destruct (ripple_ids_snoc (w_tg w) (mkRipple (S (tg_seq (w_tg w))) Reveal
      color RIPPLE_CX RIPPLE_CY) Hs Hseq eq_refl) as [Hs' Hseq'].
    constructor; unfold pending, ripple_ids, now; simpl; rewrite ?Hpend, ?Hnow'.
    + by rewrite Halive.
    + intros u [Hu|Hu]%elem_of_app.
      * apply elem_of_app. left. by apply Htr, Hsub.
      * apply list_elem_of_singleton in Hu as ->. set_solver.
    + done.
    + done.
    + intros _. rewrite fmap_app, pending_ids_app, Hp, (pending_ids_perm _ _ Hperm).
      rewrite pending_ids_cons, Hcb. simpl. solve_Permutation.
    + intros u [Hu|Hu]%elem_of_app.
      * rewrite Hnow. by apply Hmin, Hsub.
      * apply list_elem_of_singleton in Hu as ->. simpl.
        rewrite Hnow. unfold_delays. lia.
  - rewrite (pending_ids_perm _ _ Hperm), pending_ids_cons, Hcb in Hp.
    constructor; unfold pending, ripple_ids, now; simpl.
    + by rewrite Halive.
    + intros u Hu. by apply Htr, Hsub.
    + rewrite ripple_ids_filter. by apply increasing_filter.
    + intros i Hi. apply Hseq. rewrite ripple_ids_filter in Hi.
      apply list_elem_of_filter in Hi. naive_solver.
    + intros _. apply (fmap_filter_remove_pair rp_id _ [] _ a b); [|done].
      simpl. rewrite <- Hp. by apply increasing_NoDup.
    + intros u Hu. rewrite Hnow. by apply Hmin, Hsub.
Qed.

Lemma inv_tick w lim :
  inv w → (∀ u, u ∈ pending w → lim < tm_due u) →
  inv (set_timers (set_now lim (w_timers w)) w).
Proof.
  intros [Hd Htr Hs Hseq Hp Hf] Hlater.
  constructor; unfold pending, now in *; simpl; try done.
  intros u Hu. specialize (Hf u Hu). specialize (Hlater u Hu). lia.
Qed.

Lemma inv_unmount w : inv w → inv (unmount w).
Proof.
  intros [Hd Htr Hs Hseq Hp Hf].
  assert (pending (unmount w) = []) as Hnil.
  { unfold pending, unmount. simpl. rewrite clearTimeouts_pending.
    apply filter_none. intros u Hu Hn. by apply Hn, Htr. }
  constructor; try done; rewrite ?Hnil; set_solver.
Qed.

Lemma inv_step w w' : inv w → step w w' → inv w'.
Proof.
  intros Hinv Hstep. destruct Hstep.
  - by apply inv_mount.
  - by apply inv_click.
  - by eapply inv_fire.
  - by apply inv_tick.
  - by apply inv_unmount.
Qed.

Lemma inv_rtc w w' : inv w → rtc step w w' → inv w'.
Proof. intros Hinv Hr. induction Hr; eauto using inv_step. Qed.

Lemma reachable_inv w : reachable w → inv w.
Proof. intros (s & t0 & Hr). eapply inv_rtc; [apply inv_init|done]. Qed.

(** ** The executable event loop refines the step relation *)

Lemma advance_rtc fuel lim w : rtc step w (advance fuel lim w).
Proof.
  revert w. induction fuel as [|fuel IH]; intros w; simpl; [done|].
  destruct (pop_due lim (w_timers w)) as [[t q]|] eqn:E.
  - eapply rtc_l; [by eapply step_fire|]. apply IH.
  - apply rtc_once, step_tick. by apply pop_due_None.
Qed.

Lemma handle_event_rtc w e : rtc step w (handle_event w e).
Proof.
  destruct e; simpl; try apply advance_rtc;
    destruct (w_alive w) eqn:E; try done; apply rtc_once; by constructor.
Qed.

Lemma run_rtc w es : rtc step w (run w es).
Proof.
  revert w. induction es as [|e es IH]; intros w; simpl; [done|].
  eapply rtc_trans; [apply handle_event_rtc|apply IH].
Qed.

(** ** Termination of the event loop *)

Lemma queue_weight_perm l1 l2 : l1 ≡ₚ l2 → queue_weight l1 = queue_weight l2.
Proof. induction 1; unfold queue_weight in *; simpl; lia. Qed.

Lemma queue_weight_app l1 l2 :
  queue_weight (l1 ++ l2) = (queue_weight l1 + queue_weight l2)%nat.
Proof. unfold queue_weight. apply sum_list_with_app. Qed.

(** Every fired timer lowers the weight of the queue. *)
Lemma fire_weight w lim t q :
  pop_due lim (w_timers w) = Some (t, q) →
  (queue_weight (pending (fire t q w)) < queue_weight (pending w))%nat.
Proof.
  intros Hpop. apply pop_due_Some in Hpop as (Hperm & _).
  unfold pending. rewrite (queue_weight_perm _ _ Hperm).
  unfold fire, run_callback. destruct (tm_cb t) eqn:Hcb.
  - destruct_pair_let E. simpl. apply setTimeout_spec in E as (_ & _ & _ & Hp).
    rewrite Hp, queue_weight_app. unfold queue_weight. simpl. rewrite Hcb. simpl. lia.
  - unfold queue_weight. simpl. rewrite Hcb. simpl. lia.
Qed.

Lemma advance_drains fuel lim w :
  (queue_weight (pending w) < fuel)%nat →
  (∀ u, u ∈ pending (advance fuel lim w) → lim < tm_due u) ∧
  lim ≤ now (advance fuel lim w).
Proof.
  revert w. induction fuel as [|fuel IH]; intros w Hw; [lia|]. simpl.
  destruct (pop_due lim (w_timers w)) as [[t q]|] eqn:E.
  - apply IH. pose proof (fire_weight w lim t q E). lia.
  - unfold pending, now. simpl. split; [by apply pop_due_None|lia].
Qed.

(** ** Running concrete timer sequences *)

(** Evaluate [advance] through a queue of at most two timers. *)
Ltac run_timers :=
  repeat (cbn -[pop_due]; unfold set_now; rewrite ?Z.max_id;
    match goal with
    | |- context [pop_due ?lim (mkTimers ?n [] ?l)] =>
        rewrite (pop_due_all_later lim (@mkTimers Callback n [] l)) by set_solver
    | |- context [pop_due ?lim (mkTimers ?n [?t] ?l)] =>
        first [ rewrite (pop_due_single lim n t l) by (simpl; unfold_delays; lia)
              | rewrite (pop_due_all_later lim (@mkTimers Callback n [t] l)) by
                  (simpl; intros ? Hu%list_elem_of_singleton; subst; simpl;
                   unfold_delays; lia) ]
    | |- context [pop_due ?lim (mkTimers ?n [?t1; ?t2] ?l)] =>
        rewrite (pop_due_pair lim n t1 t2 l); simpl tm_due;
        repeat first [ rewrite decide_True by (unfold_delays; lia)
                     | rewrite decide_False by (unfold_delays; lia) ]
    end).

(** ** Consequences of the invariant *)

Lemma ripple_ids_nil w : ripple_ids w = [] → tg_ripples (w_tg w) = [].
Proof. unfold ripple_ids. by intros ?%fmap_nil_inv. Qed.

Lemma reachable_ripples_NoDup w : reachable w → NoDup (ripple_ids w).
Proof. intros Hr. apply increasing_NoDup, (inv_sorted _ (reachable_inv w Hr)). Qed.

Lemma reachable_step w w' : reachable w → step w w' → reachable w'.
Proof. intros (s & t0 & Hr) Hs. exists s, t0. by eapply rtc_r. Qed.

Lemma reachable_rtc w w' : reachable w → rtc step w w' → reachable w'.
Proof. intros Hr Hs. induction Hs; eauto using reachable_step. Qed.

(** A torn-down world with nothing pending stays as it is. *)
Lemma dead_step w w' :
  w_alive w = false → pending w = [] → step w w' →
  w_alive w' = false ∧ pending w' = [] ∧ w_store w' = w_store w ∧
  tg_ripples (w_tg w') = tg_ripples (w_tg w).
Proof.
  intros Hd Hp Hs. destruct Hs; try congruence.
  - apply pop_due_Some in H as (Hperm & _). unfold pending in Hp. rewrite Hp in Hperm.
    by apply Permutation_nil_cons in Hperm.
  - done.
Qed.

(** ** The properties of spec section 8 *)

(** C1: One activation from a quiet, mounted component (no ripple, no
    pending timer): right after the click there is exactly one cover
    ripple, in the target theme's colour, and the theme is unchanged;
    BETWEEN_DELAY_MS later the theme has been set to the target and a
    reveal ripple with the next id has joined the cover; after
    CLEANUP_DELAY_MS more both ripples are gone, no timer is pending and
    the theme stays set. *)
Theorem single_activation_lifecycle w :
  w_alive w = true → tg_ripples (w_tg w) = [] → pending w = [] →
  let c := PAGE_COLOR (next_of (current w)) in
  let n := tg_seq (w_tg w) in
  let w1 := onClick w in
  let w2 := wait BETWEEN_DELAY_MS w1 in
  let w3 := wait CLEANUP_DELAY_MS w2 in
  tg_ripples (w_tg w1) = [mkRipple (S n) Cover c RIPPLE_CX RIPPLE_CY] ∧
  w_store w1 = w_store w ∧
  tg_ripples (w_tg w2) = [mkRipple (S n) Cover c RIPPLE_CX RIPPLE_CY;
                          mkRipple (S (S n)) Reveal c RIPPLE_CX RIPPLE_CY] ∧
  w_store w2 = store_set (theme_str (next_of (current w))) (w_store w) ∧
  tg_ripples (w_tg w3) = [] ∧ pending w3 = [] ∧ w_store w3 = w_store w2.
Proof.
  destruct w as [s alive [m rs n hs] [t0 p l]]; unfold pending, now; simpl.
  intros -> -> ->. unfold wait, onClick, fire, run_callback, set_timers, pending, now.
  run_timers. rewrite !decide_False by (intros [? ?]; lia). by repeat split.
Qed.

(** C2: The theme flag is untouched while the cover animation plays: a
    click leaves it unchanged for every [d] ms with [0 ≤ d < 500], and at
    [BETWEEN_DELAY_MS] it has been set to the target theme. *)
Theorem flip_timing w d :
  w_alive w = true → pending w = [] → 0 ≤ d < BETWEEN_DELAY_MS →
  w_store (wait d (onClick w)) = w_store w ∧
  w_store (wait BETWEEN_DELAY_MS (onClick w)) =
    store_set (theme_str (next_of (current w))) (w_store w).
Proof.
  destruct w as [s alive [m rs n hs] [t0 p l]]; unfold pending, now; simpl.
  intros -> -> Hd. unfold wait, onClick, fire, run_callback, set_timers, pending, now.
  split; run_timers; done.
Qed.

(** C3: The invariant [inv] is inductive: it holds for a freshly
    rendered component and every environment step preserves it. *)
Theorem toggle_inv_inductive :
  (∀ s t0, inv (world_init s t0)) ∧ (∀ w w', inv w → step w w' → inv w').
Proof. split; [apply inv_init|apply inv_step]. Qed.

(** C4: Teardown safety: once the component is unmounted, whatever the
    environment does afterwards (time passing included), the theme flag
    and the ripple list never change and no timer is left. *)
Theorem teardown_freezes_state w w' :
  reachable w → w_alive w = false → rtc step w w' →
  w_store w' = w_store w ∧ tg_ripples (w_tg w') = tg_ripples (w_tg w) ∧ pending w' = [].
Proof.
  intros Hr Hdead Hs. pose proof (inv_dead _ (reachable_inv w Hr) Hdead) as Hp.
  clear Hr. revert Hdead Hp. induction Hs as [|w1 w2 w3 H12 H23 IH]; intros Hdead Hp; [done|].
  destruct (dead_step w1 w2 Hdead Hp H12) as (Hd2 & Hp2 & E1 & E2).
  destruct (IH Hd2 Hp2) as (-> & -> & ?). done.
Qed.

(** Firing a cleanup timer in a reachable world: the ripple ids before
    are its pair followed by the ids of the other pending timers, and
    those are exactly the ids left afterwards. *)
Lemma fire_cleanup_ids w lim t q a b :
  reachable w → pop_due lim (w_timers w) = Some (t, q) → tm_cb t = CbCleanup a b →
  ripple_ids w ≡ₚ a :: b :: pending_ids (tq_pending q) ∧
  ripple_ids (fire t q w) ≡ₚ pending_ids (tq_pending q).
Proof.
  intros Hr Hpop Hcb. pose proof (reachable_inv w Hr) as [Hd _ Hs _ Hp _].
  apply pop_due_Some in Hpop as (Hperm & _).
  destruct (w_alive w) eqn:Halive.
  2:{ specialize (Hd eq_refl). unfold pending in Hd. rewrite Hd in Hperm.
      by apply Permutation_nil_cons in Hperm. }
  specialize (Hp eq_refl). unfold pending in Hp.
  rewrite (pending_ids_perm _ _ Hperm), pending_ids_cons, Hcb in Hp.
  split; [done|]. unfold fire, run_callback, ripple_ids. rewrite Hcb. simpl.
  apply (fmap_filter_remove_pair rp_id _ [] _ a b); [|done].
  simpl. rewrite <- Hp. by apply increasing_NoDup.
Qed.

(** C5: Cleanup is by id, not by phase: when a cleanup timer for the
    pair [(a, b)] fires, [a] and [b] are distinct, exactly the two
    ripples with these ids are removed, every other ripple (of any other
    activation) stays, and the theme is not touched. *)
Theorem cleanup_removes_own_pair w lim t q a b :
  reachable w → pop_due lim (w_timers w) = Some (t, q) → tm_cb t = CbCleanup a b →
  a ≠ b ∧ ripple_ids w ≡ₚ a :: b :: ripple_ids (fire t q w) ∧
  w_store (fire t q w) = w_store w.
Proof.
  intros Hr Hpop Hcb. destruct (fire_cleanup_ids w lim t q a b Hr Hpop Hcb) as [H1 H2].
  pose proof (reachable_ripples_NoDup w Hr) as Hnd. rewrite H1 in Hnd.
  split; [by intros ->; apply NoDup_cons in Hnd as [[]%not_elem_of_cons _]|].
  split; [by rewrite H2|]. unfold fire, run_callback. by rewrite Hcb.
Qed.

(** C6: A mounted component with no pending timer shows no ripple:
    no overlay outlives its own transition. *)
Theorem quiescent_no_ripples w :
  reachable w → w_alive w = true → pending w = [] → tg_ripples (w_tg w) = [].
Proof.
  intros Hr Ha Hp. apply ripple_ids_nil.
  pose proof (inv_pairs _ (reachable_inv w Hr) Ha) as Hperm. rewrite Hp in Hperm.
  by apply Permutation_nil_r in Hperm.
Qed.

(** C7: Activations are id-disjoint: in every reachable world the live
    ripples have pairwise distinct ids, and so do the ids the pending
    timers will act on, so no two transitions share an id. *)
Theorem activations_id_disjoint w :
  reachable w →
  NoDup (ripple_ids w) ∧ (w_alive w = true → NoDup (pending_ids (pending w))).
Proof.
  intros Hr. pose proof (reachable_ripples_NoDup w Hr) as Hnd. split; [done|].
  intros Ha. by rewrite <- (inv_pairs _ (reachable_inv w Hr) Ha).
Qed.

(** The executable script semantics refines the environment's step
    relation: every run of [run] is a sequence of [step]s, so whatever
    is proved of reachable worlds holds of every scripted execution. *)
Lemma run_refines_step s t0 es : reachable (run (world_init s t0) es).
Proof. exists s, t0. apply run_rtc. Qed.

(** The event loop terminates with enough fuel: after [wait d],
    computed with fuel one more than the weight of the queue, no timer
    due by [now + d] is left and the clock has reached [now + d]. *)
Lemma wait_drains_due_timers w d :
  (∀ u, u ∈ pending (wait d w) → now w + d < tm_due u) ∧ now w + d ≤ now (wait d w).
Proof. unfold wait. apply advance_drains. lia. Qed.

Section WithLaws.
Context `{!ThemeStoreLaws St}.

(** After [setTheme] the mounted component reads back the theme set. *)
Lemma current_after_set (m : bool) s t :
  m = true → current_of m (store_theme (store_set (theme_str t) s))
                (store_resolved (store_set (theme_str t) s)) = t.
Proof. intros ->. unfold current_of. rewrite store_resolved_set. by destruct t. Qed.

(** C8: Two activations less than [BETWEEN_DELAY_MS] apart both
    target the same theme, because the second click still sees the
    old theme: once all timers have run the theme has flipped once,
    not twice, and both transitions have cleaned up after themselves. *)
Theorem double_activation_single_flip w d :
  w_alive w = true → tg_mounted (w_tg w) = true → tg_ripples (w_tg w) = [] →
  pending w = [] → 0 ≤ d < BETWEEN_DELAY_MS →
  let w' := wait (BETWEEN_DELAY_MS + CLEANUP_DELAY_MS) (onClick (wait d (onClick w))) in
  current w' = next_of (current w) ∧ tg_ripples (w_tg w') = [] ∧ pending w' = [].
Proof.
  destruct w as [s alive [m rs n hs] [t0 p l]]; unfold pending, now; simpl.
  intros -> -> -> -> Hd. unfold wait, onClick, fire, run_callback, set_timers, pending, now.
  destruct (decide (d ≤ CLEANUP_DELAY_MS)); run_timers;
    destruct (decide (js_nullish (store_resolved s) (store_theme s) = Some "light"));
    (split; [first [ refine (current_after_set true _ Dark eq_refl)
                   | refine (current_after_set true _ Light eq_refl) ]|]);
    repeat (first [rewrite decide_True by lia | rewrite decide_False by lia]; cbn -[pop_due]);
    done.
Qed.

(** C9: A click in the hydration window (before the mount effect has
    run) always targets the light theme, whatever the stored theme:
    when the page is already light the transition plays and the theme
    stays light, so that click toggles nothing. *)
Theorem click_before_mount_targets_light w :
  w_alive w = true → tg_mounted (w_tg w) = false → pending w = [] →
  store_resolved (w_store (wait CLEANUP_DELAY_MS (wait BETWEEN_DELAY_MS (onClick w))))
    = Some "light".
Proof.
  destruct w as [s alive [m rs n hs] [t0 p l]]; unfold pending, now; simpl.
  intros -> -> ->. unfold wait, onClick, fire, run_callback, set_timers, pending, now.
  run_timers. exact (store_resolved_set Light _).
Qed.

(** C10: Target preview: once mounted, the button previews the theme a
    click switches to, never the current one: when the store resolves
    to "dark" it is labelled "Switch to light theme" and shows the white
    dot, and when it resolves to "light" it is labelled "Switch to dark
    theme" and shows the black dot (the source's comment: black dot
    means "switch to dark", white dot means "switch to light"). *)
Theorem target_preview (s : St) :
  (store_resolved s = Some "dark" →
   render_button true (current_of true (store_theme s) (store_resolved s)) =
     mkButtonView "Switch to light theme" DotWhite 50) ∧
  (store_resolved s = Some "light" →
   render_button true (current_of true (store_theme s) (store_resolved s)) =
     mkButtonView "Switch to dark theme" DotBlack 50).
Proof. split; intros Hr; unfold current_of; by rewrite Hr. Qed.
End WithLaws.
End Proofs.

(** ** Rendering and geometry *)

(** Before the mount effect the button renders the same way for
    every store value (label "Switch theme", white dot), but that white
    dot is exactly the mounted button's "switch to light" dot: the
    placeholder is not a neutral icon. *)
Theorem placeholder_matches_light_target (theme resolved : option string) :
  render_button false (current_of false theme resolved) = mkButtonView "Switch theme" DotWhite 50 ∧
  bv_dot (render_button true Dark) = DotWhite.
Proof. done. Qed.

(** The address bar keeps the colour of the operating system's scheme
    when the toggle sets the site's theme, and that colour is never the
    page colour the ripple paints. *)
Lemma address_bar_ignores_toggle (s : NextThemes) (t : ThemeName) sys :
  nt_system s = Some sys →
  address_bar_color (store_set (theme_str t) s) = Some (viewport_themeColor sys) ∧
  store_resolved (store_set (theme_str t) s) = Some (theme_str t) ∧
  ∀ t', viewport_themeColor sys ≠ PAGE_COLOR t'.
Proof.
  intros Hs. unfold address_bar_color. cbn [store_set store_resolved NextThemes_store nt_event].
  rewrite nt_apply_system, nt_apply_resolved. simpl. rewrite Hs.
  split_and!; [done|by destruct t|by destruct sys, t'].
Qed.


(** At the end of the cover animation the circle of radius 150vmax
    centred on the top-right corner covers every viewport: its far corner
    is at most √2·100 < 150 vmax away. *)
Lemma cover_completes_covers (vw vh : Z) :
  0 ≤ vw ≤ 100 → 0 ≤ vh ≤ 100 → covers_viewport COVER_DURATION_MS vw vh = true.
Proof.
  intros Hw Hh. unfold covers_viewport, cover_radius_scaled, COVER_DURATION_MS.
  apply bool_decide_eq_true. rewrite Z.min_id, Z.max_r by lia. nia.
Qed.

(** The circle's radius at the flip does not reach the far corner of a
    full-width viewport at least 58% as tall as wide. *)
Lemma flip_precedes_full_cover (vh : Z) :
  58 ≤ vh ≤ 100 →
  BETWEEN_DELAY_MS < COVER_DURATION_MS ∧ covers_viewport BETWEEN_DELAY_MS 100 vh = false.
Proof.
  intros Hh. unfold covers_viewport, cover_radius_scaled, BETWEEN_DELAY_MS, COVER_DURATION_MS.
  split; [lia|]. apply bool_decide_eq_false. rewrite Z.min_l, Z.max_r by lia. nia.
Qed.

(** C11: the cover ripple's geometry: at the end of its
    [COVER_DURATION_MS = 650] ms animation the circle of radius 150vmax
    centred on the top-right corner covers every viewport (its far corner
    is at most √2·100 < 150 vmax away), but the theme flips earlier, at
    [BETWEEN_DELAY_MS = 500] ms, when the radius is 150·500/650 ≈ 115vmax
    and does not yet reach the far corner of a full-width viewport whose
    height is at least 58% of its width (16:10, 4:3, square): there the
    flip is visible. *)
Theorem cover_geometry :
  (∀ vw vh, 0 ≤ vw ≤ 100 → 0 ≤ vh ≤ 100 → covers_viewport COVER_DURATION_MS vw vh = true) ∧
  BETWEEN_DELAY_MS < COVER_DURATION_MS ∧
  (∀ vh, 58 ≤ vh ≤ 100 → covers_viewport BETWEEN_DELAY_MS 100 vh = false).
Proof.
  split_and!; [exact cover_completes_covers| |intros vh Hvh; exact (proj2 (flip_precedes_full_cover vh Hvh))].
  unfold BETWEEN_DELAY_MS, COVER_DURATION_MS. lia.
Qed.

(** ** Witnesses: the theorems applied to concrete components *)

Section Witnesses.

Lemma single_activation_lifecycle_witness :
  w_alive ex_mounted = true ∧ tg_ripples (w_tg ex_mounted) = [] ∧ pending ex_mounted = [] ∧
  let c := PAGE_COLOR (next_of (current ex_mounted)) in
  let n := tg_seq (w_tg ex_mounted) in
  let w1 := onClick ex_mounted in
  let w2 := wait BETWEEN_DELAY_MS w1 in
  let w3 := wait CLEANUP_DELAY_MS w2 in
  tg_ripples (w_tg w1) = [mkRipple (S n) Cover c RIPPLE_CX RIPPLE_CY] ∧
  w_store w1 = w_store ex_mounted ∧
  tg_ripples (w_tg w2) = [mkRipple (S n) Cover c RIPPLE_CX RIPPLE_CY;
                          mkRipple (S (S n)) Reveal c RIPPLE_CX RIPPLE_CY] ∧
  w_store w2 = store_set (theme_str (next_of (current ex_mounted))) (w_store ex_mounted) ∧
  tg_ripples (w_tg w3) = [] ∧ pending w3 = [] ∧ w_store w3 = w_store w2.
Proof.
  split; [reflexivity|]. split; [reflexivity|]. split; [reflexivity|].
  apply single_activation_lifecycle; reflexivity.
Defined.

Lemma flip_timing_witness :
  w_alive ex_mounted = true ∧ pending ex_mounted = [] ∧ 0 ≤ 100 < BETWEEN_DELAY_MS ∧
  w_store (wait 100 (onClick ex_mounted)) = w_store ex_mounted ∧
  w_store (wait BETWEEN_DELAY_MS (onClick ex_mounted)) =
    store_set (theme_str (next_of (current ex_mounted))) (w_store ex_mounted).
Proof.
  split; [reflexivity|]. split; [reflexivity|]. split; [unfold BETWEEN_DELAY_MS; lia|].
  apply flip_timing; [reflexivity|reflexivity|unfold BETWEEN_DELAY_MS; lia].
Defined.


Lemma teardown_freezes_state_witness :
  let w' := run ex_torn_down [EvWait 1000; EvClick] in
  reachable ex_torn_down ∧ w_alive ex_torn_down = false ∧ rtc step ex_torn_down w' ∧
  w_store w' = w_store ex_torn_down ∧
  tg_ripples (w_tg w') = tg_ripples (w_tg ex_torn_down) ∧ pending w' = [].
Proof.
  assert (reachable ex_torn_down) as Hr by (exists ex_dark, 0; apply run_rtc).
  split; [done|]. split; [reflexivity|]. split; [apply run_rtc|].
  apply teardown_freezes_state; [done|reflexivity|apply run_rtc].
Defined.


Lemma cleanup_removes_own_pair_witness :
  ∃ t q, reachable ex_revealed ∧ pop_due 560 (w_timers ex_revealed) = Some (t, q) ∧
    tm_cb t = CbCleanup 1 2 ∧
    1%nat ≠ 2%nat ∧ ripple_ids ex_revealed ≡ₚ 1%nat :: 2%nat :: ripple_ids (fire t q ex_revealed) ∧
    w_store (fire t q ex_revealed) = w_store ex_revealed.
Proof.
  destruct (pop_due 560 (w_timers ex_revealed)) as [[t q]|] eqn:E;
    [|vm_compute in E; discriminate].
  assert (tm_cb t = CbCleanup 1 2) as Hcb.
  { vm_compute in E. injection E as <- <-. reflexivity. }
  assert (reachable ex_revealed) as Hr by (exists ex_dark, 0; apply run_rtc).
  exists t, q. split; [done|]. split; [done|]. split; [done|].
  exact (cleanup_removes_own_pair ex_revealed 560 t q 1 2 Hr E Hcb).
Defined.


Lemma quiescent_no_ripples_witness :
  reachable ex_settled ∧ w_alive ex_settled = true ∧ pending ex_settled = [] ∧
  tg_ripples (w_tg ex_settled) = [].
Proof.
  assert (reachable ex_settled) as Hr by (exists ex_dark, 0; apply run_rtc).
  split; [done|]. split; [reflexivity|]. split; [vm_compute; reflexivity|].
  apply quiescent_no_ripples; [done|reflexivity|vm_compute; reflexivity].
Defined.


Lemma activations_id_disjoint_witness :
  reachable ex_overlapping ∧ NoDup (ripple_ids ex_overlapping) ∧
  (w_alive ex_overlapping = true → NoDup (pending_ids (pending ex_overlapping))).
Proof.
  assert (reachable ex_overlapping) as Hr by (exists ex_dark, 0; apply run_rtc).
  split; [done|]. by apply activations_id_disjoint.
Defined.

Lemma double_activation_single_flip_witness :
  w_alive ex_mounted = true ∧ tg_mounted (w_tg ex_mounted) = true ∧
  tg_ripples (w_tg ex_mounted) = [] ∧ pending ex_mounted = [] ∧ 0 ≤ 100 < BETWEEN_DELAY_MS ∧
  let w' := wait (BETWEEN_DELAY_MS + CLEANUP_DELAY_MS) (onClick (wait 100 (onClick ex_mounted))) in
  current w' = next_of (current ex_mounted) ∧ tg_ripples (w_tg w') = [] ∧ pending w' = [].
Proof.
  do 4 (split; [reflexivity|]). split; [unfold BETWEEN_DELAY_MS; lia|].
  apply double_activation_single_flip;
    [reflexivity|reflexivity|reflexivity|reflexivity|unfold BETWEEN_DELAY_MS; lia].
Defined.

Lemma click_before_mount_targets_light_witness :
  let w := world_init ex_light 0 in
  w_alive w = true ∧ tg_mounted (w_tg w) = false ∧ pending w = [] ∧
  store_resolved (w_store (wait CLEANUP_DELAY_MS (wait BETWEEN_DELAY_MS (onClick w))))
    = Some "light".
Proof.
  do 3 (split; [reflexivity|]).
  apply click_before_mount_targets_light; reflexivity.
Defined.

Lemma target_preview_witness :
  store_resolved ex_dark = Some "dark" ∧
  render_button true (current_of true (store_theme ex_dark) (store_resolved ex_dark)) =
    mkButtonView "Switch to light theme" DotWhite 50.
Proof. split; [reflexivity|]. apply (proj1 (target_preview ex_dark)). reflexivity. Defined.


End Witnesses.
