(* ===== verification/Projects.v ===== *)
(** * Projects: the project records of src/data/projects.ts

    The gallery of the home page and the page [/projects/[slug]] both
    read the array [projects]. A [Project] is a record with the fields of
    the TypeScript type; the icon component is an element of
    [HeroIcon], the Heroicons the repository imports. Optional fields
    ([results], [links], [github], [demo]) are options. The data is
    copied field by field, strings as their UTF-8 bytes. *)

From Stdlib Require Import Ascii.
From stdpp Require Import base list sets strings.
From S2P Require Import Prelude JsString.

(** The Heroicons (outline, 24px) the repository uses. *)
Inductive HeroIcon :=
  | CommandLineIcon | CpuChipIcon | ChatBubbleLeftRightIcon | BeakerIcon
  | RocketLaunchIcon | BoltIcon | SparklesIcon | PuzzlePieceIcon | LightBulbIcon
  | ArrowDownIcon.

#[export] Instance HeroIcon_eq_dec : EqDecision HeroIcon.
Proof. solve_decision. Defined.

(** [type Tone] *)
Inductive Tone := Lavender | PastelBlue | Phthalo | Lime | PastelRed | White | Dark.

#[export] Instance Tone_eq_dec : EqDecision Tone.
Proof. solve_decision. Defined.

Record Links := mkLinks { github : option string; demo : option string }.

Record Details := mkDetails {
  overview : string;
  highlights : list string;
  results : option (list string);
  links : option Links;
}.

(** [type Project] *)
Record Project := mkProject {
  slug : string;
  title : string;
  blurb : string;
  tone : Tone;
  icon : HeroIcon;
  stack : list string;
  details : Details;
}.

(** The five entries of [projects], in order. *)
Definition project_skipscout : Project :=
  mkProject "skipscout" "SkipScout"
    "Chrome extension that extracts YouTube transcripts and runs local LLM summarization & Q&A via Ollama—privacy-first and fast."
    Lavender CommandLineIcon ["Chrome MV3"; "TypeScript"; "Ollama"; "LLM"; "Vite"]
    (mkDetails
      "Manifest V3 extension that fetches/scrapes transcripts, summarizes, and answers questions using locally hosted LLMs (Gemma/Qwen) through Ollama—no data leaves your machine."
      ["Content scripts + service worker + declarativeNetRequest";
       "Robust transcript extraction (DOM or timedtext API)";
       "Summarization & Q&A pipelines with caching and prompts";
       "Responsive panel UI with FAB & tooltips"]
      (Some ["~2–3s local response"; "Privacy-first, low latency"])
      (Some (mkLinks (Some "https://github.com/your/skipscout") None))).

Definition project_gan_detector : Project :=
  mkProject "gan-detector" "GAN/CNN Image Detector"
    "EfficientNetV2 + GAN discriminators to classify AI-generated vs real images; tuned for accuracy, cost, and latency."
    PastelBlue CpuChipIcon ["PyTorch"; "timm"; "Python"]
    (mkDetails
      "Trained multiple architectures (EfficientNetV2, StyleGAN/ProGAN discriminators) on a 10k+ image dataset to detect synthetic imagery."
      ["Transfer learning, dropout, heavy augmentation";
       "Evaluation with ROC/AUC, PR curves and confusion matrices"]
      (Some ["97% acc · 0.973 F1 · 0.997 AUC (EffNetV2)"])
      (Some (mkLinks (Some "https://github.com/your/gan-detector") None))).

Definition project_interviewmate : Project :=
  mkProject "interviewmate" "InterviewMate"
    "AI-powered interview automation with Whisper STT, HeyGen avatars, and cosine-similarity scoring for explainable feedback."
    Phthalo RocketLaunchIcon ["React"; "Node"; "MongoDB"; "Whisper"; "HeyGen"]
    (mkDetails
      "End-to-end interview system with real-time transcription, avatar-led prompts, and transparent response scoring."
      ["React frontend + Node backend (REST)";
       "Auth, scheduling, session persistence";
       "Cosine-similarity scoring with rationales"]
      None None).

Definition project_pv_signal : Project :=
  mkProject "pv-signal" "AI PV Reporting"
    "FAERS/MedDRA analytics with PRR/ROR + CIs, dashboards, and LLM insights to surface adverse-event signals."
    Lime BeakerIcon ["Python"; "DuckDB"; "Pandas"; "Altair"; "Ollama"]
    (mkDetails
      "Built a full pipeline: ETL JSON→Parquet, signal detection (PRR/ROR with continuity correction), and interactive dashboards."
      ["DuckDB + Parquet for fast local analytics";
       "Altair dashboards & Ag-Grid explorer";
       "LLM notes via Gemma (Ollama)"]
      None None).

Definition project_pharmaai : Project :=
  mkProject "pharmaai" "PharmaAI"
    "Local, privacy-preserving RAG for medication info—Gemma 3 + sentence embeddings; accurate and fast on consumer hardware."
    PastelRed ChatBubbleLeftRightIcon ["Ollama"; "Embeddings"; "RAG"; "Streamlit"; "Docker"]
    (mkDetails
      "RAG answers grounded in a curated medication DB; designed for offline/local use with low energy footprint."
      ["Sentence-embedding search + context packing";
       "Prompt templates to reduce hallucinations";
       "Streamlit conversational UI; Dockerized"]
      (Some ["92% response accuracy · ~2.8s median latency · 3% hallucination"])
      None).

(** [export const projects: Project[]] *)
Definition projects : list Project :=
  [project_skipscout; project_gan_detector; project_interviewmate; project_pv_signal; project_pharmaai].

(** [projects.find((p) => p.slug === slug)]: the first project whose
    slug is [s]. *)
Fixpoint find_project (ps : list Project) (s : string) : option Project :=
  match ps with
  | [] => None
  | p :: ps' => if String.eqb (slug p) s then Some p else find_project ps' s
  end.

(** The data constraints React and the router rely on: slugs are unique
    (they are the [key] of the gallery cards and the route parameter),
    and within a project the highlights, the results and the stack
    entries are unique (each is the [key] of its list item). *)
Definition keys_unique (p : Project) : Prop :=
  NoDup (highlights (details p)) ∧ NoDup (default [] (results (details p))) ∧ NoDup (stack p).

#[export] Instance keys_unique_dec p : Decision (keys_unique p).
Proof. unfold keys_unique. apply _. Defined.

(** ** Lemmas *)

Lemma find_project_Some ps s p :
  find_project ps s = Some p → p ∈ ps ∧ slug p = s.
Proof.
  induction ps as [|q ps IH]; simpl; [done|].
  destruct (String.eqb (slug q) s) eqn:E; intros H.
  - simplify_eq. apply String.eqb_eq in E. split; [left|done].
  - destruct (IH H) as [Hin ->]. split; [by right|done].
Qed.

Lemma find_project_None ps s : find_project ps s = None ↔ s ∉ slug <$> ps.
Proof.
  induction ps as [|q ps IH]; simpl; [split; [set_solver|done]|].
  destruct (String.eqb (slug q) s) eqn:E.
  - apply String.eqb_eq in E. split; [done|]. intros Hn. destruct Hn. rewrite <- E. left.
  - apply String.eqb_neq in E. rewrite IH, elem_of_cons. naive_solver.
Qed.

(** With unique slugs, looking a project's slug up finds that project. *)
Lemma find_project_slug ps p :
  NoDup (slug <$> ps) → p ∈ ps → find_project ps (slug p) = Some p.
Proof.
  induction ps as [|q ps IH]; simpl; intros Hnd Hin; [set_solver|].
  apply NoDup_cons in Hnd as [Hq Hnd].
  destruct (String.eqb (slug q) (slug p)) eqn:E.
  - apply String.eqb_eq in E. apply elem_of_cons in Hin as [->|Hin]; [done|].
    destruct Hq. rewrite E. by apply list_elem_of_fmap_2.
  - apply elem_of_cons in Hin as [->|Hin]; [by rewrite String.eqb_refl in E|].
    by apply IH.
Qed.

Lemma projects_slugs_NoDup : NoDup (slug <$> projects).
Proof. apply (bool_decide_unpack _). vm_compute. reflexivity. Qed.

Lemma projects_keys_unique : Forall keys_unique projects.
Proof. apply (bool_decide_unpack _). vm_compute. reflexivity. Qed.

(** Every slug is a non-empty path segment without [/] that
    [encodeURIComponent] leaves unchanged. *)
Lemma projects_slugs_routable :
  Forall (λ p, slug p ≠ "" ∧ str_has "/"%char (slug p) = false ∧
               encodeURIComponent (slug p) = slug p) projects.
Proof. repeat constructor; (vm_compute; reflexivity || discriminate). Qed.

(** ** Properties *)

(** The project data satisfies what the router and React rely on:
    slugs are unique, the keys of every list a project page renders
    (highlights, results, stack) are unique, and every slug is a
    non-empty URL path segment without [/] that [encodeURIComponent]
    leaves unchanged, so the gallery's [/projects/${slug}] reaches the
    page with the same slug. *)
Lemma projects_wellformed :
  NoDup (slug <$> projects) ∧ Forall keys_unique projects ∧
  Forall (λ p, slug p ≠ "" ∧ str_has "/"%char (slug p) = false ∧
               encodeURIComponent (slug p) = slug p) projects.
Proof.
  split_and!; [apply projects_slugs_NoDup|apply projects_keys_unique|apply projects_slugs_routable].
Qed.
