(* ===== verification/ProjectPage.v ===== *)
(** * ProjectPage: the page [/projects/[slug]]

    src/app/projects/[slug]/page.tsx looks the slug up in [projects],
    draws three decorative icons from [ICON_POOL] without replacement by
    splicing a copy of the pool, gives each a position of [TRI_POS], a
    size [rnd(28, 96)] and a jiggle duration [3 + Math.random() * 1.5],
    and renders the title pill in the project's tone, the details pill
    and the stack pill; an unknown slug is [notFound()].

    The memo callback's hidden state is [Mem]: how many
    [Math.random()] draws were made and the copy [pool] the closure
    [sample] mutates. It runs in the state monad of the prelude; the
    sequence of random numbers is the function [random], the n-th draw
    being [random n]. The sizes and durations are double arithmetic:
    each operation's exact result is rounded by [fl] (JsNumber), so that
    [Math.round(28 + Math.random() * 68)] and [3 + Math.random() * 1.5]
    are computed as the browser does. The hooks run before the
    [notFound()] test, so an unknown slug draws too. *)

From Stdlib Require Import QArith Qround Lqa.
From stdpp Require Import base list sets strings.
From S2P Require Import Prelude JsNumber Projects.

(** The object [toneStyle] returns. *)
Record ToneStyle := mkToneStyle { ts_bg : string; ts_text : string; ts_border : string }.

(** [toneStyle(tone)]; its [default] branch is unreachable for a [Tone]. *)
Definition toneStyle (t : Tone) : ToneStyle :=
  match t with
  | White => mkToneStyle "var(--card-white)" "#0a0a0b" "rgba(10,10,11,.12)"
  | Dark => mkToneStyle "var(--card-dark)" "white" "rgba(255,255,255,.10)"
  | Lime => mkToneStyle "var(--card-lime)" "#0a0a0b" "rgba(10,10,11,.12)"
  | Lavender => mkToneStyle "var(--card-lavender)" "#0a0a0b" "rgba(10,10,11,.12)"
  | PastelBlue => mkToneStyle "var(--card-pastel-blue)" "#0a0a0b" "rgba(10,10,11,.12)"
  | Phthalo => mkToneStyle "var(--card-phthalo)" "white" "rgba(255,255,255,.10)"
  | PastelRed => mkToneStyle "var(--card-pastel-red)" "#0a0a0b" "rgba(255,105,97,.12)"
  end.

(** [fadeUp(delay)]: from [initial] to [animate] in half a second. *)
Record FadeUp := mkFadeUp {
  fu_opacity : Q * Q; fu_y : Z * Z; fu_filter : string * string;
  fu_duration : Q; fu_ease : string; fu_delay : Q;
}.

Definition fadeUp (delay : Q) : FadeUp :=
  mkFadeUp (0, 1)%Q (14, 0)%Z ("blur(3px)", "blur(0px)") (1#2) "easeOut" delay.

Definition ICON_POOL : list HeroIcon :=
  [BoltIcon; CpuChipIcon; BeakerIcon; CommandLineIcon; RocketLaunchIcon;
   SparklesIcon; PuzzlePieceIcon; LightBulbIcon].

Record TriPos := mkTriPos { tp_top : string; tp_right : string }.

Definition TRI_POS : list TriPos :=
  [mkTriPos "10%" "7%"; mkTriPos "26%" "15%"; mkTriPos "38%" "9%"].

(** [arr.splice(start, 1)]: the removed element ([None] for [undefined]
    when [start] is past the end) and what is left; a negative [start]
    counts from the end. *)
Definition splice1 {A} (l : list A) (start : Z) : option A * list A :=
  let len := Z.of_nat (length l) in
  let s := Z.to_nat (if decide (start < 0)%Z then Z.max (len + start) 0 else Z.min start len) in
  (l !! s, delete s l).

(** ** The memo [triangleIcons] *)

Record Mem := mkMem { m_draws : nat; m_pool : list HeroIcon }.

Section Draws.
Variable random : nat → Q.
(** The rounding of a double operation's exact result. *)
Variable fl : Q → Q.

(** [Math.random()] *)
Definition draw : State Mem Q :=
  λ m, (random (m_draws m), mkMem (S (m_draws m)) (m_pool m)).

(** [const pool = [...ICON_POOL]] *)
Definition copy_pool : State Mem unit := λ m, (tt, mkMem (m_draws m) ICON_POOL).

Definition pool_length : State Mem nat := λ m, (length (m_pool m), m).

Definition pool_splice (start : Z) : State Mem (option HeroIcon) :=
  λ m, let '(x, l) := splice1 (m_pool m) start in (x, mkMem (m_draws m) l).

Local Open Scope portfolio_scope.

(** [pool.splice(Math.floor(Math.random() * pool.length), 1)[0]] *)
Definition sample_one : State Mem (option HeroIcon) :=
  r <- draw;; len <- pool_length;; pool_splice (scaled_index r len).

(** [sample(n)] *)
Definition sample (n : nat) : State Mem (list (option HeroIcon)) := st_replicate n sample_one.

(** [rnd(min, max)] *)
Definition rnd (min max : Z) : State Mem Z :=
  r <- draw;; st_ret (js_round (fl (inject_Z min + fl (r * inject_Z (max - min))))).

Record TriIcon := mkTriIcon {
  ti_icon : option HeroIcon; ti_pos : option TriPos; ti_size : Z; ti_duration : Q;
}.

(** The callback of [picked.map]: the size is drawn before the duration. *)
Definition tri_icon (ic : option HeroIcon) (i : nat) : State Mem TriIcon :=
  size <- rnd 28 96;; d <- draw;; st_ret (mkTriIcon ic (TRI_POS !! i) size (fl (3 + fl (d * (3#2))))).

Definition triangleIcons : State Mem (list TriIcon) :=
  _ <- copy_pool;; picked <- sample 3;; st_mapi_from tri_icon 0 picked.

End Draws.

(** ** Rendering *)

(** A decorative icon: [top], [right], [color], width and height,
    duration. [pos.top] on an undefined [pos] throws. *)
Record IconView := mkIconView {
  iv_icon : option HeroIcon; iv_top : string; iv_right : string; iv_color : string;
  iv_size : Z; iv_duration : Q;
}.

Definition render_tri (color : string) (t : TriIcon) : option IconView :=
  (λ pos, mkIconView (ti_icon t) (tp_top pos) (tp_right pos) color (ti_size t) (ti_duration t))
    <$> ti_pos t.

(** A [<li key={k}>• {k}</li>] or a chip [<span key={t}>{t}</span>]: its
    key and its text. *)
Definition bullet (s : string) : string * string := (s, "• " +:+ s).

(** [a && <Link ...>]: a string is truthy when it is not empty. *)
Definition js_truthy (o : option string) : bool :=
  match o with Some s => negb (String.eqb s "") | None => false end.

Definition link_if (o : option string) (label : string) : list (string * string) :=
  match o with Some h => if js_truthy o then [(h, label)] else [] | None => [] end.

(** [proj.details.links?.github && ...] and [?.demo && ...] *)
Definition project_links (d : Details) : list (string * string) :=
  link_if (links d ≫= github) "GitHub" ++ link_if (links d ≫= demo) "Live demo".

Record ProjectView := mkProjectView {
  pv_title : string;
  pv_style : ToneStyle;
  pv_icons : list IconView;
  pv_overview : string;
  pv_highlights : list (string * string);
  pv_results : option (list (string * string));
  pv_links : list (string * string);
  pv_stack : list (string * string);
  pv_back : string;
  pv_fades : list Q;
}.

Inductive PageResult := NotFound | Rendered (v : ProjectView) | Threw.

Definition render_project (p : Project) (icons : list TriIcon) : PageResult :=
  let sty := toneStyle (tone p) in
  match mapM (render_tri (ts_text sty)) icons with
  | None => Threw
  | Some ivs =>
      Rendered (mkProjectView (title p) sty ivs (overview (details p))
        (bullet <$> highlights (details p)) ((λ rs : list string, bullet <$> rs) <$> results (details p))
        (project_links (details p)) ((λ t : string, (t, t)) <$> stack p) "/#projects"
        (fu_delay <$> [fadeUp 0; fadeUp (12#100); fadeUp (24#100)]))
  end.

(** [ProjectPage({ params })] for the slug [s], with [m] the draws made
    before. *)
Definition ProjectPage (random : nat → Q) (fl : Q → Q) (ps : list Project) (s : string) :
    State Mem PageResult :=
  λ m,
    let proj := find_project ps s in
    let '(icons, m') := triangleIcons random fl m in
    (match proj with None => NotFound | Some p => render_project p icons end, m').

(** A sequence of [Math.random()] results for the examples. *)
Definition ex_random (n : nat) : Q := Qmake (Z.of_nat (n mod 5)) 5.

(** ** Lemmas *)

Lemma splice1_in_range {A} (l : list A) (k : Z) :
  (0 <= k < Z.of_nat (length l))%Z →
  splice1 l k = (l !! Z.to_nat k, delete (Z.to_nat k) l).
Proof.
  intros Hk. unfold splice1. rewrite decide_False by lia.
  by rewrite Z.min_l by lia.
Qed.

Section DrawLemmas.
Variable random : nat → Q.
Hypothesis random_range : ∀ n, (0 <= random n < 1)%Q.
Variable fl : Q → Q.

(** One [splice] of a non-empty pool removes one of its elements. *)
Lemma sample_one_spec (m : Mem) :
  m_pool m ≠ [] →
  ∃ x pool', sample_one random m = (Some x, mkMem (S (m_draws m)) pool') ∧
    m_pool m ≡ₚ x :: pool'.
Proof.
  intros Hne. destruct m as [k pool]; simpl in *.
  assert (0 < length pool)%nat by (destruct pool; [done|simpl; lia]).
  pose proof (scaled_index_range (random k) (length pool) (random_range k) ltac:(lia)) as Hi.
  unfold sample_one, st_bind, draw, pool_length, pool_splice; cbn [m_draws m_pool].
  rewrite splice1_in_range by done.
  destruct (lookup_lt_is_Some_2 pool (Z.to_nat (scaled_index (random k) (length pool))))
    as [x Hx]; [lia|].
  rewrite Hx. eexists _, _. split; [reflexivity|]. by apply delete_Permutation.
Qed.

(** [sample(n)] with [n] at most the pool's size draws [n] distinct
    elements of the pool: what it returns and what is left are a
    permutation of the pool. *)
Lemma sample_spec (n : nat) (m : Mem) :
  (n <= length (m_pool m))%nat →
  ∃ xs pool', sample random n m = (Some <$> xs, mkMem (m_draws m + n) pool') ∧
    length xs = n ∧ m_pool m ≡ₚ xs ++ pool'.
Proof.
  revert m. induction n as [|n IH]; intros m Hn.
  - exists [], (m_pool m). rewrite Nat.add_0_r. by destruct m.
  - destruct (sample_one_spec m) as (x & pool' & Hs & Hp); [by intros Hm; rewrite Hm in Hn; simpl in Hn; lia|].
    destruct (IH (mkMem (S (m_draws m)) pool')) as (xs & pool'' & Hs' & Hl & Hp'); simpl.
    { apply Permutation_length in Hp. simpl in Hp. lia. }
    exists (x :: xs), pool''. unfold sample in *; simpl. unfold st_bind at 1. rewrite Hs.
    unfold st_bind at 1. simpl in Hs'. rewrite Hs'. split_and!.
    + f_equal. f_equal. lia.
    + simpl. lia.
    + rewrite Hp. simpl. by rewrite Hp'.
Qed.
(** The [map] over the picked icons: two draws per icon, the [i]-th
    icon at [TRI_POS[i]]. *)
Lemma mapi_tri_icon (i : nat) (xs : list HeroIcon) (m : Mem) :
  st_mapi_from (tri_icon random fl) i (Some <$> xs) m =
  (imap (λ j x, mkTriIcon (Some x) (TRI_POS !! (i + j)%nat)
           (js_round (fl (inject_Z 28 + fl (random (m_draws m + 2 * j) * inject_Z (96 - 28)))))
           (fl (3 + fl (random (S (m_draws m + 2 * j)) * (3#2))))) xs,
   mkMem (m_draws m + 2 * length xs) (m_pool m)).
Proof.
  revert i m. induction xs as [|x xs IH]; intros i m.
  - simpl. rewrite Nat.add_0_r. by destruct m.
  - cbn [fmap list_fmap st_mapi_from].
    unfold tri_icon, st_bind, rnd, draw, st_ret; cbn -[js_round st_mapi_from TRI_POS].
    rewrite IH. cbn -[js_round TRI_POS]. f_equal; [f_equal|f_equal; lia].
    + by rewrite !Nat.add_0_r.
    + apply imap_ext. intros j y _. cbn -[js_round TRI_POS]. repeat f_equal; lia.
Qed.

(** The memo draws three distinct icons of the pool, puts them at the
    three [TRI_POS] and draws a size and a duration for each. *)
Lemma triangleIcons_spec (m : Mem) :
  ∃ a b c rest, [a; b; c] ++ rest ≡ₚ ICON_POOL ∧
    let k := m_draws m in
    triangleIcons random fl m =
      ([mkTriIcon (Some a) (TRI_POS !! 0%nat)
          (js_round (fl (inject_Z 28 + fl (random (k + 3 + 0) * inject_Z (96 - 28)))))
          (fl (3 + fl (random (S (k + 3 + 0)) * (3#2))));
        mkTriIcon (Some b) (TRI_POS !! 1%nat)
          (js_round (fl (inject_Z 28 + fl (random (k + 3 + 2) * inject_Z (96 - 28)))))
          (fl (3 + fl (random (S (k + 3 + 2)) * (3#2))));
        mkTriIcon (Some c) (TRI_POS !! 2%nat)
          (js_round (fl (inject_Z 28 + fl (random (k + 3 + 4) * inject_Z (96 - 28)))))
          (fl (3 + fl (random (S (k + 3 + 4)) * (3#2))))],
       mkMem (k + 9) rest).
Proof.
  destruct (sample_spec 3 (mkMem (m_draws m) ICON_POOL)) as (xs & rest & Hs & Hl & Hp);
    [simpl; lia|].
  destruct xs as [|a [|b [|c [|]]]]; simpl in Hl; try lia.
  exists a, b, c, rest. split; [by symmetry|]. cbn zeta.
  unfold triangleIcons, st_bind at 1, copy_pool. cbn [m_draws].
  unfold st_bind at 1. rewrite Hs, mapi_tri_icon. cbn [m_draws m_pool].
  f_equal. f_equal. simpl. lia.
Qed.

Lemma ICON_POOL_NoDup : NoDup ICON_POOL.
Proof. apply (bool_decide_unpack _). vm_compute. reflexivity. Qed.

End DrawLemmas.

(** The page of a listed project renders it. *)
Lemma ProjectPage_found random (Hr : ∀ n, (0 <= random n < 1)%Q) fl (m : Mem) (p : Project) :
  p ∈ projects →
  ∃ v m', ProjectPage random fl projects (slug p) m = (Rendered v, m') ∧
    pv_title v = title p ∧ pv_style v = toneStyle (tone p) ∧ length (pv_icons v) = 3 ∧
    Forall (λ iv, iv_color iv = ts_text (toneStyle (tone p))) (pv_icons v) ∧
    pv_links v = project_links (details p) ∧ pv_back v = "/#projects".
Proof.
  intros Hp. unfold ProjectPage.
  rewrite (find_project_slug _ _ projects_slugs_NoDup Hp).
  destruct (triangleIcons_spec random Hr fl m) as (a & b & c & rest & _ & ->).
  eexists _, _. split; [reflexivity|]. split_and!; [done..| |done|done].
  repeat constructor.
Qed.

(** ** Properties *)

Section PageProperties.
Variable random : nat → Q.
Hypothesis random_range : ∀ n, (0 <= random n < 1)%Q.
Variable fl : Q → Q.
Hypothesis fl_laws : RoundingLaws fl.

(** [3 + Math.random() * 1.5] in doubles lies in [[3, 4.5]]. *)
Lemma duration_range (r : Q) : (0 <= r < 1)%Q → (3 <= fl (3 + fl (r * (3#2))) <= 9#2)%Q.
Proof.
  intros Hr.
  assert (∀ q m, (q == inject_Z m / 2)%Q → (Z.abs m <= 2 ^ 53)%Z → (fl q == q)%Q) as Hh
    by (intros; by eapply fl_half_q).
  assert (fl 0 == 0 ∧ fl (3#2) == 3#2 ∧ fl 3 == 3 ∧ fl (3 + (3#2)) == 3 + (3#2))%Q as (H0 & H1 & H2 & H3).
  { split_and!; [apply (Hh _ 0%Z)|apply (Hh _ 3%Z)|apply (Hh _ 6%Z)|apply (Hh _ 9%Z)]; reflexivity || lia. }
  by destruct (fl_affine_range fl fl_laws 3 (3#2) r).
Qed.

(** Every icon's size is [rnd(28, 96)], between 28 and 96 pixels, and
    its jiggle lasts between 3 and 4.5 seconds, 4.5 included: the
    rounding of [3 + Math.random() * 1.5] can reach it. *)
Lemma triangle_icons_bounds (m : Mem) ts m' :
  triangleIcons random fl m = (ts, m') →
  Forall (λ t, (28 <= ti_size t <= 96)%Z ∧ (3 <= ti_duration t <= 9#2)%Q) ts.
Proof.
  destruct (triangleIcons_spec random random_range fl m) as (a & b & c & rest & _ & ->).
  intros [= <- _].
  repeat constructor; cbn [ti_size ti_duration fst];
    first [ apply (js_round_fl_range fl fl_laws); [lia|lia|apply random_range]
          | apply duration_range, random_range ].
Qed.

(** C24: the decorative icons of a project page are three distinct icons
    of [ICON_POOL] (the splice draws without replacement), placed at the
    three positions of [TRI_POS] in order, each between 28 and 96 pixels
    wide and jiggling for 3 to 4.5 seconds; the memo makes nine draws.
    The sizes and durations are computed in doubles: each operation's
    exact result is rounded by [fl], any rounding with the laws of
    rounding to nearest, so the 4.5 s end is included. *)
Theorem triangle_icons_distinct (m : Mem) :
  let '(ts, m') := triangleIcons random fl m in
  length ts = 3 ∧ NoDup (ti_icon <$> ts) ∧
  Forall (λ t, ∃ ic, ti_icon t = Some ic ∧ ic ∈ ICON_POOL) ts ∧
  ti_pos <$> ts = Some <$> TRI_POS ∧ m_draws m' = (m_draws m + 9)%nat ∧
  Forall (λ t, (28 <= ti_size t <= 96)%Z ∧ (3 <= ti_duration t <= 9#2)%Q) ts.
Proof.
  destruct (triangleIcons random fl m) as [ts m'] eqn:E.
  pose proof (triangle_icons_bounds m ts m' E) as Hb.
  destruct (triangleIcons_spec random random_range fl m) as (a & b & c & rest & Hp & Hs).
  rewrite Hs in E. injection E as <- <-.
  pose proof ICON_POOL_NoDup as Hnd. rewrite <- Hp in Hnd.
  apply NoDup_app in Hnd as (Hnd & _ & _).
  assert (∀ x, x ∈ [a; b; c] → x ∈ ICON_POOL) as Hin by (intros x Hx; rewrite <- Hp; set_solver).
  split_and!; [done| |repeat constructor; (eexists; split; [reflexivity|apply Hin; set_solver])
              |done|done|exact Hb].
  by apply (NoDup_fmap_2 Some [a; b; c]).
Qed.

(** C25: the page for a project's slug renders that project: its title,
    its tone's colours, three decorative icons in the tone's text colour,
    its links, and the way back to [/#projects]; any other slug is
    [notFound()]. *)
Theorem ProjectPage_lookup (m : Mem) (s : string) :
  (∀ p, p ∈ projects → slug p = s →
     ∃ v m', ProjectPage random fl projects s m = (Rendered v, m') ∧
       pv_title v = title p ∧ pv_style v = toneStyle (tone p) ∧
       length (pv_icons v) = 3 ∧
       Forall (λ iv, iv_color iv = ts_text (toneStyle (tone p))) (pv_icons v) ∧
       pv_links v = project_links (details p) ∧ pv_back v = "/#projects") ∧
  (s ∉ slug <$> projects → fst (ProjectPage random fl projects s m) = NotFound).
Proof.
  split.
  - intros p Hp <-. by apply ProjectPage_found.
  - intros Hn%find_project_None. unfold ProjectPage. rewrite Hn.
    by destruct (triangleIcons random fl m).
Qed.
End PageProperties.

(** ** Witnesses *)

Ltac random_in_range :=
  intros n; unfold ex_random, Qle, Qlt; simpl; pose proof (Nat.mod_upper_bound n 5); lia.

(** A rounding for the examples: to multiples of [2^-50], which is how
    doubles between 4 and 8 round. *)
Definition ex_fl : Q → Q := fl_grid 50.

(** With the largest draw, [1 - 2^-53], the exact duration is below 4.5
    but the rounded one is 4.5, as in doubles (where the product rounds
    to [1.5 - 2^-52] and the sum to 4.5). *)
Lemma duration_reaches_upper_end :
  (ex_fl (3 + ex_fl ((1 - (1 # 2 ^ 53)) * (3#2))) == 9#2)%Q ∧ (3 + (1 - (1 # 2 ^ 53)) * (3#2) < 9#2)%Q.
Proof. split; vm_compute; reflexivity. Qed.

Lemma triangle_icons_distinct_witness :
  let '(ts, m') := triangleIcons ex_random ex_fl (mkMem 0 []) in
  length ts = 3 ∧ NoDup (ti_icon <$> ts) ∧
  Forall (λ t, ∃ ic, ti_icon t = Some ic ∧ ic ∈ ICON_POOL) ts ∧
  ti_pos <$> ts = Some <$> TRI_POS ∧ m_draws m' = (0 + 9)%nat ∧
  Forall (λ t, (28 <= ti_size t <= 96)%Z ∧ (3 <= ti_duration t <= 9#2)%Q) ts.
Proof. apply (triangle_icons_distinct ex_random). random_in_range. apply fl_grid_laws. Defined.

Lemma ProjectPage_lookup_witness :
  (∀ p, p ∈ projects → slug p = "pv-signal" →
     ∃ v m', ProjectPage ex_random ex_fl projects "pv-signal" (mkMem 0 []) = (Rendered v, m') ∧
       pv_title v = title p ∧ pv_style v = toneStyle (tone p) ∧
       length (pv_icons v) = 3 ∧
       Forall (λ iv, iv_color iv = ts_text (toneStyle (tone p))) (pv_icons v) ∧
       pv_links v = project_links (details p) ∧ pv_back v = "/#projects") ∧
  ("pv-signal" ∉ slug <$> projects →
     fst (ProjectPage ex_random ex_fl projects "pv-signal" (mkMem 0 [])) = NotFound).
Proof. apply (ProjectPage_lookup ex_random). random_in_range. Defined.
