(* ===== verification/Gallery.v ===== *)
(** * Gallery: the projects section of the home page

    src/components/ProjectsGallery.tsx renders one card per project in a
    two-column grid (the last card spans both columns when the count is
    odd), each card a link to [/projects/${slug}] in its tone's colours,
    with the blurb in a [PillMarquee], under a header slab with the
    rotating "PROJECTS" ring ([gallery_header]); an effect observes the section and
    rewrites the URL's fragment to [#projects] with
    [history.replaceState] whenever it comes into view.

    The gallery has its own copy of [toneStyle] ([gallery_toneStyle]
    here, since the page's copy is [toneStyle] of ProjectPage.v). The
    observer effect is a small machine on the browser's history stack
    ([GalleryDom]); the path [/projects/${slug}] is read back by the
    router as [route_slug], following how Next.js matches the dynamic
    segment [[slug]] and decodes it. *)

From Stdlib Require Import QArith Ascii.
From stdpp Require Import base list sets strings pretty.
From S2P Require Import Prelude JsString Projects ProjectPage Rings.

(** [MARQUEE] *)
Definition MARQUEE_desktop : string := "60s".
Definition MARQUEE_mobile : string := "70s".

(** The gallery's [toneStyle(tone)]; [default] is unreachable. *)
Definition gallery_toneStyle (t : Tone) : ToneStyle :=
  match t with
  | White => mkToneStyle "var(--card-white)" "#0a0a0b" "rgba(10,10,11,.12)"
  | Dark => mkToneStyle "var(--card-dark)" "white" "rgba(255,255,255,.10)"
  | Lime => mkToneStyle "var(--card-lime)" "#0a0a0b" "rgba(10,10,11,.12)"
  | Lavender => mkToneStyle "var(--card-lavender)" "#0a0a0b" "rgba(10,10,11,.12)"
  | PastelBlue => mkToneStyle "var(--card-pastel-blue)" "#0a0a0b" "rgba(10,10,11,.12)"
  | Phthalo => mkToneStyle "var(--card-phthalo)" "white" "rgba(255,255,255,.10)"
  | PastelRed => mkToneStyle "var(--card-pastel-red)" "#0a0a0b" "rgba(255,105,97,.12)"
  end.

(** ** [PillMarquee] *)

(** [&nbsp;], U+00A0 in UTF-8. *)
Definition nbsp : string := String (Ascii.ascii_of_nat 194) (String (Ascii.ascii_of_nat 160) EmptyString).

(** The text of one span: [{text} &nbsp;&nbsp;|&nbsp;]. *)
Definition marquee_item (text : string) : string :=
  text +:+ " " +:+ nbsp +:+ nbsp +:+ "|" +:+ nbsp.

(** A key [`${copy}-${i}`]. *)
Definition span_key (copy i : nat) : string := pretty (N.of_nat copy) +:+ "-" +:+ pretty (N.of_nat i).

Record MarqueeView := mkMarqueeView {
  mq_speed : string;             (** [--speed] *)
  mq_class : string;             (** [sizeClass] *)
  mq_copies : list (nat * list (string * string));  (** copy key, its spans (key, text) *)
}.

(** [[0, 1].map(copy => ... Array.from({ length: 6 }).map((_, i) => ...))] *)
Definition PillMarquee (text speed : string) (sizeClass : option string) : MarqueeView :=
  mkMarqueeView speed (default "text-[32px]" sizeClass)
    ((λ copy, (copy, (λ i, (span_key copy i, marquee_item text)) <$> seq 0 6)) <$> [0; 1]).

(** ** The header slab *)

(** A run of the heading: plain text or an [<em>]. *)
Inductive HeadingPart := HText (s : string) | HEm (s : string).

(** The header slab: [whileHover={{ scale: 1.015 }}] with a spring
    transition (stiffness, damping), its border colour, the colour of its
    kicker and heading, and the rotating ring in its corner. *)
Record GalleryHeader := mkGalleryHeader {
  gh_hover_scale : Q; gh_spring : Q * Q; gh_borderColor : string; gh_color : string;
  gh_kicker : string; gh_heading : list HeadingPart; gh_ring : Ring;
}.

Definition gallery_header : GalleryHeader :=
  mkGalleryHeader (1015 # 1000) (220, 20)%Q "rgba(34,211,238,.25)" "var(--accent-cyan)"
    "What I’ve built"
    [HText "Practical projects that blend "; HEm "ML"; HText " with ";
     HEm "solid engineering"; HText "."]
    projects_ring.

(** The [id]s of the section: itself and the header ring's text path. *)
Definition gallery_ids : list string := ["projects"; rg_path_id (gh_ring gallery_header)].

(** ** The cards *)

(** [projects.length % 2 === 1] and [oddLastIdx] *)
Definition isOddCount (ps : list Project) : bool := Nat.odd (length ps).

Definition oddLastIdx (ps : list Project) : Z :=
  if isOddCount ps then (Z.of_nat (length ps) - 1)%Z else (-1)%Z.

Record CardView := mkCardView {
  cd_key : string;
  cd_initial_x : Z;
  cd_spans_row : bool;                 (** [md:col-span-2 md:w-1/2 md:mx-auto] *)
  cd_style : ToneStyle;
  cd_href : string;
  cd_aria_label : string;
  cd_deco_color : string;
  cd_deco_icons : list HeroIcon;
  cd_title : string;
  cd_desktop_marquee : MarqueeView;
  cd_mobile_marquee : MarqueeView;
}.

(** The body of [projects.map((p, i) => ...)]. *)
Definition card (ps : list Project) (i : nat) (p : Project) : CardView :=
  let sty := gallery_toneStyle (tone p) in
  let isLastOdd := bool_decide (Z.of_nat i = oddLastIdx ps) in
  let decoColor := if String.eqb (ts_text sty) "white"
                   then "rgba(255,255,255,0.18)" else "rgba(0,0,0,0.22)" in
  mkCardView (slug p) (if Nat.even i then (-40)%Z else 40%Z) isLastOdd sty
    ("/projects/" +:+ slug p) ("Open " +:+ title p) decoColor
    [icon p; icon p; icon p] (title p)
    (PillMarquee (blurb p) MARQUEE_desktop None)
    (PillMarquee (blurb p) MARQUEE_mobile (Some "text-2xl")).

Definition cards (ps : list Project) : list CardView := imap (card ps) ps.

(** ** The router: which page [/projects/${slug}] reaches *)

(** Next.js matches [/projects/[slug]] when the path is [/projects/]
    followed by one non-empty segment, and passes the decoded segment. *)
Definition route_slug (path : string) : option string :=
  match String.index 0 "/projects/" path with
  | Some 0 =>
      let seg := String.substring 10 (String.length path - 10) path in
      if String.eqb seg "" || str_has "/"%char seg then None else decodeURIComponent seg
  | _ => None
  end.

(** ** The observer effect *)

(** The browser history and the observer: the fragment of each history
    entry (the current one last) and whether the observer is connected. *)
Record GalleryDom := mkGalleryDom {
  gd_history : list string;
  gd_observing : bool;
}.

(** [{ threshold: 0.4, rootMargin: "0px 0px -40% 0px" }] *)
Definition observer_threshold : Q := 2#5.
Definition observer_rootMargin : string := "0px 0px -40% 0px".

(** [history.replaceState(null, "", "#projects")]: replace the current
    entry's fragment. *)
Definition replaceState (frag : string) (h : list string) : list string :=
  match h with [] => [frag] | _ => removelast h ++ [frag] end.

Inductive GalleryEvent :=
  | GMount (has_el : bool)     (** the effect runs; [sectionRef.current] may be null *)
  | GIntersect (isIntersecting : bool)
  | GUnmount                   (** the cleanup [io.disconnect()] *)
  | GNavigate (frag : string). (** the user follows a link: a new entry *)

Definition gallery_step (d : GalleryDom) (e : GalleryEvent) : GalleryDom :=
  match e with
  | GMount has_el => mkGalleryDom (gd_history d) has_el
  | GIntersect b =>
      if gd_observing d && b then mkGalleryDom (replaceState "#projects" (gd_history d)) true
      else d
  | GUnmount => mkGalleryDom (gd_history d) false
  | GNavigate f => mkGalleryDom (gd_history d ++ [f]) (gd_observing d)
  end.

Definition gallery_run (d : GalleryDom) (es : list GalleryEvent) : GalleryDom :=
  foldl gallery_step d es.

(** The fragments of the entries the user's navigations push. *)
Definition navigations (es : list GalleryEvent) : list string :=
  omap (λ e, match e with GNavigate f => Some f | _ => None end) es.

Definition is_mount (e : GalleryEvent) : bool := match e with GMount _ => true | _ => false end.

(** Examples: the fourth card, and a history with one entry. *)
Definition ex_card : CardView := card projects 3 project_pv_signal.

Definition ex_dom : GalleryDom := mkGalleryDom [""] false.

(** ** Lemmas *)

Lemma substring_all (s : string) : String.substring 0 (String.length s) s = s.
Proof. induction s as [|c s IH]; [done|]. simpl. by rewrite IH. Qed.

Lemma substring_skip (a b : string) n :
  String.substring (String.length a) n (a +:+ b) = String.substring 0 n b.
Proof. induction a as [|c a IH]; [done|]. simpl. apply IH. Qed.

Lemma length_app_string (a b : string) :
  String.length (a +:+ b) = (String.length a + String.length b)%nat.
Proof. induction a as [|c a IH]; simpl; [done|]. by rewrite IH. Qed.

(** The router reads a URL-safe slug back from [/projects/${slug}]. *)
Lemma route_slug_href (s : string) :
  s ≠ "" → str_has "/"%char s = false → encodeURIComponent s = s →
  route_slug ("/projects/" +:+ s) = Some s.
Proof.
  intros Hne Hsl Henc. unfold route_slug.
  assert (String.index 0 "/projects/" ("/projects/" +:+ s) = Some 0) as ->.
  { destruct s; simpl; [done|]. reflexivity. }
  rewrite length_app_string. cbn [String.length].
  replace (10 + String.length s - 10)%nat with (String.length s) by lia.
  change 10%nat with (String.length "/projects/").
  rewrite substring_skip, substring_all, Hsl.
  destruct (String.eqb s "") eqn:E; [by apply String.eqb_eq in E|].
  simpl. rewrite <- Henc at 1. by apply decode_encode, encode_fixed_valid.
Qed.

Lemma replaceState_length f h : h ≠ [] → length (replaceState f h) = length h.
Proof.
  intros Hh. destruct h as [|x h]; [done|]. unfold replaceState.
  pose proof (app_removelast_last x Hh) as E.
  rewrite E at 2. rewrite !length_app. simpl. lia.
Qed.

Lemma gallery_step_history d e :
  gd_history d ≠ [] →
  length (gd_history (gallery_step d e)) =
    (length (gd_history d) + length (navigations [e]))%nat ∧
  gd_history (gallery_step d e) ≠ [].
Proof.
  intros Hh. destruct e as [b|b| |f]; simpl; try (split; [lia|done]).
  - destruct (gd_observing d && b); simpl; [|split; [lia|done]].
    rewrite replaceState_length by done. split; [lia|].
    destruct (gd_history d); [done|]. unfold replaceState. by destruct (removelast _).
  - rewrite length_app. simpl. split; [lia|]. by destruct (gd_history d).
Qed.

(** Without the observer only navigations change the history. *)
Lemma run_unobserved (d : GalleryDom) (es : list GalleryEvent) :
  gd_observing d = false → Forall (λ e, is_mount e = false) es →
  gd_history (gallery_run d es) = gd_history d ++ navigations es.
Proof.
  revert d. induction es as [|e es IH]; intros d Ho Hm; simpl; [by rewrite app_nil_r|].
  apply Forall_cons in Hm as [He Hm].
  destruct e as [b|b| |f]; simpl in He |- *; [done| | |].
  - rewrite Ho. by apply IH.
  - by rewrite IH.
  - rewrite IH by done. simpl. by rewrite <- app_assoc.
Qed.

(** ** Properties *)

(** The copies of [toneStyle] in the gallery and in the project page
    agree on every tone, so a card and the page it opens have the same
    background, text and border colours. *)
Lemma toneStyle_copies_agree (t : Tone) : gallery_toneStyle t = toneStyle t.
Proof. by destruct t. Qed.

(** C26: every gallery card links to the page of its project: the router
    reads the card's slug back from its [href], and that page renders the
    card's title in the card's colours. *)
Theorem gallery_links_reach_pages (random : nat → Q) (fl : Q → Q) (m : Mem) (c : CardView) :
  (∀ n, 0 <= random n < 1)%Q → c ∈ cards projects →
  ∃ p v m', p ∈ projects ∧ route_slug (cd_href c) = Some (slug p) ∧
    ProjectPage random fl projects (slug p) m = (Rendered v, m') ∧
    pv_title v = cd_title c ∧ pv_style v = cd_style c.
Proof.
  intros Hr Hc. unfold cards in Hc. apply list_elem_of_lookup in Hc as [i Hi].
  rewrite list_lookup_imap in Hi. destruct (projects !! i) as [p|] eqn:Hp; [|done].
  simpl in Hi. simplify_eq. apply list_elem_of_lookup_2 in Hp.
  pose proof projects_slugs_routable as Hrt. rewrite list.Forall_forall in Hrt.
  destruct (Hrt p Hp) as (Hne & Hsl & Henc).
  destruct (ProjectPage_found random Hr fl m p Hp) as (v & m' & Hv & Ht & Hs & _).
  exists p, v, m'. split_and!; [done|by apply route_slug_href|done|done|].
  rewrite Hs. cbn. by destruct (tone p).
Qed.

(** C27: in the two-column grid the card at index [i] spans the whole
    row exactly when the number of projects is odd and [i] is the last
    index, for any list of projects; so an even count has no spanning
    card and an odd count has exactly the last one. *)
Theorem gallery_odd_span (ps : list Project) (i : nat) (c : CardView) :
  cards ps !! i = Some c →
  cd_spans_row c = true ↔ Nat.odd (length ps) = true ∧ i = (length ps - 1)%nat.
Proof.
  unfold cards. rewrite list_lookup_imap. destruct (ps !! i) eqn:E; [|done].
  apply lookup_lt_Some in E. intros [= <-]. simpl.
  rewrite bool_decide_eq_true. unfold oddLastIdx, isOddCount.
  destruct (Nat.odd (length ps)); split; try lia; intuition (try lia; done).
Qed.

(** A [PillMarquee] track holds two identical copies of six items
    (what lets the CSS animation loop by shifting one copy's width), and
    the keys of its items are distinct. *)
Lemma marquee_seamless (text speed : string) (sizeClass : option string) :
  ∃ items0 items1, mq_copies (PillMarquee text speed sizeClass) = [(0, items0); (1, items1)]%nat ∧
    snd <$> items0 = snd <$> items1 ∧ length items0 = 6%nat ∧
    Forall (λ t, t = marquee_item text) (snd <$> items0) ∧
    NoDup (fst <$> items0 ++ items1).
Proof.
  eexists _, _. split; [reflexivity|]. split_and!; [reflexivity|reflexivity| |].
  - repeat constructor.
  - apply (bool_decide_unpack _). vm_compute. reflexivity.
Qed.

Lemma gallery_run_length (d : GalleryDom) (es : list GalleryEvent) :
  gd_history d ≠ [] →
  length (gd_history (gallery_run d es)) = (length (gd_history d) + length (navigations es))%nat.
Proof.
  revert d. induction es as [|e es IH]; intros d Hd; simpl; [lia|].
  destruct (gallery_step_history d e Hd) as [Hl Hne].
  unfold gallery_run in IH. rewrite IH by done. rewrite Hl.
  destruct e; simpl; lia.
Qed.

(** C28: the observer never adds a history entry: whatever the order of
    mounts, intersections, unmounts and navigations, the history grows
    only by the user's navigations, so Back leaves the page instead of
    stepping through [#projects] fragments. While the section is in view
    the current entry is [#projects]; after the cleanup disconnects the
    observer, intersections change nothing until the effect runs again:
    the history only gets the user's navigations. *)
Theorem gallery_history_replaced (d : GalleryDom) (es : list GalleryEvent) :
  gd_history d ≠ [] →
  length (gd_history (gallery_run d es)) = (length (gd_history d) + length (navigations es))%nat ∧
  last (gd_history (gallery_step (gallery_step d (GMount true)) (GIntersect true))) = Some "#projects" ∧
  (Forall (λ e, is_mount e = false) es →
   gd_history (gallery_run (gallery_step d GUnmount) es) = gd_history d ++ navigations es).
Proof.
  intros Hd. split_and!; [by apply gallery_run_length| |].
  - simpl. unfold replaceState. destruct (gd_history d); [done|]. by rewrite last_app.
  - intros Hm. by rewrite run_unobserved.
Qed.

(** ** Witnesses *)

Lemma gallery_links_reach_pages_witness :
  ∃ p v m', p ∈ projects ∧ route_slug (cd_href ex_card) = Some (slug p) ∧
    ProjectPage ex_random ex_fl projects (slug p) (mkMem 0 []) = (Rendered v, m') ∧
    pv_title v = cd_title ex_card ∧ pv_style v = cd_style ex_card.
Proof.
  apply (gallery_links_reach_pages ex_random ex_fl (mkMem 0 []) ex_card).
  - random_in_range.
  - apply (list_elem_of_lookup_2 _ 3). reflexivity.
Defined.

Lemma gallery_odd_span_witness :
  cd_spans_row (card projects 4 project_pharmaai) = true ↔
  Nat.odd (length projects) = true ∧ 4%nat = (length projects - 1)%nat.
Proof. apply (gallery_odd_span projects 4). reflexivity. Defined.

Lemma gallery_history_replaced_witness :
  let es := [GMount true; GIntersect true; GNavigate "#contact"; GIntersect true; GUnmount] in
  length (gd_history (gallery_run ex_dom es)) = (length (gd_history ex_dom) + length (navigations es))%nat ∧
  last (gd_history (gallery_step (gallery_step ex_dom (GMount true)) (GIntersect true))) = Some "#projects" ∧
  (Forall (λ e, is_mount e = false) es →
   gd_history (gallery_run (gallery_step ex_dom GUnmount) es) = gd_history ex_dom ++ navigations es).
Proof. apply gallery_history_replaced. discriminate. Defined.
