(* ===== verification/Brand.v ===== *)
(** * Brand: the per-session brand variant, the corner mark and the favicon

    src/lib/brandVariant.ts picks one of four variants with
    [Math.random] and memoises it in the global slot
    [window.__brandVariant]; src/components/BrandCorner.tsx renders the
    corner mark in the variant's colours; src/components/RandomFavicon.tsx
    builds an SVG in the same colours, turns it into a data URL and
    replaces every icon link of the document with it. The browser state
    they share is the record [Page] (the slot, the [data-brand-variant]
    attribute, the computed CSS custom properties, the document's
    elements). [Math.random()] is an explicit argument [r : Q]: it lies
    in [0, 1), and [r * 4] and its floor are exact in binary floating
    point, so rationals compute what the browser does. *)

From Stdlib Require Import QArith Qround Ascii ZArith.
From stdpp Require Import base list strings gmap pretty.
From S2P Require Import Prelude Utf8 JsString JsNumber.

(** [type Variant = "blue" | "ink" | "banana" | "white"] *)
Inductive Variant := Blue | Ink | Banana | White.

#[export] Instance Variant_eq_dec : EqDecision Variant.
Proof. solve_decision. Defined.

Definition variant_str (v : Variant) : string :=
  match v with Blue => "blue" | Ink => "ink" | Banana => "banana" | White => "white" end.

(** An element of the document: a [<link>] with its [rel], optional
    [type] and [href], or anything else. *)
Record Link := mkLink { ln_rel : string; ln_type : option string; ln_href : string }.

Inductive Elem := ELink (l : Link) | EOther (tag : string).

(** What the three files read and write in the browser. *)
Record Page := mkPage {
  pg_slot : option Variant;            (** [window.__brandVariant] *)
  pg_dataset : option string;          (** [documentElement.dataset.brandVariant] *)
  pg_css : gmap string string;         (** computed custom properties of [:root] *)
  pg_head : list Elem;                 (** [document.head]'s children *)
  pg_body : list Elem;                 (** the rest of the document *)
}.

(** ** brandVariant.ts *)

Definition pool : list Variant := [Blue; Ink; Banana; White].

(** [pool[i]]: [undefined] outside the array. *)
Definition js_index {A} (l : list A) (i : Z) : option A :=
  if decide (0 ≤ i)%Z then l !! Z.to_nat i else None.

(** [pickBrandVariant()]; [None] as window is server-side rendering, and a
    result [None] is [undefined]. Writing [undefined] into the dataset
    stores the string "undefined". *)
Definition pickBrandVariant (win : option Page) (r : Q) : option Variant * option Page :=
  match win with
  | None => (Some Blue, None)
  | Some p =>
      match pg_slot p with
      | Some v => (Some v, Some p)
      | None =>
          let picked := js_index pool (scaled_index r (length pool)) in
          let ds := match picked with Some v => variant_str v | None => "undefined" end in
          (picked, Some (mkPage picked (Some ds) (pg_css p) (pg_head p) (pg_body p)))
      end
  end.

(** ** Colours: [cssVar] in both components *)

(** [getComputedStyle(root).getPropertyValue(name).trim() || fallback];
    RandomFavicon's version, which only runs in the browser. *)
Definition cssVar_favicon (css : gmap string string) (name fallback : string) : string :=
  let v := js_trim (default "" (css !! name)) in
  if String.eqb v "" then fallback else v.

(** BrandCorner's version returns the fallback during server rendering. *)
Definition cssVar_corner (css : option (gmap string string)) (name fallback : string) : string :=
  match css with
  | None => fallback
  | Some c =>
      let v := js_trim (default "" (c !! name)) in
      if String.eqb v "" then fallback else v
  end.

Record Palette := mkPalette { BLUE : string; INK : string; BANANA : string; WHITE : string }.

Definition palette_of (cv : string → string → string) : Palette :=
  mkPalette (cv "--pill-blue" "#2f2fff") (cv "--pill-ink" "#141414")
            (cv "--pill-banana" "#ffd84d") (cv "--card-white" "#f7f7fb").

(** ** RandomFavicon.tsx *)

(** The [map] of [buildSVG]: background and text colour. *)
Definition favicon_colors (p : Palette) (v : Variant) : string * string :=
  match v with
  | Blue => (BLUE p, WHITE p)
  | Ink => (INK p, WHITE p)
  | Banana => (BANANA p, INK p)
  | White => (WHITE p, BLUE p)
  end.

Definition dq : string := String (Ascii.ascii_of_nat 34) EmptyString.
Definition nl : string := String (Ascii.ascii_of_nat 10) EmptyString.
(** [name="value"] *)
Definition attr (name value : string) : string := name +:+ "=" +:+ dq +:+ value +:+ dq.

(** The template literal of [buildSVG]. *)
Definition svg_template (bg fg : string) : string :=
  nl +:+ "<svg " +:+ attr "xmlns" "http://www.w3.org/2000/svg" +:+ " "
     +:+ attr "viewBox" "0 0 256 256" +:+ ">" +:+ nl
  +:+ "  <rect " +:+ attr "width" "256" +:+ " " +:+ attr "height" "256" +:+ " "
     +:+ attr "rx" "36" +:+ " " +:+ attr "fill" bg +:+ "/>" +:+ nl
  +:+ "  <text " +:+ attr "x" "22" +:+ " " +:+ attr "y" "204" +:+ nl
  +:+ "    " +:+ attr "font-family"
        "ui-sans-serif, system-ui, -apple-system, Segoe UI, Roboto, Helvetica, Arial" +:+ nl
  +:+ "    " +:+ attr "font-weight" "900" +:+ " " +:+ attr "font-size" "168" +:+ " "
     +:+ attr "letter-spacing" "-6" +:+ nl
  +:+ "    " +:+ attr "fill" fg +:+ " " +:+ attr "dominant-baseline" "alphabetic"
     +:+ ">.ap</text>" +:+ nl
  +:+ "</svg>".

Definition buildSVG (css : gmap string string) (v : Variant) : string :=
  let '(bg, fg) := favicon_colors (palette_of (cssVar_favicon css)) v in
  svg_template bg fg.

Definition data_url_prefix : string := "data:image/svg+xml;utf8,".

(** ASCII lower case: in an HTML document the values of [rel] are
    matched by attribute selectors ASCII case-insensitively. *)
Definition ascii_lower_char (c : Ascii.ascii) : Ascii.ascii :=
  let n := Ascii.nat_of_ascii c in
  if (65 <=? n)%nat && (n <=? 90)%nat then Ascii.ascii_of_nat (n + 32) else c.

Fixpoint ascii_lower (s : string) : string :=
  match s with
  | EmptyString => EmptyString
  | String c s' => String (ascii_lower_char c) (ascii_lower s')
  end.

(** The selector list of [replaceAllIcons], each selector on the [rel]
    value compared ASCII case-insensitively. *)
Definition icon_selector (l : Link) : bool :=
  let r := ascii_lower (ln_rel l) in
  String.eqb r "icon" || String.eqb r "shortcut icon" ||
  str_contains r "icon" || String.eqb r "apple-touch-icon" ||
  String.eqb r "mask-icon".

Definition is_icon_link (e : Elem) : bool :=
  match e with ELink l => icon_selector l | EOther _ => false end.

(** [add(rel, type)], with the value [Date.now()] returns at that call. *)
Definition add_link (dataUrl rel : string) (type : option string) (now : N) : Elem :=
  ELink (mkLink rel type (dataUrl +:+ "#" +:+ pretty now)).

(** The three calls of [add]; [Date.now()] is read once per call. *)
Definition new_icons (dataUrl : string) (t1 t2 t3 : N) : list Elem :=
  [add_link dataUrl "icon" (Some "image/svg+xml") t1;
   add_link dataUrl "shortcut icon" (Some "image/svg+xml") t2;
   add_link dataUrl "apple-touch-icon" None t3].

(** [replaceAllIcons(dataUrl)]: remove every matching link wherever it is,
    then append the new ones to [head]. *)
Definition replaceAllIcons (dataUrl : string) (t1 t2 t3 : N) (p : Page) : Page :=
  let keep := filter (λ e, is_icon_link e = false) in
  mkPage (pg_slot p) (pg_dataset p) (pg_css p)
    (keep (pg_head p) ++ new_icons dataUrl t1 t2 t3) (keep (pg_body p)).

(** [const url = "data:image/svg+xml;utf8," + encodeURIComponent(svg)] *)
Definition favicon_url (css : gmap string string) (v : Variant) : string :=
  data_url_prefix +:+ encodeURIComponent (buildSVG css v).

(** What a call of [run] leaves: the page, and whether it threw. *)
Inductive RunResult := RunOk (p : Page) | RunThrew (p : Page).

Definition run_page (res : RunResult) : Page :=
  match res with RunOk p | RunThrew p => p end.

(** [run]: pick, build, encode, replace. [buildSVG(undefined)] throws a
    [TypeError] at the destructuring of [map[variant]], after the pick has
    written [undefined] into the slot: that is [RunThrew]. *)
Definition favicon_run (r : Q) (t1 t2 t3 : N) (p : Page) : RunResult :=
  match pickBrandVariant (Some p) r with
  | (Some v, Some p') => RunOk (replaceAllIcons (favicon_url (pg_css p') v) t1 t2 t3 p')
  | (None, Some p') => RunThrew p'
  | (_, None) => RunThrew p
  end.

(** ** BrandCorner.tsx *)

Record CornerStyle := mkCornerStyle { cs_bg : string; cs_fg : string; cs_border : string }.

(** The [useMemo] computing [style]; [map[undefined]] is [None]. *)
Definition corner_style (css : option (gmap string string)) (v : option Variant)
    : option CornerStyle :=
  let p := palette_of (cssVar_corner css) in
  match v with
  | Some Blue => Some (mkCornerStyle (BLUE p) (WHITE p) "rgba(255,255,255,.10)")
  | Some Ink => Some (mkCornerStyle (INK p) (WHITE p) "rgba(255,255,255,.10)")
  | Some Banana => Some (mkCornerStyle (BANANA p) (INK p) "rgba(0,0,0,.14)")
  | Some White => Some (mkCornerStyle (WHITE p) (BLUE p) "rgba(0,0,0,.12)")
  | None => None
  end.

(** [useState<Variant>("blue")] on the first render, then the effect
    [setVariant(pickBrandVariant())]. *)
Definition corner_initial : option Variant := Some Blue.

Definition corner_effect (r : Q) (p : Page) : option Variant * Page :=
  match pickBrandVariant (Some p) r with
  | (v, Some p') => (v, p')
  | (v, None) => (v, p)
  end.

(** The icons a run leaves in the document. *)
Definition installed_icons (p : Page) : list Elem :=
  filter (λ e, is_icon_link e = true) (pg_head p ++ pg_body p).


(** The rendered [<Link>]: its target, label, inline style and mark. *)
Record CornerView := mkCornerView {
  cv_href : string; cv_aria_label : string;
  cv_background : string; cv_color : string; cv_borderColor : string;
  cv_mark : string;
}.

(** [style.bg] on an undefined [style] throws: [None]. *)
Definition render_corner (style : option CornerStyle) : option CornerView :=
  (λ s, mkCornerView "/#header" "Home" (cs_bg s) (cs_fg s) (cs_border s) ".ap") <$> style.

(** A page as the root layout renders it before the effects run: a static
    icon in [head] and a mask icon further down. *)
Definition ex_page : Page :=
  mkPage None None ∅ [ELink (mkLink "icon" None "/favicon.ico"); EOther "title"]
    [ELink (mkLink "mask-icon" None "/mask.svg"); EOther "main"].

Ltac q_decide := vm_compute; first [reflexivity | intros ?; discriminate].

(** ** Lemmas *)

Local Open Scope Q_scope.

Lemma pool_index (r : Q) : 0 <= r < 1 → (0 <= scaled_index r (length pool) < 4)%Z.
Proof. intros Hr. apply (scaled_index_range r (length pool) Hr). simpl. lia. Qed.

Lemma js_index_pool (i : Z) : (0 <= i < 4)%Z → ∃ v, js_index pool i = Some v.
Proof.
  intros Hi. unfold js_index. rewrite decide_True by lia.
  apply lookup_lt_is_Some_2. simpl. lia.
Qed.

(** A first pick on a fresh page stores a real variant in the slot and
    the dataset. *)
Lemma pick_fresh (p : Page) (r : Q) :
  pg_slot p = None → 0 <= r < 1 →
  ∃ v, pickBrandVariant (Some p) r =
       (Some v, Some (mkPage (Some v) (Some (variant_str v)) (pg_css p) (pg_head p) (pg_body p))).
Proof.
  intros Hs Hr. destruct (js_index_pool _ (pool_index r Hr)) as [v Hv].
  exists v. unfold pickBrandVariant. by rewrite Hs, Hv.
Qed.

(** Once the slot holds a variant, every later call returns it unchanged. *)
Lemma pick_memo (p : Page) (v : Variant) (r : Q) :
  pg_slot p = Some v → pickBrandVariant (Some p) r = (Some v, Some p).
Proof. intros Hs. unfold pickBrandVariant. by rewrite Hs. Qed.

Lemma corner_effect_pick (p : Page) (r : Q) :
  corner_effect r p = (fst (pickBrandVariant (Some p) r),
                       default p (snd (pickBrandVariant (Some p) r))).
Proof.
  unfold corner_effect, pickBrandVariant.
  by destruct (pg_slot p); [|destruct (js_index _ _)].
Qed.

(** The three links [replaceAllIcons] adds match the icon selector. *)
Lemma added_links_icons url t1 t2 t3 :
  Forall (λ e, is_icon_link e = true) (new_icons url t1 t2 t3).
Proof. repeat constructor. Qed.

Lemma data_url_prefix_no_hash : str_has "#"%char data_url_prefix = false.
Proof. reflexivity. Qed.


(** [run] on a page whose slot is filled draws no random number. *)
Lemma favicon_run_memo (p : Page) (v : Variant) r t1 t2 t3 :
  pg_slot p = Some v →
  favicon_run r t1 t2 t3 p = RunOk (replaceAllIcons (favicon_url (pg_css p) v) t1 t2 t3 p).
Proof. intros Hs. unfold favicon_run. by rewrite (pick_memo _ v). Qed.

Lemma favicon_run_fresh (p : Page) r t1 t2 t3 :
  pg_slot p = None → 0 <= r < 1 →
  ∃ v, favicon_run r t1 t2 t3 p =
       RunOk (replaceAllIcons (favicon_url (pg_css p) v) t1 t2 t3
                (mkPage (Some v) (Some (variant_str v)) (pg_css p) (pg_head p) (pg_body p))).
Proof.
  intros Hs Hr. destruct (pick_fresh p r Hs Hr) as [v Hv].
  exists v. unfold favicon_run. by rewrite Hv.
Qed.

Lemma installed_icons_replace url t1 t2 t3 (p : Page) :
  installed_icons (replaceAllIcons url t1 t2 t3 p) = new_icons url t1 t2 t3.
Proof.
  pose proof (added_links_icons url t1 t2 t3) as HF. rewrite list.Forall_forall in HF.
  unfold installed_icons, replaceAllIcons; cbn [pg_head pg_body].
  rewrite !filter_app, !filter_true_false, filter_all; [done|exact HF].
Qed.

(** ** Properties *)

(** C12: the first [pickBrandVariant()] in a page picks one of the four
    variants, stores it in [window.__brandVariant] and the
    [data-brand-variant] attribute, and every later call, whatever
    [Math.random] returns, gives the same variant and changes nothing. *)
Theorem pick_memoised (p : Page) (r1 r2 : Q) :
  pg_slot p = None → 0 <= r1 < 1 →
  ∃ v p1, pickBrandVariant (Some p) r1 = (Some v, Some p1) ∧
    pg_slot p1 = Some v ∧ pg_dataset p1 = Some (variant_str v) ∧
    pickBrandVariant (Some p1) r2 = (Some v, Some p1).
Proof.
  intros Hs Hr. destruct (pick_fresh p r1 Hs Hr) as [v Hv].
  eexists v, _. rewrite Hv. split_and!; [done..|]. by apply pick_memo.
Qed.

(** C13: the pick is uniform: [Math.random()] in [[i/4, (i+1)/4)] picks
    [pool[i]], for each of the four indices. *)
Theorem pick_uniform (p : Page) (i : Z) (r : Q) :
  pg_slot p = None → (0 <= i < 4)%Z → inject_Z i <= r * 4 < inject_Z (i + 1) →
  fst (pickBrandVariant (Some p) r) = js_index pool i ∧ is_Some (js_index pool i).
Proof.
  intros Hs Hi Hr. unfold pickBrandVariant. rewrite Hs. cbn [fst].
  unfold scaled_index. rewrite (Qfloor_between _ i) by exact Hr.
  split; [done|]. destruct (js_index_pool i Hi) as [v ->]. eauto.
Qed.

(** C14: BrandCorner and RandomFavicon show the same variant whichever
    effect runs first: the second one reads the slot the first one filled. *)
Theorem corner_favicon_same_variant (p : Page) (r1 r2 : Q) :
  pg_slot p = None → 0 <= r1 < 1 →
  (let '(vc, p1) := corner_effect r1 p in fst (pickBrandVariant (Some p1) r2) = vc) ∧
  (∀ pf, snd (pickBrandVariant (Some p) r2) = Some pf → 0 <= r2 < 1 →
     fst (corner_effect r1 pf) = fst (pickBrandVariant (Some p) r2)).
Proof.
  intros Hs Hr1. split.
  - rewrite corner_effect_pick. destruct (pick_fresh p r1 Hs Hr1) as [v ->].
    cbn [fst snd default]. by rewrite (pick_memo _ v).
  - intros pf Hpf Hr2. destruct (pick_fresh p r2 Hs Hr2) as [v Hv].
    rewrite Hv in Hpf |- *. cbn [snd] in Hpf. simplify_eq.
    rewrite corner_effect_pick, (pick_memo _ v); done.
Qed.

(** C15: the favicon and the corner mark use the same colours: for every
    variant, [buildSVG]'s background and text colour are the corner's
    [background] and [color], read from the same CSS custom properties
    with the same fallbacks. *)
Theorem favicon_colors_match_corner (css : gmap string string) (v : Variant) :
  ∃ s, corner_style (Some css) (Some v) = Some s ∧
       favicon_colors (palette_of (cssVar_favicon css)) v = (cs_bg s, cs_fg s).
Proof. destruct v; eexists; split; reflexivity. Qed.

(** C16: [replaceAllIcons] appends the three new icon links, in the
    order [icon], [shortcut icon], [apple-touch-icon], at the end of
    [head], after every other element of [head] kept in its order; the
    rest of the document loses only its icon links, so the three new
    links are the only icon links left. A link is removed exactly when
    its [rel] contains "icon" in any ASCII case (the browser matches
    [rel] case-insensitively, and [rel*="icon"] covers the other four
    selectors). *)
Theorem replaceAllIcons_result url t1 t2 t3 (p : Page) :
  let p' := replaceAllIcons url t1 t2 t3 p in
  pg_head p' = filter (λ e, is_icon_link e = false) (pg_head p) ++
    [add_link url "icon" (Some "image/svg+xml") t1;
     add_link url "shortcut icon" (Some "image/svg+xml") t2;
     add_link url "apple-touch-icon" None t3] ∧
  pg_body p' = filter (λ e, is_icon_link e = false) (pg_body p) ∧
  installed_icons p' = new_icons url t1 t2 t3 ∧
  (∀ l, is_icon_link (ELink l) = str_contains (ascii_lower (ln_rel l)) "icon").
Proof.
  split_and!; [done|done|apply installed_icons_replace|].
  intros l. cbn [is_icon_link]. unfold icon_selector.
  destruct (str_contains (ascii_lower (ln_rel l)) "icon") eqn:Hc; [by rewrite !orb_true_r|].
  rewrite !orb_false_r.
  assert (∀ x, String.eqb (ascii_lower (ln_rel l)) x = true → str_contains x "icon" = false) as Hno.
  { intros x <-%String.eqb_eq. exact Hc. }
  repeat match goal with
  | |- context [String.eqb (ascii_lower (ln_rel l)) ?x] =>
      let E := fresh "E" in let Hx := fresh "Hx" in
      destruct (String.eqb (ascii_lower (ln_rel l)) x) eqn:E;
      [pose proof (Hno _ E) as Hx; vm_compute in Hx; discriminate Hx|]
  end.
  done.
Qed.

(** C17: the [href] of each new icon link is the data URL, a [#] and the
    time stamp: a URL parser reads the data URL back, with the time stamp
    as its fragment only, and percent-decoding the payload, as the browser
    does for a [data:] URL, gives [buildSVG]'s SVG. *)
Theorem favicon_href_roundtrip css v rel ty (t : N) :
  let url := favicon_url css v in
  ∃ l, add_link url rel ty t = ELink l ∧
    split_fragment (ln_href l) = (url, Some (pretty t)) ∧
    percent_decode (encodeURIComponent (buildSVG css v)) = Some (buildSVG css v).
Proof.
  eexists; split; [reflexivity|]. split; [|apply percent_decode_encode].
  apply split_fragment_app.
  unfold favicon_url. by rewrite str_has_app, data_url_prefix_no_hash, encode_no_hash.
Qed.

(** C18: the SVG paints the rounded square ([rx="36"]) in the variant's
    background colour and the [.ap] text in its text colour; with no
    custom property set, the four variants give four different SVGs, each
    with text and tile in different colours. *)
Theorem buildSVG_fills (css : gmap string string) (v : Variant) :
  (let '(bg, fg) := favicon_colors (palette_of (cssVar_favicon css)) v in
   str_contains (buildSVG css v) (attr "rx" "36" +:+ " " +:+ attr "fill" bg +:+ "/>") = true ∧
   str_contains (buildSVG css v)
     (attr "fill" fg +:+ " " +:+ attr "dominant-baseline" "alphabetic" +:+ ">.ap</text>") = true) ∧
  (∀ v', v ≠ v' → buildSVG ∅ v ≠ buildSVG ∅ v') ∧
  (fst (favicon_colors (palette_of (cssVar_favicon ∅)) v)
   ≠ snd (favicon_colors (palette_of (cssVar_favicon ∅)) v)).
Proof.
  split_and!.
  - unfold buildSVG. destruct_pair_let E. unfold svg_template.
    split; auto 50 with portfolio.
  - intros v' Hne. destruct v, v'; try done; vm_compute; discriminate.
  - destruct v; vm_compute; discriminate.
Qed.

(** C19: a [run] on a page where no variant was picked yet succeeds: it
    picks a variant [v], and the document then has exactly the three icon
    links of [v]'s favicon; a second [run] keeps [v] and installs the same
    favicon again, so running the effect twice changes only the time
    stamps. *)
Theorem favicon_run_installs (p : Page) r1 r2 t1 t2 t3 t1' t2' t3' :
  pg_slot p = None → 0 <= r1 < 1 →
  ∃ v p1 p2, favicon_run r1 t1 t2 t3 p = RunOk p1 ∧ pg_slot p1 = Some v ∧
    installed_icons p1 = new_icons (favicon_url (pg_css p) v) t1 t2 t3 ∧
    favicon_run r2 t1' t2' t3' p1 = RunOk p2 ∧ pg_slot p2 = Some v ∧
    installed_icons p2 = new_icons (favicon_url (pg_css p) v) t1' t2' t3'.
Proof.
  intros Hs Hr. destruct (favicon_run_fresh p r1 t1 t2 t3 Hs Hr) as [v ->].
  set (p1 := replaceAllIcons _ t1 t2 t3 _).
  exists v, p1. rewrite (favicon_run_memo p1 v) by done. eexists.
  split_and!; [done|done|apply installed_icons_replace|done|done|].
  apply installed_icons_replace.
Qed.

(** C20: the corner's first render on the client (hydration) draws the
    same style the server rendered with the fallbacks exactly when the
    page's [--pill-blue] and [--card-white] resolve to the fallback
    values: with a stylesheet that defines them otherwise the two renders
    differ. *)
Theorem corner_hydration_style (css : gmap string string) :
  render_corner (corner_style None corner_initial) =
    render_corner (corner_style (Some css) corner_initial) ↔
  cssVar_corner (Some css) "--pill-blue" "#2f2fff" = "#2f2fff" ∧
  cssVar_corner (Some css) "--card-white" "#f7f7fb" = "#f7f7fb".
Proof.
  unfold render_corner, corner_style, corner_initial, palette_of; simpl.
  split.
  - intros [= H1 H2]. split; symmetry; [exact H1|exact H2].
  - intros [-> ->]. reflexivity.
Qed.

(** C21: both copies of [cssVar] read a custom property through
    [.trim()]: for a value whose code points are [cps], they return the
    part [t] of [cps] left between its leading and trailing JavaScript
    white space (non-ASCII white space such as a no-break space
    included), and the fallback when nothing else is left; the corner's
    copy returns the fallback during server rendering. *)
Theorem cssVar_trims (css : gmap string string) (name fallback : string) (cps : list Z) :
  Forall (λ c, scalar_value c = true) cps → css !! name = Some (string_of_bytes (utf8 cps)) →
  ∃ p t q, cps = p ++ t ++ q ∧ Forall (.∈ js_white_space) p ∧ Forall (.∈ js_white_space) q ∧
    (∀ c, head t = Some c → c ∉ js_white_space) ∧
    (∀ c, head (reverse t) = Some c → c ∉ js_white_space) ∧
    cssVar_favicon css name fallback = (if bool_decide (t = []) then fallback else string_of_bytes (utf8 t)) ∧
    cssVar_corner (Some css) name fallback = cssVar_favicon css name fallback ∧
    cssVar_corner None name fallback = fallback.
Proof.
  intros Hs Hv.
  destruct (js_trim_unicode cps Hs) as (p & t & q & Hcps & Hp & Hq & Hh & Hl & Ht).
  exists p, t, q. split_and!; try done.
  - unfold cssVar_favicon. rewrite Hv. cbv zeta. cbn [default]. unfold id. rewrite Ht, string_of_utf8_empty.
    + by case_bool_decide.
    + rewrite Hcps in Hs. by apply Forall_app in Hs as [_ [? _]%Forall_app].
Qed.

(** ** Witnesses *)

Lemma pick_memoised_witness :
  ∃ v p1, pickBrandVariant (Some ex_page) (1#2) = (Some v, Some p1) ∧
    pg_slot p1 = Some v ∧ pg_dataset p1 = Some (variant_str v) ∧
    pickBrandVariant (Some p1) (9#10) = (Some v, Some p1).
Proof. apply pick_memoised; [reflexivity|split; q_decide]. Defined.

Lemma pick_uniform_witness :
  fst (pickBrandVariant (Some ex_page) (5#8)) = js_index pool 2 ∧ is_Some (js_index pool 2).
Proof. apply pick_uniform; [reflexivity|lia|split; q_decide]. Defined.

Lemma corner_favicon_same_variant_witness :
  (let '(vc, p1) := corner_effect (1#3) ex_page in
   fst (pickBrandVariant (Some p1) (7#8)) = vc) ∧
  (∀ pf, snd (pickBrandVariant (Some ex_page) (7#8)) = Some pf → 0 <= 7#8 < 1 →
     fst (corner_effect (1#3) pf) = fst (pickBrandVariant (Some ex_page) (7#8))).
Proof. apply corner_favicon_same_variant; [reflexivity|split; q_decide]. Defined.

Lemma favicon_run_installs_witness :
  ∃ v p1 p2, favicon_run (1#5) 1 1 2 ex_page = RunOk p1 ∧ pg_slot p1 = Some v ∧
    installed_icons p1 = new_icons (favicon_url (pg_css ex_page) v) 1 1 2 ∧
    favicon_run (4#5) 7 7 7 p1 = RunOk p2 ∧ pg_slot p2 = Some v ∧
    installed_icons p2 = new_icons (favicon_url (pg_css ex_page) v) 7 7 7.
Proof. apply favicon_run_installs; [reflexivity|split; q_decide]. Defined.

(** A colour between a no-break space and an ideographic space. *)
Lemma cssVar_trims_witness :
  let cps := [0xA0; 0x23; 0x61; 0x3000]%Z in
  let css := <["--pill-blue" := string_of_bytes (utf8 cps)]> (∅ : gmap string string) in
  Forall (λ c, scalar_value c = true) cps ∧ css !! "--pill-blue" = Some (string_of_bytes (utf8 cps)) ∧
  ∃ p t q, cps = p ++ t ++ q ∧ Forall (.∈ js_white_space) p ∧ Forall (.∈ js_white_space) q ∧
    (∀ c, head t = Some c → c ∉ js_white_space) ∧
    (∀ c, head (reverse t) = Some c → c ∉ js_white_space) ∧
    cssVar_favicon css "--pill-blue" "#2f2fff" =
      (if bool_decide (t = []) then "#2f2fff" else string_of_bytes (utf8 t)) ∧
    cssVar_corner (Some css) "--pill-blue" "#2f2fff" = cssVar_favicon css "--pill-blue" "#2f2fff" ∧
    cssVar_corner None "--pill-blue" "#2f2fff" = "#2f2fff".
Proof.
  cbn zeta. split; [repeat constructor|]. split; [reflexivity|].
  apply cssVar_trims; [repeat constructor|reflexivity].
Defined.
