(* ===== verification/FaviconEffect.v ===== *)
(** * FaviconEffect: when RandomFavicon's [run] is scheduled

    The effect of src/components/RandomFavicon.tsx (its [useEffect]) does
    not run [run] at once: if [document.readyState] is ["complete"] or
    ["interactive"] it schedules [run] with [setTimeout(run, 0)]; otherwise
    it registers a [DOMContentLoaded] listener [onReady] that removes
    itself and then schedules [run]. The document's readiness, its
    listeners and the timer queue of Timers.v are the state; the effect,
    the [DOMContentLoaded] event and a timer firing are the operations.
    Each call of the effect makes a fresh [onReady] closure, so listeners
    are counted. React's development mode runs a [[]]-effect twice on
    mount (mount, unmount, mount, with no cleanup function here), which is
    the case [effect_twice_one_favicon] covers. *)

From Stdlib Require Import QArith.
From stdpp Require Import base list strings gmap.
From S2P Require Import Prelude Timers JsString Brand.

(** [document.readyState] *)
Inductive ReadyState := Loading | Interactive | Complete.

#[export] Instance ReadyState_eq_dec : EqDecision ReadyState.
Proof. solve_decision. Defined.

(** The only task the effect queues: the closure [run]. *)
Inductive FavTask := FavRun.

Record FavDoc := mkFavDoc {
  fd_ready : ReadyState;
  fd_listeners : nat;              (** [onReady] closures registered *)
  fd_timers : Timers FavTask;
  fd_page : Page;
}.

Definition set_fd_timers (d : FavDoc) (q : Timers FavTask) : FavDoc :=
  mkFavDoc (fd_ready d) (fd_listeners d) q (fd_page d).

(** [setTimeout(run, 0)] *)
Definition schedule_run (q : Timers FavTask) : Timers FavTask :=
  snd (setTimeout FavRun 0 q).

(** The effect body. *)
Definition favicon_effect (d : FavDoc) : FavDoc :=
  match fd_ready d with
  | Complete | Interactive => set_fd_timers d (schedule_run (fd_timers d))
  | Loading => mkFavDoc Loading (S (fd_listeners d)) (fd_timers d) (fd_page d)
  end.

(** Each [onReady] removes itself and schedules [run]. *)
Fixpoint run_listeners (n : nat) (q : Timers FavTask) : Timers FavTask :=
  match n with 0 => q | S n' => run_listeners n' (schedule_run q) end.

(** The parser finishes at time [t_at]: [readyState] becomes
    ["interactive"] and [DOMContentLoaded] fires, once, only from
    ["loading"]. *)
Definition dom_content_loaded (t_at : Z) (d : FavDoc) : FavDoc :=
  match fd_ready d with
  | Loading =>
      mkFavDoc Interactive 0 (run_listeners (fd_listeners d) (set_now t_at (fd_timers d)))
        (fd_page d)
  | _ => d
  end.

(** The event loop runs the earliest timer due by [lim]: [run] with
    [Math.random()] returning [r]; the three [Date.now()] calls of one
    [run] read the task's start time. An exception thrown by [run] ends
    the task and leaves what it had written. *)
Definition fire_run (r : Q) (lim : Z) (d : FavDoc) : option FavDoc :=
  match pop_due lim (fd_timers d) with
  | None => None
  | Some (t, q) =>
      let ts := Z.to_N (tm_due t) in
      Some (mkFavDoc (fd_ready d) (fd_listeners d) q
              (run_page (favicon_run r ts ts ts (fd_page d))))
  end.

(** A fresh document: nothing registered, nothing queued. *)
Definition fresh_doc (rs : ReadyState) (now : Z) (p : Page) : FavDoc :=
  mkFavDoc rs 0 (timers_init now) p.

(** When the queued runs are due: at once if the document was ready when
    the effect ran, at [DOMContentLoaded] otherwise. *)
Definition ready_time (rs : ReadyState) (now t_at : Z) : Z :=
  match rs with Loading => t_at | _ => now end.

(** The page's readiness once [DOMContentLoaded] has come. *)
Definition ready_after (rs : ReadyState) : ReadyState :=
  match rs with Loading => Interactive | _ => rs end.

(** ** Lemmas *)

Lemma run_listeners_length n q :
  length (tq_pending (run_listeners n q)) = length (tq_pending q) + n.
Proof.
  revert q. induction n as [|n IH]; intros q; simpl; [lia|].
  rewrite IH. unfold schedule_run; simpl. rewrite length_app. simpl. lia.
Qed.

Lemma effect_iter_loading k d :
  fd_ready d = Loading →
  Nat.iter k favicon_effect d = mkFavDoc Loading (k + fd_listeners d) (fd_timers d) (fd_page d).
Proof.
  intros Hr. induction k as [|k IH]; simpl.
  - by destruct d; simpl in *; subst.
  - rewrite IH. reflexivity.
Qed.

Lemma run_listeners_S k q : run_listeners (S k) q = schedule_run (run_listeners k q).
Proof. revert q. induction k as [|k IH]; intros q; [done|]. apply IH. Qed.

Lemma effect_iter_ready k d :
  fd_ready d ≠ Loading →
  Nat.iter k favicon_effect d = set_fd_timers d (run_listeners k (fd_timers d)).
Proof.
  intros Hr. induction k as [|k IH]; [by destruct d|].
  change (Nat.iter (S k) favicon_effect d) with (favicon_effect (Nat.iter k favicon_effect d)).
  rewrite IH, run_listeners_S. unfold favicon_effect, set_fd_timers; simpl.
  by destruct (fd_ready d).
Qed.

Lemma schedule_run_due q :
  schedule_run q = mkTimers (tq_now q) (tq_pending q ++ [mkTimer (S (tq_last q)) (tq_now q) FavRun])
                     (S (tq_last q)).
Proof. unfold schedule_run; simpl. by rewrite Z.add_0_r. Qed.

Lemma run_listeners_now k q : tq_now (run_listeners k q) = tq_now q.
Proof. revert q. induction k as [|k IH]; intros q; [done|]. simpl. by rewrite IH. Qed.

(** The runs the listeners queue are due at the current time. *)
Lemma run_listeners_due k q (x : Z) :
  tq_now q = x → Forall (λ t, tm_due t = x) (tq_pending q) →
  Forall (λ t, tm_due t = x) (tq_pending (run_listeners k q)).
Proof.
  revert q. induction k as [|k IH]; intros q Hx Hq; [done|]. simpl.
  apply IH; rewrite schedule_run_due; [done|]. simpl.
  apply Forall_app; split; [done|]. by constructor.
Qed.

(** Two calls of the effect queue two runs, due at the ready time. *)
Lemma effect_twice_doc rs now t_at p :
  (now ≤ t_at)%Z →
  dom_content_loaded t_at (favicon_effect (favicon_effect (fresh_doc rs now p))) =
  mkFavDoc (ready_after rs) 0
    (mkTimers (ready_time rs now t_at)
       [mkTimer 1 (ready_time rs now t_at) FavRun; mkTimer 2 (ready_time rs now t_at) FavRun] 2)
    p.
Proof.
  intros Hle.
  unfold dom_content_loaded, favicon_effect, fresh_doc, set_fd_timers, schedule_run, set_now.
  destruct rs; [rewrite Z.max_r by done| |]; simpl; rewrite ?schedule_run_due; simpl;
    by rewrite ?Z.add_0_r.
Qed.

(** ** Properties *)

(** C22: however often the effect runs before the document is ready
    ([k] times; twice in React's development mode), once the document is
    interactive exactly [k] runs of [run] are queued, all due at the
    ready time, and no [DOMContentLoaded] listener is left. *)
Theorem effect_runs_per_invocation (rs : ReadyState) (k : nat) (now t_at : Z) (p : Page) :
  (now ≤ t_at)%Z →
  let d := dom_content_loaded t_at (Nat.iter k favicon_effect (fresh_doc rs now p)) in
  fd_ready d ≠ Loading ∧ fd_listeners d = 0 ∧ length (tq_pending (fd_timers d)) = k ∧
  Forall (λ t, tm_due t = ready_time rs now t_at) (tq_pending (fd_timers d)).
Proof.
  intros Hle. destruct rs; cycle 1.
  1,2: rewrite effect_iter_ready by done; cbn;
    rewrite run_listeners_length; split_and!; [done|done|simpl; lia|];
    apply run_listeners_due; [done|constructor].
  rewrite effect_iter_loading by done. cbn.
  rewrite run_listeners_length. split_and!; [done|done|simpl; lia|].
  apply run_listeners_due; [simpl; lia|constructor].
Qed.


(** C23: in React's development mode the effect runs twice, and two runs
    are queued; when both have run the page has exactly one favicon, the
    three icon links of one variant [v], and [v] is the variant stored in
    [window.__brandVariant] (the second run reuses the first run's pick
    instead of drawing again). *)
Theorem effect_twice_one_favicon (rs : ReadyState) (now t_at : Z) (p : Page) (r1 r2 : Q) :
  (now ≤ t_at)%Z → pg_slot p = None → (0 <= r1 < 1)%Q →
  let due := ready_time rs now t_at in
  let ts := Z.to_N due in
  ∃ v d1 d2,
    fire_run r1 due
      (dom_content_loaded t_at (favicon_effect (favicon_effect (fresh_doc rs now p)))) = Some d1 ∧
    fire_run r2 due d1 = Some d2 ∧
    tq_pending (fd_timers d2) = [] ∧ pg_slot (fd_page d2) = Some v ∧
    installed_icons (fd_page d2) = new_icons (favicon_url (pg_css p) v) ts ts ts.
Proof.
  intros Hle Hs Hr. cbn zeta. rewrite effect_twice_doc by done.
  set (due := ready_time rs now t_at). set (ts := Z.to_N due).
  destruct (favicon_run_fresh p r1 ts ts ts Hs Hr) as [v Hv].
  unfold fire_run; cbn [fd_timers fd_page fd_ready fd_listeners].
  rewrite pop_due_pair; cbn [tm_due]. rewrite !decide_True by lia.
  cbn [tm_due]. fold ts. rewrite Hv. eexists v, _, _. split; [reflexivity|].
  cbn [fd_timers fd_page]. rewrite pop_due_single by (simpl; lia). cbn [tm_due].
  fold ts. rewrite (favicon_run_memo _ v) by done.
  split_and!; [reflexivity|done|done|apply installed_icons_replace].
Qed.

(** ** Witnesses *)

Lemma effect_runs_per_invocation_witness :
  let d := dom_content_loaded 40 (Nat.iter 2 favicon_effect (fresh_doc Loading 3 ex_page)) in
  fd_ready d ≠ Loading ∧ fd_listeners d = 0 ∧ length (tq_pending (fd_timers d)) = 2 ∧
  Forall (λ t, tm_due t = ready_time Loading 3 40) (tq_pending (fd_timers d)).
Proof. apply effect_runs_per_invocation. lia. Defined.

Lemma effect_twice_one_favicon_witness :
  let due := ready_time Complete 5 9 in
  let ts := Z.to_N due in
  ∃ v d1 d2,
    fire_run (1#4) due
      (dom_content_loaded 9 (favicon_effect (favicon_effect (fresh_doc Complete 5 ex_page))))
      = Some d1 ∧
    fire_run (3#4) due d1 = Some d2 ∧
    tq_pending (fd_timers d2) = [] ∧ pg_slot (fd_page d2) = Some v ∧
    installed_icons (fd_page d2) = new_icons (favicon_url (pg_css ex_page) v) ts ts ts.
Proof. apply effect_twice_one_favicon; [lia|reflexivity|split; q_decide]. Defined.
