(* ===== verification/Contact.v ===== *)
(** * Contact: the contact section and its send button

    src/components/ContactSection.tsx shows five link chips and a form
    handled by Formspree's [useForm]. The button's label, its
    [disabled] flag and its classes are computed from the hook's state
    [{ submitting, succeeded, errors }]: the "four-state button label".
    The hook itself is a library: [form_step] follows its documented
    behaviour (a submission sets [submitting]; the response clears it and
    sets [succeeded] or the field errors), and a submit event is only
    delivered while the submit button is enabled, since the browser does
    not submit a form whose submit button is disabled.

    The form's four controls ([form_fields]) carry their [id], [name] and
    the [<ValidationError prefix field>] under them, if any; [form_data]
    is what the browser collects from the named controls for
    [handleSubmit], and [shown_errors] the validation messages the page
    shows for the hook's [errors]. Formspree's [ValidationError] (a
    library component, modelled from @formspree/react) renders nothing
    when no error is about its [field], and otherwise one element: the
    prefix, a space, and the messages of all the errors about [field]
    joined by ", ".

    The header slab widens with the scroll: [widthScaleRaw] is
    framer-motion's clamped interpolation of the scroll progress, and the
    spring that follows it is given by its options ([slabStyle]); the
    slab itself, with its kicker and heading, is [contact_header]. *)

From Stdlib Require Import QArith Lqa.
From stdpp Require Import base list sets strings.
From S2P Require Import Prelude JsString Rings.

(** [fade(d)]: from [initial] to [animate] in half a second. *)
Record Fade := mkFade {
  fd_opacity : Q * Q; fd_y : Z * Z; fd_filter : string * string;
  fd_duration : Q; fd_ease : string; fd_delay : Q;
}.

Definition fade (d : Q) : Fade :=
  mkFade (0, 1)%Q (12, 0)%Z ("blur(3px)", "blur(0px)") (1#2) "easeOut" d.

(** ** The header slab's scroll expansion *)

(** [useTransform(x, [x0, x1], [y0, y1])]: framer-motion interpolates
    linearly between the two points and clamps outside them. *)
Definition interpolate_clamped (x0 x1 y0 y1 x : Q) : Q :=
  if Qle_bool x x0 then y0 else if Qle_bool x1 x then y1
  else y0 + (x - x0) / (x1 - x0) * (y1 - y0).

(** [widthScaleRaw]: from 0.94 at the start of the scroll range to 1 at
    its end. *)
Definition widthScaleRaw (progress : Q) : Q := interpolate_clamped 0 1 (94 # 100) 1 progress.

(** [useSpring(widthScaleRaw, { stiffness, damping, mass })]. *)
Record SpringOptions := mkSpringOptions { stiffness : Q; damping : Q; mass : Q }.

Definition widthSpring : SpringOptions := mkSpringOptions 140 20 (35 # 100).

(** A spring with [damping² > 4·stiffness·mass] is overdamped: it goes
    to its target without oscillating around it. *)
Definition overdamped (o : SpringOptions) : bool :=
  negb (Qle_bool (damping o * damping o) (4 * stiffness o * mass o)).

(** [slabStyle]: the spring drives [scaleX]. *)
Record SlabStyle := mkSlabStyle {
  sl_scaleX_target : Q → Q; sl_spring : SpringOptions;
  sl_transformOrigin : string; sl_borderColor : string;
}.

Definition slabStyle : SlabStyle :=
  mkSlabStyle widthScaleRaw widthSpring "center" "rgba(234,179,8,.25)".

(** The quick links. *)
Definition EMAIL : string := "abhi96dayni@gmail.com".
Definition GITHUB : string := "https://github.com/pandeyg33?tab=repositories".
Definition LINKEDIN : string := "https://www.linkedin.com/in/pandeyg33".
Definition RESUME : string := "/docs/Abhimanyu_Pandey_Resume_SE.pdf".
Definition INSTAGRAM : string := "https://instagram.com/akamanyu".

(** A chip: its [href], its text, whether it opens a new tab with
    [rel="noreferrer"], and its fade delay. *)
Record Chip := mkChip {
  ch_href : string; ch_text : string; ch_new_tab : bool; ch_rel : option string; ch_delay : Q;
}.

Definition mailto_subject : string := "Let%27s%20work%20together".

(** The five [motion.a] chips, in document order. *)
Definition contact_chips : list Chip :=
  [mkChip ("mailto:" +:+ EMAIL +:+ "?subject=" +:+ mailto_subject) EMAIL false None (1#10);
   mkChip GITHUB "GitHub" true (Some "noreferrer") (22#100);
   mkChip LINKEDIN "LinkedIn" true (Some "noreferrer") (28#100);
   mkChip INSTAGRAM "Instagram" true (Some "noreferrer") (34#100);
   mkChip RESUME "Resume" true (Some "noreferrer") (16#100)].

(** The header pill: [fade(0)], [whileHover={{ scale: 1.005 }}],
    [style={slabStyle}], then the kicker and the two-line heading, both
    in [var(--pill-banana)]. *)
Record ContactHeader := mkContactHeader {
  chd_fade : Fade; chd_hover_scale : Q; chd_style : SlabStyle; chd_color : string;
  chd_kicker : string; chd_heading : list string;
}.

Definition contact_header : ContactHeader :=
  mkContactHeader (fade 0) (1005 # 1000) slabStyle "var(--pill-banana)"
    "Where to find me" ["Curious about my work?"; "Lets connect!"].

(** ** The form *)

(** A Formspree error: the field it is about (none for an error about
    the whole form) and its message. *)
Record FieldError := mkFieldError { fe_field : option string; fe_message : string }.

(** [state] of [useForm("xpwjeokj")]. *)
Record FormState := mkFormState {
  submitting : bool;
  succeeded : bool;
  errors : list FieldError;
}.

Definition form_init : FormState := mkFormState false false [].

(** The button state machine. *)
Definition isSending (s : FormState) : bool := submitting s.
Definition isSent (s : FormState) : bool := succeeded s.
Definition isDisabled (s : FormState) : bool := isSending s || isSent s.
Definition btnLabel (s : FormState) : string :=
  if isSent s then "Sent" else if isSending s then "Sending…" else "Send".

Definition pillBase : string :=
  "rounded-[var(--radius)] border pill-shadow w-full " +:+
  "bg-[var(--intro-pill-color)] " +:+
  "border-[color:var(--pill-banana)]/25 " +:+
  "text-[color:var(--pill-banana)] " +:+
  "placeholder-[color:var(--pill-banana)]/80 " +:+
  "px-5 py-4 md:py-5 focus:outline-none focus:ring-0".

Definition btnBase : string :=
  "rounded-[calc(var(--radius)+4px)] w-full h-full min-h-[140px] " +:+
  "font-medium tracking-wide border pill-shadow " +:+
  "flex items-center justify-center gap-2 transition-transform will-change-transform".

Definition btnIdle : string :=
  "bg-[color:var(--pill-banana)] text-[color:var(--pill-ink)] " +:+
  "border-[color:var(--pill-banana)]/40 hover:scale-[1.02] active:scale-[0.99]".

Definition btnSent : string :=
  "bg-[color:var(--card-pastel-red)] text-[color:var(--pill-ink)] " +:+
  "border-[color:var(--card-pastel-red)]/40 opacity-90 cursor-not-allowed".

(** The rendered [<button>] and the success pill. *)
Record SendButtonView := mkSendButtonView {
  bv_disabled : bool; bv_aria_disabled : bool; bv_class : string;
  bv_aria_label : string; bv_icon : bool; bv_text : string;
}.

Definition render_send_button (s : FormState) : SendButtonView :=
  mkSendButtonView (isDisabled s) (isDisabled s)
    (btnBase +:+ " " +:+ (if isSent s then btnSent else btnIdle))
    (btnLabel s) (negb (isSent s)) (btnLabel s).

Definition success_pill (s : FormState) : option string :=
  if succeeded s then Some "Thanks — your message is on its way! ✨" else None.

(** The messages of the errors about [field], in order
    ([errors.getFieldErrors(field)]). *)
Definition field_messages (field : string) (errs : list FieldError) : list string :=
  fe_message <$> filter (λ e, fe_field e = Some field) errs.

(** Formspree's [<ValidationError prefix field errors />]: nothing when
    there is no error about [field], else one element holding the prefix
    and a space (when the prefix is not empty), then the messages joined
    by ", ". *)
Definition ValidationError (prefix field : string) (errs : list FieldError) : option string :=
  match field_messages field errs with
  | [] => None
  | msgs => Some ((if String.eqb prefix "" then "" else prefix +:+ " ") +:+ String.concat ", " msgs)
  end.

(** A control of the form: [<input>] or [<textarea>], its [id], [name],
    [type], placeholder and [aria-label], the grid classes of its cell,
    and the [<ValidationError prefix field>] under it, if any. *)
Record FormField := mkFormField {
  ff_textarea : bool; ff_id : string; ff_name : string; ff_type : option string;
  ff_placeholder : string; ff_aria : string; ff_cell : string;
  ff_error : option (string * string);
}.

Definition form_fields : list FormField :=
  [mkFormField false "name" "name" (Some "text") "Name" "Name" "col-span-12 md:col-span-3" None;
   mkFormField false "email" "email" (Some "email") "E-mail" "Email" "col-span-12 md:col-span-3"
     (Some ("Email", "email"));
   mkFormField false "subject" "subject" (Some "text") "Subject" "Subject"
     "col-span-12 md:col-span-6" None;
   mkFormField true "message" "message" None "Message" "Message" "col-span-12 xl:col-span-9"
     (Some ("Message", "message"))].

(** The [id]s the section puts in the document: the section, the ring's
    text path and the four form fields. *)
Definition contact_ids : list string := ["contact"; rg_path_id contact_ring] ++ (ff_id <$> form_fields).

(** What [handleSubmit] sends: each control's [name] with its value. *)
Definition form_data (value : string → string) : list (string * string) :=
  (λ f, (ff_name f, value (ff_id f))) <$> form_fields.

(** The validation elements on the page, in document order. *)
Definition shown_errors (errs : list FieldError) : list string :=
  form_fields ≫= λ f,
    match ff_error f with
    | Some (prefix, field) => option_list (ValidationError prefix field errs)
    | None => []
    end.

Inductive FormEvent :=
  | FSubmit                      (** the user submits the form *)
  | FSucceed                     (** Formspree accepts the submission *)
  | FFail (errs : list FieldError). (** Formspree rejects it *)

Definition form_step (s : FormState) (e : FormEvent) : FormState :=
  match e with
  | FSubmit => if isDisabled s then s else mkFormState true false []
  | FSucceed => if submitting s then mkFormState false true [] else s
  | FFail errs => if submitting s then mkFormState false false errs else s
  end.

Definition form_run (s : FormState) (es : list FormEvent) : FormState := foldl form_step s es.

(** ** Lemmas *)

(** What every reachable hook state satisfies: a submission in flight
    has not succeeded, and a success carries no errors. *)
Definition form_ok (s : FormState) : Prop :=
  ¬ (submitting s = true ∧ succeeded s = true) ∧ (succeeded s = true → errors s = []).

Lemma form_step_ok s e : form_ok s → form_ok (form_step s e).
Proof.
  intros [H1 H2]. unfold form_ok. destruct e as [| |errs]; simpl.
  - destruct (isDisabled s); [by split|]. simpl. split; [intros [_ ?]; discriminate|done].
  - destruct (submitting s) eqn:E; simpl; split; try done.
    + intros [? _]; discriminate.
    + rewrite E. intros [? _]; discriminate.
  - destruct (submitting s) eqn:E; simpl; split; try done.
    + intros [? _]; discriminate.
    + rewrite E. intros [? _]; discriminate.
Qed.

Lemma form_run_ok s es : form_ok s → form_ok (form_run s es).
Proof.
  revert s. induction es as [|e es IH]; intros s Hs; [done|]. simpl.
  apply IH, form_step_ok, Hs.
Qed.

(** A successful state ignores every event. *)
Lemma form_step_sent s e : form_ok s → succeeded s = true → form_step s e = s.
Proof.
  intros [H1 _] Hs. destruct e; simpl.
  - unfold isDisabled, isSent. by rewrite Hs, orb_true_r.
  - destruct (submitting s) eqn:E; [naive_solver|done].
  - destruct (submitting s) eqn:E; [naive_solver|done].
Qed.

(** The header pill fades in first, and the chips after it but out of
    document order: the last chip, "Resume", appears second. *)
Lemma chip_delays_out_of_order :
  ch_text <$> contact_chips = [EMAIL; "GitHub"; "LinkedIn"; "Instagram"; "Resume"] ∧
  (ch_delay (nth 4 contact_chips (mkChip "" "" false None 0)) <
   ch_delay (nth 1 contact_chips (mkChip "" "" false None 0)))%Q ∧
  Forall (λ c, fd_delay (chd_fade contact_header) < ch_delay c)%Q contact_chips.
Proof. split_and!; [reflexivity|vm_compute; reflexivity|]. repeat constructor. Qed.

(** Only the email and message fields have a [ValidationError]. *)
Lemma shown_errors_eq errs :
  shown_errors errs =
    option_list (ValidationError "Email" "email" errs) ++ option_list (ValidationError "Message" "message" errs).
Proof. unfold shown_errors. simpl. by rewrite !app_nil_r. Qed.

Lemma field_messages_filter field (P : FieldError → Prop) `{∀ e, Decision (P e)} errs :
  (∀ e, fe_field e = Some field → P e) →
  field_messages field (filter P errs) = field_messages field errs.
Proof. intros HP. unfold field_messages. by rewrite list_filter_filter_l. Qed.

(** A field with errors shows its prefix and their messages joined. *)
Lemma ValidationError_some prefix field errs :
  prefix ≠ "" → field_messages field errs ≠ [] →
  ValidationError prefix field errs = Some (prefix +:+ " " +:+ String.concat ", " (field_messages field errs)).
Proof.
  intros Hp Hm. unfold ValidationError.
  destruct (field_messages field errs) as [|m ms]; [done|].
  by rewrite (proj2 (String.eqb_neq _ _) Hp), str_app_assoc.
Qed.

Lemma Qle_bool_false (x y : Q) : Qle_bool x y = false → (y < x)%Q.
Proof. intros H. apply Qnot_le_lt. intros Hle%Qle_bool_iff. congruence. Qed.

Lemma widthScaleRaw_cases (p : Q) :
  ((p <= 0)%Q ∧ widthScaleRaw p = 94 # 100) ∨ ((1 <= p)%Q ∧ widthScaleRaw p = 1%Q) ∨
  ((0 < p < 1)%Q ∧ (widthScaleRaw p == (94 # 100) + p * (6 # 100))%Q).
Proof.
  unfold widthScaleRaw, interpolate_clamped.
  destruct (Qle_bool p 0) eqn:E1; [left; split; [by apply Qle_bool_iff|done]|].
  destruct (Qle_bool 1 p) eqn:E2; [right; left; split; [by apply Qle_bool_iff|done]|].
  right; right. apply Qle_bool_false in E1, E2. split; [lra|]. field.
Qed.

(** The slab's target width scale never leaves [[0.94, 1]], whatever the
    scroll progress, and grows with it; its spring is overdamped, so the
    width follows the target without overshooting it. *)
Lemma slab_scale_bounds (p q : Q) :
  (94 # 100 <= sl_scaleX_target slabStyle p <= 1)%Q ∧
  ((p <= q)%Q → (sl_scaleX_target slabStyle p <= sl_scaleX_target slabStyle q)%Q) ∧
  overdamped (sl_spring slabStyle) = true.
Proof.
  cbn [sl_scaleX_target sl_spring slabStyle].
  split; [|split; [|reflexivity]].
  - destruct (widthScaleRaw_cases p) as [[? ->]|[[? ->]|[? ->]]]; lra.
  - intros Hpq.
    destruct (widthScaleRaw_cases p) as [[? ->]|[[? ->]|[? ->]]];
      destruct (widthScaleRaw_cases q) as [[? ->]|[[? ->]|[? ->]]]; lra.
Qed.

(** ** Properties *)

(** C29: the send button is a state machine with three reachable
    states: "Send" (enabled), "Sending…" and "Sent" (both disabled); a
    submission in flight never counts as sent, the success pill shows
    exactly in the "Sent" state, and "Sent" is final: no later event
    changes the form's state, so a message is sent at most once. *)
Theorem contact_button_machine (es : list FormEvent) :
  let s := form_run form_init es in
  ¬ (submitting s = true ∧ succeeded s = true) ∧
  btnLabel s ∈ ["Send"; "Sending…"; "Sent"] ∧
  (bv_disabled (render_send_button s) = true ↔ btnLabel s ≠ "Send") ∧
  (is_Some (success_pill s) ↔ btnLabel s = "Sent") ∧
  (succeeded s = true → ∀ es', form_run s es' = s).
Proof.
  cbn zeta. pose proof (form_run_ok form_init es) as Hok.
  destruct Hok as [H1 H2]; [split; [naive_solver|done]|].
  split_and!; [done| | | |].
  - unfold btnLabel, isSent, isSending.
    destruct (succeeded _), (submitting _); set_solver.
  - unfold render_send_button, isDisabled, btnLabel, isSent, isSending; simpl.
    destruct (succeeded _), (submitting _); simpl; split; done.
  - unfold success_pill, btnLabel, isSent, isSending.
    destruct (succeeded _), (submitting _); split; intros; done || by eexists.
  - intros Hs es'. induction es' as [|e es' IH]; [done|]. simpl.
    rewrite form_step_sent; [done|by split|done].
Qed.

(** C30: after a submission Formspree rejects with errors [errs], the
    button is "Send" again and enabled, no success pill shows, and the
    page shows, under the email field and under the message field, one
    message holding the field's prefix and the messages of all the errors
    about that field joined by ", " (nothing under a field without
    error). Errors about the name, about the subject or about the whole
    form are shown nowhere: the page looks the same as if they had not
    been returned. Every [ValidationError] names a field the form
    submits, under that field's own [id]. *)
Theorem form_rejection_feedback (errs : list FieldError) :
  let s := form_run form_init [FSubmit; FFail errs] in
  btnLabel s = "Send" ∧ bv_disabled (render_send_button s) = false ∧ success_pill s = None ∧
  shown_errors (errors s) =
    (if bool_decide (field_messages "email" errs = []) then []
     else ["Email " +:+ String.concat ", " (field_messages "email" errs)]) ++
    (if bool_decide (field_messages "message" errs = []) then []
     else ["Message " +:+ String.concat ", " (field_messages "message" errs)]) ∧
  shown_errors (errors s) =
    shown_errors (filter (λ e, fe_field e = Some "email" ∨ fe_field e = Some "message") errs) ∧
  Forall (λ f, ∀ prefix field, ff_error f = Some (prefix, field) →
                 field = ff_name f ∧ field = ff_id f) form_fields ∧
  fst <$> form_data (λ _, "") = ["name"; "email"; "subject"; "message"].
Proof.
  cbn zeta. simpl form_run. split_and!; try done.
  - rewrite shown_errors_eq. cbn [errors].
    f_equal; case_bool_decide as Hm;
      [by unfold ValidationError; rewrite Hm| by rewrite ValidationError_some
      |by unfold ValidationError; rewrite Hm| by rewrite ValidationError_some].
  - rewrite !shown_errors_eq. unfold ValidationError.
    rewrite !field_messages_filter; naive_solver.
  - apply List.Forall_forall. intros f Hf prefix field Hfe. simpl in Hf.
    destruct_or! Hf; subst; simplify_eq/=; done.
Qed.
