(* ===== verification/Site.v ===== *)
(** * Site: the home page's sections, their ids and the links between them

    src/app/page.tsx stacks the sections [Header], [Hero] (which holds
    [HeroTiles]), [IntroPill], [ExperienceSequence], [ProjectsGallery],
    [SkillsMarquees] and [ContactSection]; src/app/layout.tsx wraps every
    page with the favicon, the brand corner and the theme toggle. This
    file models the content components that are data and markup: the
    experience timeline, the skills marquees, the hero tiles and the
    header, with the keys React sees and the ids the document gets, and
    checks that every in-page link of the site lands on exactly one
    element of the home page. *)

From Stdlib Require Import QArith Ascii.
From stdpp Require Import base list sets strings pretty.
From S2P Require Import Prelude JsString Projects ProjectPage Gallery Brand Contact Rings.

(** ** ExperienceSequence.tsx *)

(** The Heroicons of the timeline. *)
Inductive RoleIcon := ChartBarIcon | WrenchScrewdriverIcon | BoltIcon.

(** [type Role] *)
Record Role := mkRole {
  tag : string; company : string; role : string; dates : string;
  role_title : string; bullets : list string; Icon : RoleIcon;
}.

Definition ROLES : list Role := [
  mkRole "03." "Virtuous Transactional Analytics" "Senior Software Engineer (Full-Stack)"
    "Oct 2021 – May 2023" "Led data-driven pharma platforms"
    ["Led a 6-member team building compliance & adverse-event apps; increased discrepancy-resolution throughput by ~90%.";
     "Cut mission-critical API latency by ~71% via log-driven optimization & caching; shipped a caching layer that reduced load times by ~95% for real-time analytics.";
     "Built a live analytics dashboard for microservices—monitoring, visualization, and anomaly signals to drive proactive fixes.";
     "Mentored juniors/interns; earned the OrionStars award for shipping high-impact features under tight deadlines."]
    ChartBarIcon;
  mkRole "02." "Virtuous Transactional Analytics" "Software Engineer (Full-Stack)"
    "Mar 2020 – Sep 2021" "Modernized & scaled core services"
    ["Migrated legacy apps to cloud-ready frameworks for scalable storage & retrieval used by analytics workflows.";
     "Created plug-and-play modules that accelerated client integration and shortened delivery times.";
     "Hardened microservices with real-time production monitoring and targeted optimizations.";
     "Trained interns on Spring Boot—productive within one week."]
    WrenchScrewdriverIcon;
  mkRole "01." "Philips Healthcare" "Software Developer I"
    "Jun 2018 – Feb 2020" "Healthcare data & interoperability"
    ["Built a custom client solution across 3 org teams; received the Take Ownership to Win and Deliver award.";
     "Integrated disparate healthcare systems into a centralized platform—better data quality & analytics-readiness.";
     "Contributed to Hospital-to-Home telehealth apps enabling remote monitoring and real-time support.";
     "Top-4 in a 3-month Java stack bootcamp; strong fundamentals and fast ramp-up."]
    BoltIcon
].

(** One rendered [Row]: the role pill, the details card with its
    list items (key, text). *)
Record RowView := mkRowView {
  rw_company : string; rw_role : string; rw_dates : string;
  rw_heading : string; rw_title : string; rw_icon : RoleIcon;
  rw_items : list (string * string);
}.

Definition Row (r : Role) : RowView :=
  mkRowView (company r) (role r) (dates r) (tag r +:+ " Experience") (role_title r) (Icon r)
    ((λ b, (b, "• " +:+ b)) <$> bullets r).

(** [key={`${r.company}-${r.role}-${r.dates}`}] *)
Definition row_key (r : Role) : string := company r +:+ "-" +:+ role r +:+ "-" +:+ dates r.

Definition ExperienceSequence : list (string * RowView) := (λ r, (row_key r, Row r)) <$> ROLES.

(** [hoverProps] of the role pills: [whileHover] (scale, y) and the
    [whileTap] scale. *)
Definition hoverProps : (Q * Q) * Q := ((102 # 100, -2), 995 # 1000)%Q.

(** The section's [id]s: itself and the ring's text path. *)
Definition experience_ids : list string := ["experience"; rg_path_id experience_ring].

(** ** SkillsMarquees.tsx *)

Definition SKILLS : list string :=
  ["Python"; "Java"; "JavaScript"; "TypeScript"; "React"; "Angular"; "Node.js";
   "Spring Boot"; "REST APIs"; "Microservices"; "Caching"; "PyTorch"; "timm";
   "EfficientNetV2"; "GANs (ProGAN, StyleGAN)"; "RAG"; "Semantic Search";
   "sentence-transformers"; "Cosine Similarity"; "Ollama"; "Gemma"; "Qwen";
   "Whisper STT"; "HeyGen Avatars"; "Pandas"; "DuckDB"; "Parquet (ETL)"; "Altair";
   "Ag-Grid"; "Analytics Dashboards"; "Streamlit"; "Chrome Extension (MV3)"; "MongoDB";
   "SQL / NoSQL"; "Docker"; "Pharmacovigilance (PRR/ROR)"].

Definition COLORS_straw : string := "var(--marquee-straw)".
Definition COLORS_vanilla : string := "var(--marquee-vanilla)".
Definition COLORS_melon : string := "var(--marquee-melon)".

Inductive Direction := DLeft | DRight.

(** One rendered skills [Row]: its track class, [--start], [--speed],
    colour, and the two copies (key, spans (key, text)). *)
Record SkillRowView := mkSkillRowView {
  sr_class : string; sr_start : string; sr_speed : string; sr_color : string;
  sr_copies : list (nat * list (string * string));
}.

Definition skill_key (copy : nat) (s : string) : string := pretty (N.of_nat copy) +:+ "-" +:+ s.

Definition SkillRow (direction : Direction) (start speed : option string) (color : string)
    : SkillRowView :=
  mkSkillRowView
    ("marquee-track " +:+ match direction with DRight => "marquee-right" | DLeft => "marquee-left" end)
    (default "0%" start) (default "26s" speed) color
    ((λ copy, (copy, (λ s, (skill_key copy s, s)) <$> SKILLS)) <$> [0; 1]).

Definition skills_ids : list string := ["skills"].

Definition SkillsMarquees : list SkillRowView :=
  [SkillRow DLeft (Some "0%") (Some "70s") COLORS_straw;
   SkillRow DRight (Some "-22%") (Some "95s") COLORS_vanilla;
   SkillRow DLeft (Some "-44%") (Some "83s") COLORS_melon].

(** ** HeroTiles.tsx *)

(** [SPEED], seconds per cycle. *)
Definition SPEED_blue : Z := 60.
Definition SPEED_projects : Z := 42.
Definition SPEED_skills : Z := 48.
Definition SPEED_contact : Z := 45.

(** [TileProps["variant"]] and the [variants] class map. *)
Inductive TileVariant := TBlue | TWhite | TInk | TBanana.

#[export] Instance TileVariant_eq_dec : EqDecision TileVariant.
Proof. solve_decision. Defined.

Definition variants (v : TileVariant) : string :=
  match v with
  | TBlue => "bg-[var(--pill-blue)] text-white"
  | TWhite => "bg-white text-black"
  | TInk => "bg-[var(--pill-ink)] text-white"
  | TBanana => "bg-[var(--pill-banana)] text-black"
  end.

(** [Marquee({ text, speed = 60 })]: ten spans keyed by their index,
    shifted from 0% to -50% in [speed] seconds. *)
Record TileMarqueeView := mkTileMarqueeView { mv_speed : Z; mv_spans : list (nat * string) }.

Definition Marquee (text : string) (speed : option Z) : TileMarqueeView :=
  mkTileMarqueeView (default 60%Z speed) ((λ i, (i, text)) <$> seq 0 10).

Inductive Align := AStart | ACenter | AEnd.

(** What a tile's children show: a banner marquee, or an icon row that
    gives way to a marquee on hover. *)
Inductive TileBody := BodyMarquee (m : TileMarqueeView) | BodyHover (icons : nat) (m : TileMarqueeView).

Record TileProps := mkTileProps {
  tp_variant : TileVariant; tp_label : option string; tp_href : option string;
  tp_body : TileBody; tp_align : option Align; tp_className : option string;
  tp_replace : option bool; tp_blurLabelOnHover : option bool;
}.

Inductive TileIcon := MoonIcon | ArrowIcon.

Record TileView := mkTileView {
  tv_link : option (string * bool);    (** [<Link href replace>] around the card *)
  tv_class : string;
  tv_icon : TileIcon; tv_icon_class : string;
  tv_items : string;                   (** the body's alignment class *)
  tv_label : option (string * string); (** caption and its hover class *)
  tv_decorations : bool;
  tv_body : TileBody;
}.

(** [Tile(props)] *)
Definition Tile (t : TileProps) : TileView :=
  let v := tp_variant t in
  mkTileView
    ((λ h, (h, default false (tp_replace t))) <$> tp_href t)
    (variants v +:+ " " +:+ default "" (tp_className t))
    (match v with TBlue => MoonIcon | _ => ArrowIcon end)
    (match v with TWhite | TBanana => "bg-black/5 text-black" | _ => "bg-white/15 text-white" end)
    (match default AStart (tp_align t) with
     | ACenter => "items-center" | AEnd => "items-end" | AStart => "items-start" end)
    ((λ l : string, (l, if default false (tp_blurLabelOnHover t) then "filter group-hover:blur-sm" else ""))
       <$> tp_label t)
    (bool_decide (v = TBlue))
    (tp_body t).

Definition bannerText : string :=
  "MS in Information Science: Machine Learning | Former Senior Software Engineer | Analytics Enthusiasts |".

(** The four tiles of [HeroTiles], in document order: the blue tile, the
    two of [SplitProjectsSkills], the banana tile. *)
Definition hero_tiles : list TileProps :=
  [mkTileProps TBlue (Some "Work experience") (Some "#experience")
     (BodyMarquee (Marquee bannerText (Some SPEED_blue))) (Some ACenter) (Some "h-full") (Some true) None;
   mkTileProps TWhite (Some "Projects") (Some "#projects")
     (BodyHover 4 (Marquee "See what I've built" (Some SPEED_projects)))
     (Some ACenter) (Some "h-full") (Some true) (Some true);
   mkTileProps TInk (Some "Skills") (Some "#skills")
     (BodyHover 3 (Marquee "AI • Full-stack • Data •" (Some SPEED_skills)))
     (Some ACenter) (Some "h-full") (Some true) (Some true);
   mkTileProps TBanana (Some "Where to reach me") (Some "#contact")
     (BodyHover 3 (Marquee "Email • Github • Linkedin • Instagram •" (Some SPEED_contact)))
     (Some ACenter) (Some "h-full") (Some true) (Some true)].

Definition HeroTiles : list TileView := Tile <$> hero_tiles.

(** The marquee a tile's body holds. *)
Definition tile_marquee (b : TileBody) : TileMarqueeView :=
  match b with BodyMarquee m | BodyHover _ m => m end.

(** ** Header.tsx *)

(** A wobble: the x keyframes and the transition (duration, delay), or
    none when the user prefers reduced motion. *)
Record Wobble := mkWobble { wb_x : list Q; wb_anim : option (Q * Q) }.

Definition wobbleLeft (prefersReduced : bool) : Wobble :=
  if prefersReduced then mkWobble [0]%Q None else mkWobble [-6; 6; -6]%Q (Some (5, 0)%Q).

Definition wobbleRight (prefersReduced : bool) : Wobble :=
  if prefersReduced then mkWobble [0]%Q None else mkWobble [7; -7; 7]%Q (Some (26#5, 1#5)%Q).

Record HeaderView := mkHeaderView { hd_id : string; hd_lines : list (string * Wobble) }.

Definition Header (prefersReduced : bool) : HeaderView :=
  mkHeaderView "header"
    [("Abhimanyu", wobbleLeft prefersReduced); ("Pandey", wobbleRight prefersReduced)].

(** ** IntroPill.tsx *)

(** The card's framer-motion props: [initial] and [whileInView] as
    (opacity, y, scale), the hover scale, [viewport={{ once, amount }}]
    and the transition. *)
Record Reveal := mkReveal {
  rv_initial : Q * Q * Q; rv_inView : Q * Q * Q; rv_hover_scale : Q;
  rv_once : bool; rv_amount : Q; rv_duration : Q; rv_ease : string;
}.

(** The intro section: the card's reveal, its image ([src], [alt],
    [sizes]), the eyebrow, the heading as runs of text (emphasised or
    not), the paragraph, and the ring below the card. *)
Record IntroView := mkIntroView {
  iv_reveal : Reveal; iv_image : string * string * string; iv_eyebrow : string;
  iv_heading : list (string * bool); iv_body : string; iv_ring : Ring;
}.

Definition IntroPill : IntroView :=
  mkIntroView
    (mkReveal (0, 16, 985 # 1000)%Q (1, 0, 1)%Q (101 # 100) true (3 # 10) (1 # 2) "easeOut")
    ("/me.jpg", "Profile photo", "(min-width:1024px) 48vw, 100vw") "What I do"
    [("I help teams ship ", false); ("ML-powered", true); (" products, crafted with ", false);
     ("clarity", true); (" & ", false); ("speed", true); (".", false)]
    (jsx_text
       [""; "I’m a data & machine learning practitioner with an MS in";
        "Information Science (ML emphasis, 4.0 GPA) and 5+ years as";
        "a Senior Software Engineer. I build end-to-end";
        "systems—clean data pipelines, reliable APIs, and";
        "thoughtful UIs— then deploy them so they scale.";
        "Comfortable with supervised & unsupervised learning, deep";
        "nets, and large-scale analytics; equally fluent in";
        "Java/Spring, React/Next, SQL/NoSQL, and cloud-ready";
        "microservices. I care about performance, clarity, and";
        "making the product feel great to use."; ""])
    intro_ring.

(** ** Hero.tsx and IntroPill.tsx: their [id]s *)

(** [Hero()]: a section with [id="hero"] holding the tiles, faded in
    from opacity 0 to 1. *)
Record HeroView := mkHeroView { hv_id : string; hv_opacity : Q * Q; hv_tiles : list TileView }.

Definition Hero : HeroView := mkHeroView "hero" (0, 1)%Q HeroTiles.

Definition hero_ids : list string := [hv_id Hero].

(** The intro pill has no id of its own; its ring's text path has one. *)
Definition intro_ids : list string := [rg_path_id (iv_ring IntroPill)].

(** ** page.tsx: the sections of the home page *)

Inductive HomeSection :=
  | SHeader | SHero | SIntroPill | SExperience | SProjects | SSkills | SContact.

(** [HomePage()] *)
Definition HomePage : list HomeSection :=
  [SHeader; SHero; SIntroPill; SExperience; SProjects; SSkills; SContact].

(** The [id]s each section puts in the document: its own, and those of
    the elements inside it (the SVG ring paths, the form fields). *)
Definition section_ids (s : HomeSection) : list string :=
  match s with
  | SHeader => [hd_id (Header false)]
  | SHero => hero_ids
  | SIntroPill => intro_ids
  | SExperience => experience_ids
  | SProjects => gallery_ids
  | SSkills => skills_ids
  | SContact => contact_ids
  end.

Definition home_ids : list string := HomePage ≫= section_ids.

(** Where a link lands on the home page: a fragment on the current page
    (the home page) or on [/]. *)
Definition home_anchor (href : string) : option string :=
  match split_fragment href with
  | (path, Some frag) => if String.eqb path "" || String.eqb path "/" then Some frag else None
  | _ => None
  end.

(** ** Properties *)

(** Every in-page link of the site lands on exactly one element of
    the home page: the ids of the home page are distinct, and the four
    hero tiles ([replace] links to [#experience], [#projects], [#skills],
    [#contact]), the brand corner ([/#header]), the project page's way
    back ([/#projects]) and the fragment the gallery's observer writes
    all name one of them; so does the [href] of every ring's
    [<textPath>], which names its own ring's path. *)
Lemma site_anchors_resolve :
  NoDup home_ids ∧
  (∀ t, t ∈ hero_tiles → ∃ h frag,
     tp_href t = Some h ∧ tp_replace t = Some true ∧ home_anchor h = Some frag ∧ frag ∈ home_ids) ∧
  (∀ st v, render_corner (Some st) = Some v →
     ∃ frag, home_anchor (cv_href v) = Some frag ∧ frag ∈ home_ids) ∧
  (∀ p icons v, render_project p icons = Rendered v →
     ∃ frag, home_anchor (pv_back v) = Some frag ∧ frag ∈ home_ids) ∧
  (∀ d, gd_observing d = true → ∃ h frag,
     last (gd_history (gallery_step d (GIntersect true))) = Some h ∧
     home_anchor h = Some frag ∧ frag ∈ home_ids) ∧
  (∀ r, r ∈ rings → ∀ t, t ∈ rg_text r →
     txp_href t = "#" +:+ rg_path_id r ∧ rg_path_id r ∈ home_ids).
Proof.
  split_and!.
  - apply (bool_decide_unpack _). vm_compute. reflexivity.
  - intros t Ht. repeat (apply elem_of_cons in Ht as [->|Ht]); [..|by apply not_elem_of_nil in Ht];
      eexists _, _; (split_and!; [reflexivity|reflexivity|reflexivity|]);
      apply (bool_decide_unpack _); vm_compute; reflexivity.
  - intros st v [= <-]. eexists; split; [reflexivity|].
    apply (bool_decide_unpack _). vm_compute. reflexivity.
  - intros p icons v. unfold render_project. destruct (mapM _ _); intros [= <-].
    eexists; split; [reflexivity|]. apply (bool_decide_unpack _). vm_compute. reflexivity.
  - intros d Hd. simpl. rewrite Hd. simpl. unfold replaceState.
    eexists _, _. split; [destruct (gd_history d); [done|by rewrite last_app]|].
    split; [reflexivity|]. apply (bool_decide_unpack _). vm_compute. reflexivity.
  - intros r Hr t Ht. unfold rings in Hr. repeat (apply elem_of_cons in Hr as [->|Hr]);
      [..|by apply not_elem_of_nil in Hr]; simpl in Ht;
      (split; [repeat (apply elem_of_cons in Ht as [->|Ht]); [..|by apply not_elem_of_nil in Ht];
               reflexivity|]);
      apply (bool_decide_unpack _); vm_compute; reflexivity.
Qed.

(** The React keys of the home page's lists are unique among their
    siblings: the experience rows ([company-role-dates]) and each row's
    bullets, the two copies of every skills row and the
    [`${copy}-${skill}`] spans in each copy, and the ten spans of every
    hero-tile marquee; and every [PillMarquee] track of the gallery's
    cards holds two identical copies of six items (what lets the CSS
    animation loop by shifting one copy's width) with distinct keys. *)
Lemma home_keys_unique :
  NoDup (fst <$> ExperienceSequence) ∧
  Forall (λ r, NoDup (fst <$> rw_items (snd r))) ExperienceSequence ∧
  Forall (λ row, NoDup (fst <$> sr_copies row) ∧
                 Forall (λ c, NoDup (fst <$> snd c)) (sr_copies row)) SkillsMarquees ∧
  Forall (λ t, NoDup (fst <$> mv_spans (tile_marquee (tv_body t)))) HeroTiles ∧
  (∀ text speed sizeClass, ∃ items0 items1,
     mq_copies (PillMarquee text speed sizeClass) = [(0, items0); (1, items1)]%nat ∧
     snd <$> items0 = snd <$> items1 ∧ length items0 = 6%nat ∧
     NoDup (fst <$> items0 ++ items1)).
Proof.
  split_and!; try (apply (bool_decide_unpack _); vm_compute; reflexivity).
  intros text speed sc. destruct (marquee_seamless text speed sc) as (i0 & i1 & ? & ? & ? & _ & ?).
  by exists i0, i1.
Qed.
