(* ===== verification/Layout.v ===== *)
(** * Layout: the root layout and the document head Next.js builds from it

    src/app/layout.tsx exports a [metadata] object and a [viewport]
    object and renders [RootLayout]. Next.js turns the metadata of the
    layout and of the page of a route into the document's [<head>]: the
    page's own title goes through the layout's [title.template] ("%s" is
    replaced by it), a route without a title of its own gets
    [title.default], and relative URLs are resolved against
    [metadataBase]. These rules are Next.js's (its metadata
    documentation), modelled for the fields the layout sets; the objects
    themselves are translated field by field.

    Neither page of the site exports metadata: src/app/page.tsx exports
    only its component, and the project page is a client component
    ("use client"), which cannot. *)

From Stdlib Require Import Ascii.
From stdpp Require Import base list strings pretty.
From S2P Require Import Prelude JsString Projects ThemeStore.

(** ** The [metadata] object *)

Definition metadata_keywords : list string :=
  ["Abhimanyu Pandey"; "Machine Learning"; "Data Science"; "AI"; "Software Engineer";
   "Software Developer"; "Portfolio"; "Projects"; "Skills"; "Contact"; "Resume"; "CV";
   "Python"; "JavaScript"; "TypeScript"; "Node.js"; "Django"; "Flask"; "AWS"; "Docker";
   "Kubernetes"; "TensorFlow"; "PyTorch"; "NLP"; "Computer Vision"; "React Native";
   "Vue.js"; "Angular"; "Golang"; "Ruby on Rails"; "DevOps"; "Agile"; "Scrum"; "GitHub";
   "LinkedIn"; "Instagram"; "Tech Enthusiast"; "Tech Blogger"; "Hackathons"; "Full-Stack";
   "React"; "Next.js"; "Java"; "Spring Boot"; "Portfolio"].

Definition title_default : string := "Abhimanyu Pandey - ML + Full-Stack".

Record TitleSpec := mkTitleSpec { tt_default : string; tt_template : string }.

Record OgImage := mkOgImage { ogi_url : string; ogi_width : Z; ogi_height : Z; ogi_alt : string }.

Record OpenGraph := mkOpenGraph {
  og_type : string; og_url : string; og_siteName : string; og_title : string;
  og_description : string; og_images : list OgImage; og_locale : string;
}.

Record Metadata := mkMetadata {
  md_metadataBase : string; md_applicationName : string; md_title : TitleSpec;
  md_description : string; md_keywords : list string; md_authors : list string;
  md_creator : string; md_publisher : string; md_openGraph : OpenGraph; md_manifest : string;
}.

(** [export const metadata]; [authors] holds the [name] of each author.
    The [icons] and [themeColor] fields are commented out in the source. *)
Definition metadata : Metadata :=
  mkMetadata "https://your-domain.com" "Abhimanyu Pandey - Portfolio"
    (mkTitleSpec title_default "%s • Abhimanyu Pandey")
    "Portfolio of Abhimanyu Pandey - ML practitioner & full-stack engineer. Projects, skills, and contact."
    metadata_keywords ["Abhimanyu Pandey"] "Abhimanyu Pandey" "Abhimanyu Pandey"
    (mkOpenGraph "website" "https://your-domain.com/" "Abhimanyu Pandey - Portfolio"
       "Abhimanyu Pandey - ML + Full-Stack"
       "Projects that blend ML with solid engineering. Explore skills and get in touch."
       [mkOgImage "/og.png" 1200 630 "Abhimanyu Pandey"] "en_US")
    "/site.webmanifest".

(** ** Next.js's resolution *)

(** [template.replace("%s", title)]: the first "%s" is replaced. *)
Fixpoint apply_template (tpl title : string) : string :=
  match tpl with
  | String "%"%char (String "s"%char rest) => title +:+ rest
  | String c rest => String c (apply_template rest title)
  | EmptyString => EmptyString
  end.

(** The title of a route whose page exports [t], if anything. *)
Definition page_title (t : option string) : string :=
  match t with
  | None => tt_default (md_title metadata)
  | Some s => apply_template (tt_template (md_title metadata)) s
  end.

(** [new URL(u, metadataBase)] for the URLs the metadata holds: absolute
    ones are kept, path-absolute ones are put under the base's origin. *)
Definition resolve_url (base u : string) : string :=
  if String.prefix "https://" u || String.prefix "http://" u then u
  else match u with String "/"%char _ => base +:+ u | _ => base +:+ "/" +:+ u end.

Inductive Route := RHome | RProject (slug : string).

(** The routes of the site: the home page and a page per project. *)
Definition site_routes : list Route := RHome :: ((λ p, RProject (slug p)) <$> projects).

(** The title each page module exports: none of them exports metadata. *)
Definition route_page_title (r : Route) : option string := match r with RHome | RProject _ => None end.

(** The [<head>] of a route: its title, description, keywords (joined by
    commas), Open Graph properties, manifest link and theme colours. *)
Record Head := mkHead {
  hd_title : string; hd_description : string; hd_keywords : string;
  hd_og : list (string * string); hd_manifest : string; hd_theme_colors : list (string * string);
}.

Definition og_tags (base : string) (og : OpenGraph) : list (string * string) :=
  [("og:title", og_title og); ("og:description", og_description og);
   ("og:url", resolve_url base (og_url og)); ("og:site_name", og_siteName og);
   ("og:locale", og_locale og)] ++
  (og_images og ≫= λ i,
     [("og:image", resolve_url base (ogi_url i)); ("og:image:width", pretty (ogi_width i));
      ("og:image:height", pretty (ogi_height i)); ("og:image:alt", ogi_alt i)]) ++
  [("og:type", og_type og)].

(** [viewport.themeColor], one [<meta name="theme-color">] per scheme. *)
Definition viewport_theme_colors : list (string * string) :=
  [("(prefers-color-scheme: light)", viewport_themeColor Light);
   ("(prefers-color-scheme: dark)", viewport_themeColor Dark)].

Definition resolve_head (r : Route) : Head :=
  let md := metadata in
  mkHead (page_title (route_page_title r)) (md_description md)
    (String.concat "," (md_keywords md)) (og_tags (md_metadataBase md) (md_openGraph md))
    (md_manifest md) viewport_theme_colors.

(** ** [RootLayout] *)

(** What [RootLayout] renders inside [ThemeProvider], in order. *)
Inductive LayoutChild := LFavicon | LBrandCorner | LChildren | LThemeToggle | LOverlay.

Definition RootLayout : list LayoutChild := [LFavicon; LBrandCorner; LChildren; LThemeToggle; LOverlay].

(** ** Lemmas *)

(** The layout's [keywords] list "Portfolio" twice. *)
Lemma keywords_duplicate : ¬ NoDup metadata_keywords.
Proof. apply (bool_decide_unpack _). vm_compute. reflexivity. Qed.

(** No route's page contributes to its head. *)
Lemma resolve_head_route r : resolve_head r = resolve_head RHome.
Proof. by destruct r. Qed.

(** ** Properties *)

(** Every route of the site, the home page and each project's
    page, gets the same [<head>]. Its title is the layout's
    [title.default]: no page exports a title, so the template
    "%s • Abhimanyu Pandey" is never applied, and the project pages,
    whose headings show five different titles, share one document
    title. [og:title] is that title, [og:site_name] the
    [applicationName], and the Open Graph URLs are resolved under
    https://your-domain.com, the placeholder the layout's comment asks to
    replace on deployment. A page exporting a title [t] would be titled
    "t • Abhimanyu Pandey". *)
Lemma route_heads :
  (∀ r, r ∈ site_routes → resolve_head r = resolve_head RHome) ∧
  hd_title (resolve_head RHome) = tt_default (md_title metadata) ∧
  NoDup (title <$> projects) ∧
  ("og:title", hd_title (resolve_head RHome)) ∈ hd_og (resolve_head RHome) ∧
  ("og:site_name", md_applicationName metadata) ∈ hd_og (resolve_head RHome) ∧
  Forall (λ kv, kv.1 = "og:url" ∨ kv.1 = "og:image" →
                String.prefix "https://your-domain.com/" kv.2 = true) (hd_og (resolve_head RHome)) ∧
  (∀ t, page_title (Some t) = t +:+ " • Abhimanyu Pandey").
Proof.
  split_and!.
  - intros r _. apply resolve_head_route.
  - done.
  - apply (bool_decide_unpack _). vm_compute. reflexivity.
  - vm_compute. left.
  - vm_compute. do 3 right. left.
  - vm_compute. repeat constructor; intros [H|H]; discriminate H || reflexivity.
  - done.
Qed.
